(** * Modern-Blog: authorization, validation and pagination of the REST API

    A shallow embedding of the server side of the blog system
    (server/middleware/auth.js, server/models/Post.js,
    server/models/Comment.js, server/routes/posts.js,
    server/routes/comments.js) and the properties of its specification.

    Conventions of the embedding.
    - A JavaScript string is the list of its UTF-16 code units, so that
      [length] is the [.length] the Mongoose validators look at.
    - A JavaScript number is a rational, NaN, +Infinity or -Infinity; the
      arithmetic rounds to the nearest double ([double], binary64, ties to
      even, overflow to infinity).  The sign of zero is not modelled.  A
      count of documents is taken to be below 2^53, so that it is a double
      as it is.
    - A numeric query parameter is the decimal numeral of an integer, or
      absent.
    - A field of a request body is a string (a list of strings for the
      tags) or absent; a body with null, a number or an object in the
      place of a string is no request of the embedding.
    - A collection is a finite map from ObjectId to document.
    - A route handler is a program over the Mongoose calls it awaits; the
      interpreter [run] executes the calls one after the other on a store
      and [trace] lists the calls issued.
    - Mongoose is taken at version 6 or later: keys whose value is
      [undefined] are removed from an update document. *)

From Stdlib Require Import ZArith QArith Qround Qabs Qpower Qreduction List
  Bool Lia Lqa String Ascii DecimalString.
From Stdlib Require Qcanon.
From stdpp Require Import base option list gmap.

Open Scope Z_scope.

(** ** JavaScript strings *)

Abbreviation jsstring := (list N) (only parsing).

(** A string literal of the source (ASCII only). *)
Definition js (s : string) : jsstring :=
  map N_of_ascii (list_ascii_of_string s).

(** [!s] is false exactly for the non-empty strings. *)
Definition truthy (s : jsstring) : bool :=
  match s with [] => false | _ :: _ => true end.

(** [!v] for a value that is [undefined] or a string. *)
Definition truthy_opt (v : option jsstring) : bool :=
  match v with None => false | Some s => truthy s end.

(** WhiteSpace and LineTerminator code units of ECMAScript, the characters
    [String.prototype.trim] strips. *)
Definition isWhiteSpace (c : N) : bool :=
  (((9 <=? c) && (c <=? 13)) || (c =? 32) || (c =? 160) || (c =? 5760)
   || ((8192 <=? c) && (c <=? 8202)) || (c =? 8232) || (c =? 8233)
   || (c =? 8239) || (c =? 8287) || (c =? 12288) || (c =? 65279))%N.

Fixpoint trimStart (s : jsstring) : jsstring :=
  match s with
  | [] => []
  | c :: s' => if isWhiteSpace c then trimStart s' else s
  end.

Definition trimEnd (s : jsstring) : jsstring := rev (trimStart (rev s)).

Definition trim (s : jsstring) : jsstring := trimEnd (trimStart s).

Fixpoint startsWith (p s : jsstring) : bool :=
  match p, s with
  | [], _ => true
  | _ :: _, [] => false
  | a :: p', b :: s' => (a =? b)%N && startsWith p' s'
  end.

(** [s.replace(pat, rep)] for a string pattern: the first occurrence only. *)
Fixpoint replace (pat rep s : jsstring) : jsstring :=
  if startsWith pat s then rep ++ drop (length pat) s
  else match s with
       | [] => []
       | c :: s' => c :: replace pat rep s'
       end.

(** ** JavaScript numbers *)

Inductive jsnum :=
| NaN
| Infinity (negative : bool)
| Num (q : Q).

Definition num_of_Z (z : Z) : jsnum := Num (inject_Z z).

(** *** Rounding to a double

    A finite double is [m * 2^e] for integers [m] and [e] with
    [|m| < 2^53] and [-1074 <= e <= 971]. *)

Definition pow2 (e : Z) : Q := (2 ^ e)%Q.

(** The integer [e] with [2^e <= a < 2^(e+1)], for [a > 0]. *)
Definition ilog2 (a : Q) : Z :=
  let e := Z.log2 (Qnum a) - Z.log2 (Zpos (Qden a)) in
  if Qle_bool (pow2 e) a then e else e - 1.

(** The nearest integer, the even one of two that are equally near. *)
Definition round_half_even (x : Q) : Z :=
  let f := Qfloor x in
  match (x - inject_Z f ?= 1 # 2)%Q with
  | Lt => f
  | Gt => f + 1
  | Eq => if Z.even f then f else f + 1
  end.

(** The double nearest to [q]: 53 bits from the leading one, or from
    [2^-1022] down for the subnormal numbers. *)
Definition double (q : Q) : jsnum :=
  let a := Qabs q in
  if Qeq_bool a 0 then Num 0
  else
    let e := Z.max (ilog2 a) (-1022) - 52 in
    let r := (inject_Z (round_half_even (a / pow2 e)) * pow2 e)%Q in
    if Qle_bool (pow2 1024) r then Infinity (negb (Qle_bool 0 q))
    else Num (Qred (if Qle_bool 0 q then r else - r)).

(** *** Operators *)

(** [- a] *)
Definition js_neg (a : jsnum) : jsnum :=
  match a with
  | NaN => NaN
  | Infinity n => Infinity (negb n)
  | Num x => Num (- x)
  end.

(** [a - b] *)
Definition js_sub (a b : jsnum) : jsnum :=
  match a, b with
  | Num x, Num y => double (x - y)
  | Infinity n, Num _ => Infinity n
  | Num _, Infinity m => Infinity (negb m)
  | Infinity n, Infinity m => if eqb n m then NaN else Infinity n
  | _, _ => NaN
  end.

(** [a * b] *)
Definition js_mul (a b : jsnum) : jsnum :=
  match a, b with
  | Num x, Num y => double (x * y)
  | Infinity n, Num y | Num y, Infinity n =>
      if Qeq_bool y 0 then NaN else Infinity (xorb n (negb (Qle_bool 0 y)))
  | Infinity n, Infinity m => Infinity (xorb n m)
  | _, _ => NaN
  end.

(** [a / b] *)
Definition js_div (a b : jsnum) : jsnum :=
  match a, b with
  | Num x, Num y =>
      if Qeq_bool y 0
      then (if Qeq_bool x 0 then NaN else Infinity (negb (Qle_bool 0 x)))
      else double (x / y)
  | Num _, Infinity _ => Num 0
  | Infinity n, Num y => Infinity (xorb n (negb (Qle_bool 0 y)))
  | _, _ => NaN
  end.

Definition Math_ceil (a : jsnum) : jsnum :=
  match a with
  | Num x => num_of_Z (Qceiling x)
  | _ => a
  end.

(** [a < b] *)
Definition js_lt (a b : jsnum) : bool :=
  match a, b with
  | Num x, Num y => negb (Qle_bool y x)
  | Num _, Infinity n => negb n
  | Infinity n, Num _ => n
  | Infinity n, Infinity m => n && negb m
  | _, _ => false
  end.

(** [a > b] *)
Definition js_gt (a b : jsnum) : bool := js_lt b a.

(** A numeric query parameter is the decimal numeral of an integer [z];
    on such a string [parseInt] and the implicit conversion to number both
    give the double nearest to [z]. *)
Definition parseInt (z : Z) : jsnum := double (inject_Z z).
Definition ToNumber (z : Z) : jsnum := double (inject_Z z).

(** *** Numbers on their way to the database

    The driver sends a negative limit as its opposite.  The server reads
    [skip] and [limit] as 64-bit integers: NaN as 0, a number out of range
    as the nearest bound. *)

Definition LLONG_MAX : Z := 2 ^ 63 - 1.
Definition LLONG_MIN : Z := - 2 ^ 63.

Definition safeNumberLong (a : jsnum) : Z :=
  match a with
  | NaN => 0
  | Infinity n => if n then LLONG_MIN else LLONG_MAX
  | Num x => Z.max LLONG_MIN (Z.min LLONG_MAX (Qnum x ÷ Z.pos (Qden x)))
  end.

Definition sent_limit (limit : jsnum) : Z :=
  safeNumberLong (if js_lt limit (Num 0) then js_neg limit else limit).

(** ** Data model *)

Abbreviation ObjectId := (list N) (only parsing).

(** Modelled from the spec: the User model (server/models/User.js) with
    username, email, hashed password credential and role. *)
Module User.
Record t := {
  _id : ObjectId;
  username : jsstring;
  email : jsstring;
  password : jsstring;
  role : jsstring
}.
End User.

(** A user document as a query returns it: [select] and [populate] keep
    the identifier and drop the paths that were not asked for. *)
Module UserDoc.
Record t := {
  _id : ObjectId;
  username : option jsstring;
  email : option jsstring;
  password : option jsstring;
  role : option jsstring
}.
End UserDoc.

Module Post.
Record t := {
  _id : ObjectId;
  title : jsstring;
  body : jsstring;
  author : ObjectId;
  tags : list jsstring;
  category : jsstring;
  views : Z;
  createdAt : Z;
  updatedAt : Z
}.
End Post.

Module Comment.
Record t := {
  _id : ObjectId;
  postID : ObjectId;
  userID : ObjectId;
  comment : jsstring;
  createdAt : Z;
  updatedAt : Z
}.
End Comment.

(** A post or comment document with the result of [populate] on its user
    reference: [None] when not populated, [Some None] when the referenced
    user is gone (Mongoose sets the path to null). *)
Record PostDoc := {
  post_doc : Post.t;
  post_author : option (option UserDoc.t)
}.

Record CommentDoc := {
  comment_doc : Comment.t;
  comment_user : option (option UserDoc.t)
}.

Record Store := {
  users : gmap ObjectId User.t;
  posts : gmap ObjectId Post.t;
  comments : gmap ObjectId Comment.t
}.

Definition set_posts (f : gmap ObjectId Post.t -> gmap ObjectId Post.t)
    (st : Store) : Store :=
  {| users := users st; posts := f (posts st); comments := comments st |}.

Definition set_comments
    (f : gmap ObjectId Comment.t -> gmap ObjectId Comment.t)
    (st : Store) : Store :=
  {| users := users st; posts := posts st; comments := f (comments st) |}.

(** ** Schemas and validators (models/Post.js, models/Comment.js) *)

Inductive validator :=
| required (message : jsstring)
| maxlength (n : nat) (message : jsstring)
| minlength (n : nat) (message : jsstring)
| enum (values : list jsstring).

(** The options of a path of type String. *)
Record StringPath := {
  opt_trim : bool;
  opt_default : option jsstring;
  opt_validators : list validator
}.

(** The fixed list of categories. *)
Definition categories : list jsstring :=
  [js "General"; js "Technology"; js "Development"; js "Design";
   js "Business"; js "Lifestyle"].

Module postSchema.
Definition title : StringPath :=
  {| opt_trim := true;
     opt_default := None;
     opt_validators :=
       [required (js "Title is required");
        maxlength 200 (js "Title cannot exceed 200 characters")] |}.
Definition body : StringPath :=
  {| opt_trim := false;
     opt_default := None;
     opt_validators :=
       [required (js "Body content is required");
        minlength 10 (js "Body must be at least 10 characters long")] |}.
(** the element type of the array path [tags] *)
Definition tags : StringPath :=
  {| opt_trim := true;
     opt_default := None;
     opt_validators :=
       [maxlength 50 (js "Tag cannot exceed 50 characters")] |}.
Definition category : StringPath :=
  {| opt_trim := false;
     opt_default := Some (js "General");
     opt_validators := [enum categories] |}.
Definition views_default : Z := 0.
End postSchema.

Module commentSchema.
Definition comment : StringPath :=
  {| opt_trim := true;
     opt_default := None;
     opt_validators :=
       [required (js "Comment content is required");
        minlength 1 (js "Comment cannot be empty");
        maxlength 1000 (js "Comment cannot exceed 1000 characters")] |}.
End commentSchema.

(** Setters run when a value is assigned or cast into an update. *)
Definition applySetters (p : StringPath) (v : jsstring) : jsstring :=
  if opt_trim p then trim v else v.

(** Mongoose's message for a failed [enum] without a message of its own. *)
Definition enum_message (path value : jsstring) : jsstring :=
  js "`" ++ value ++ js "` is not a valid enum value for path `" ++ path
     ++ js "`.".

(** One validator on the value of a path ([None] is [undefined]); the
    result is the message of the failure.  Validators other than
    [required] pass on [undefined]. *)
Definition validator_check (path : jsstring) (vd : validator)
    (v : option jsstring) : option jsstring :=
  match vd, v with
  | required msg, None => Some msg
  | required msg, Some s => if truthy s then None else Some msg
  | maxlength n msg, Some s =>
      if (n <? length s)%nat then Some msg else None
  | minlength n msg, Some s =>
      if (length s <? n)%nat then Some msg else None
  | enum values, Some s =>
      if bool_decide (s ∈ values) then None else Some (enum_message path s)
  | _, None => None
  end.

(** [SchemaType.doValidate]: the first validator that fails gives the one
    error of the path. *)
Fixpoint doValidate (path : jsstring) (vds : list validator)
    (v : option jsstring) : option jsstring :=
  match vds with
  | [] => None
  | vd :: vds' =>
      match validator_check path vd v with
      | Some msg => Some msg
      | None => doValidate path vds' v
      end
  end.

(** The entry of [error.errors] for a path, if its value is invalid. *)
Definition validate_path (path : jsstring) (p : StringPath)
    (v : option jsstring) : list (jsstring * jsstring) :=
  match doValidate path (opt_validators p) v with
  | Some msg => [(path, msg)]
  | None => []
  end.

Definition index_path (path : jsstring) (i : nat) : jsstring :=
  path ++ js "." ++ js (NilZero.string_of_uint (Nat.to_uint i)).

(** The elements of an array of strings are validated one by one, under
    the paths [tags.0], [tags.1], ... *)
Fixpoint validate_elements (path : jsstring) (p : StringPath) (i : nat)
    (vs : list jsstring) : list (jsstring * jsstring) :=
  match vs with
  | [] => []
  | v :: vs' =>
      validate_path (index_path path i) p (Some v)
        ++ validate_elements path p (S i) vs'
  end.

Inductive exn :=
| CastError
| ValidationError (errors : list (jsstring * jsstring))
| JsonWebTokenError
| MongoServerError.

(** [error.name] *)
Definition exn_name (e : exn) : jsstring :=
  match e with
  | CastError => js "CastError"
  | ValidationError _ => js "ValidationError"
  | JsonWebTokenError => js "JsonWebTokenError"
  | MongoServerError => js "MongoServerError"
  end.

(** [Object.values(error.errors).map(err => err.message)] *)
Definition error_messages (e : exn) : list jsstring :=
  match e with
  | ValidationError errors => map snd errors
  | _ => []
  end.

(** ** Mongoose calls *)

(** The filter object of [Post.find] and [Post.countDocuments]: the keys
    [category], [tags: { $in: [...] }] and [$text: { $search: ... }]. *)
Record PostQuery := {
  query_category : option jsstring;
  query_tags_in : option (list jsstring);
  query_text_search : option jsstring
}.

(** An update document for a post: [{ $inc: { path: n } }] or
    [{ title, body, tags, category }], where [None] is [undefined]. *)
Inductive PostUpdate :=
| update_inc (path : jsstring) (n : Z)
| update_set (title body : option jsstring) (tags : option (list jsstring))
    (category : option jsstring).

Record UpdateOptions := {
  opt_new : bool;
  opt_runValidators : bool
}.

(** [new Post({...})] before it is saved: the setters and defaults have
    run, the validators have not. *)
Record PostDraft := {
  draft_id : ObjectId;
  draft_title : option jsstring;
  draft_body : option jsstring;
  draft_author : ObjectId;
  draft_tags : list jsstring;
  draft_category : option jsstring;
  draft_views : Z
}.

(** [new Comment({...})] before it is saved; the post reference is kept
    as submitted, its cast is checked by the validation of [save]. *)
Record CommentDraft := {
  cdraft_id : ObjectId;
  cdraft_postID : jsstring;
  cdraft_userID : ObjectId;
  cdraft_comment : option jsstring
}.

(** The calls the handlers await.  [paths] lists the user paths that
    [populate] asks for; [now] is the time at which the call runs, for
    the timestamps. *)
Inductive DbOp :=
| User_findById (id : jsstring) (exclude : list jsstring)
| Post_find (q : PostQuery) (paths : list jsstring) (sortBy : jsstring)
    (direction : Z) (limit skip : jsnum)
| Post_countDocuments (q : PostQuery)
| Post_findById (id : jsstring) (paths : option (list jsstring))
| Post_findByIdAndUpdate (id : jsstring) (u : PostUpdate)
    (o : UpdateOptions) (paths : option (list jsstring)) (now : Z)
| Post_findByIdAndDelete (id : jsstring)
| Post_save (d : PostDraft) (now : Z)
| Post_populate (d : Post.t) (paths : list jsstring)
| Comment_findById (id : jsstring)
| Comment_findByIdAndUpdate (id : jsstring) (comment : jsstring)
    (o : UpdateOptions) (paths : option (list jsstring)) (now : Z)
| Comment_findByIdAndDelete (id : jsstring)
| Comment_save (d : CommentDraft) (now : Z)
| Comment_populate (d : Comment.t) (paths : list jsstring).

(** What a call resolves to. *)
Definition result (op : DbOp) : Type :=
  match op with
  | User_findById _ _ => option UserDoc.t
  | Post_find _ _ _ _ _ _ => list PostDoc
  | Post_countDocuments _ => Z
  | Post_findById _ _ => option PostDoc
  | Post_findByIdAndUpdate _ _ _ _ _ => option PostDoc
  | Post_findByIdAndDelete _ => option Post.t
  | Post_save _ _ => Post.t
  | Post_populate _ _ => PostDoc
  | Comment_findById _ => option Comment.t
  | Comment_findByIdAndUpdate _ _ _ _ _ => option CommentDoc
  | Comment_findByIdAndDelete _ => option Comment.t
  | Comment_save _ _ => Comment.t
  | Comment_populate _ _ => CommentDoc
  end.

(** The calls that change the store. *)
Definition is_write (op : DbOp) : bool :=
  match op with
  | Post_findByIdAndUpdate _ _ _ _ _ | Post_findByIdAndDelete _
  | Post_save _ _ | Comment_findByIdAndUpdate _ _ _ _ _
  | Comment_findByIdAndDelete _ | Comment_save _ _ => true
  | _ => false
  end.

(** ** Handler programs *)

(** An async function body: it returns, throws, or awaits a call and goes
    on with what the call resolved to or rejected with. *)
Inductive Prog (A : Type) : Type :=
| Ret (a : A)
| Throw (e : exn)
| Await (op : DbOp) (k : exn + result op -> Prog A).

Arguments Ret {A} a.
Arguments Throw {A} e.
Arguments Await {A} op k.

Fixpoint bind {A B : Type} (m : Prog A) (f : A -> Prog B) : Prog B :=
  match m with
  | Ret a => f a
  | Throw e => Throw e
  | Await op k => Await op (fun r => bind (k r) f)
  end.

(** [await op]: a rejected promise throws. *)
Definition await (op : DbOp) : Prog (result op) :=
  Await op (fun r => match r with inl e => Throw e | inr v => Ret v end).

(** [try { m } catch (error) { h error }] *)
Fixpoint try_catch {A : Type} (m : Prog A) (h : exn -> Prog A) : Prog A :=
  match m with
  | Ret a => Ret a
  | Throw e => h e
  | Await op k => Await op (fun r => try_catch (k r) h)
  end.

#[global] Instance Prog_ret : MRet Prog := @Ret.
#[global] Instance Prog_bind : MBind Prog := fun A B f m => bind m f.

(** ** The store behind the calls *)

Definition quote : jsstring := [34%N].

(** The message of the validation error of a reference that does not
    cast (the trailing cause that recent versions append is left out). *)
Definition cast_message (path value : jsstring) : jsstring :=
  js "Cast to ObjectId failed for value " ++ quote ++ value ++ quote
     ++ js " (type string) at path " ++ quote ++ path ++ quote.

(** The user paths a projection keeps. *)
Definition user_doc (keep : jsstring -> bool) (u : User.t) : UserDoc.t :=
  let pick name v := if keep (js name) then Some v else None in
  {| UserDoc._id := User._id u;
     UserDoc.username := pick "username"%string (User.username u);
     UserDoc.email := pick "email"%string (User.email u);
     UserDoc.password := pick "password"%string (User.password u);
     UserDoc.role := pick "role"%string (User.role u) |}.

(** [.select('-a -b')] keeps all paths but the listed ones. *)
Definition select_exclude (exclude : list jsstring) : User.t -> UserDoc.t :=
  user_doc (fun name => negb (bool_decide (name ∈ exclude))).

(** [.populate(path, 'a b')] keeps the listed paths. *)
Definition select_include (fields : list jsstring) : User.t -> UserDoc.t :=
  user_doc (fun name => bool_decide (name ∈ fields)).

Definition populate_ref (st : Store) (paths : option (list jsstring))
    (ref : ObjectId) : option (option UserDoc.t) :=
  match paths with
  | None => None
  | Some fields => Some (select_include fields <$> users st !! ref)
  end.

Definition populate_post (st : Store) (paths : option (list jsstring))
    (p : Post.t) : PostDoc :=
  {| post_doc := p; post_author := populate_ref st paths (Post.author p) |}.

Definition populate_comment (st : Store) (paths : option (list jsstring))
    (c : Comment.t) : CommentDoc :=
  {| comment_doc := c;
     comment_user := populate_ref st paths (Comment.userID c) |}.

(** Casting an update: the setters of the paths run on the new values. *)
Definition castUpdate (u : PostUpdate) : PostUpdate :=
  match u with
  | update_inc path n => update_inc path n
  | update_set title body tags category =>
      update_set (applySetters postSchema.title <$> title)
                 (applySetters postSchema.body <$> body)
                 (map (applySetters postSchema.tags) <$> tags)
                 (applySetters postSchema.category <$> category)
  end.

(** Update validators: only the paths present in the update are checked,
    and every failure is collected. *)
Definition validate_update (u : PostUpdate) : list (jsstring * jsstring) :=
  match u with
  | update_inc _ _ => []
  | update_set title body tags category =>
      match title with
      | Some v => validate_path (js "title") postSchema.title (Some v)
      | None => []
      end
      ++ match body with
         | Some v => validate_path (js "body") postSchema.body (Some v)
         | None => []
         end
      ++ match tags with
         | Some vs => validate_elements (js "tags") postSchema.tags 0 vs
         | None => []
         end
      ++ match category with
         | Some v =>
             validate_path (js "category") postSchema.category (Some v)
         | None => []
         end
  end.

(** The document after an update; [timestamps: true] refreshes
    [updatedAt] on every update.  [$inc] is only defined here on the
    numeric path [views]. *)
Definition apply_update (u : PostUpdate) (now : Z) (p : Post.t)
    : option Post.t :=
  match u with
  | update_inc path n =>
      if bool_decide (path = js "views")
      then Some {| Post._id := Post._id p;
                   Post.title := Post.title p;
                   Post.body := Post.body p;
                   Post.author := Post.author p;
                   Post.tags := Post.tags p;
                   Post.category := Post.category p;
                   Post.views := Post.views p + n;
                   Post.createdAt := Post.createdAt p;
                   Post.updatedAt := now |}
      else None
  | update_set title body tags category =>
      Some {| Post._id := Post._id p;
              Post.title := default (Post.title p) title;
              Post.body := default (Post.body p) body;
              Post.author := Post.author p;
              Post.tags := default (Post.tags p) tags;
              Post.category := default (Post.category p) category;
              Post.views := Post.views p;
              Post.createdAt := Post.createdAt p;
              Post.updatedAt := now |}
  end.

(** Document validation on [save]: every path of the schema with a
    validator.  The required [author] is always set by the handler. *)
Definition validate_post (d : PostDraft) : list (jsstring * jsstring) :=
  validate_path (js "title") postSchema.title (draft_title d)
  ++ validate_path (js "body") postSchema.body (draft_body d)
  ++ validate_elements (js "tags") postSchema.tags 0 (draft_tags d)
  ++ validate_path (js "category") postSchema.category (draft_category d).

Definition post_of_draft (d : PostDraft) (now : Z) : Post.t :=
  {| Post._id := draft_id d;
     Post.title := default [] (draft_title d);
     Post.body := default [] (draft_body d);
     Post.author := draft_author d;
     Post.tags := draft_tags d;
     Post.category := default [] (draft_category d);
     Post.views := draft_views d;
     Post.createdAt := now;
     Post.updatedAt := now |}.

Definition validate_comment (d : CommentDraft)
    : list (jsstring * jsstring) :=
  validate_path (js "comment") commentSchema.comment (cdraft_comment d).

Definition set_comment (text : jsstring) (now : Z) (c : Comment.t)
    : Comment.t :=
  {| Comment._id := Comment._id c;
     Comment.postID := Comment.postID c;
     Comment.userID := Comment.userID c;
     Comment.comment := text;
     Comment.createdAt := Comment.createdAt c;
     Comment.updatedAt := now |}.

(** ** Requests and responses *)

Record Request := {
  header_Authorization : option jsstring;
  params_id : jsstring;
  query_page : option Z;
  query_limit : option Z;
  query_category_param : option jsstring;
  query_tag : option jsstring;
  query_search : option jsstring;
  query_sortBy : option jsstring;
  query_sortOrder : option jsstring;
  body_title : option jsstring;
  body_body : option jsstring;
  body_tags : option (list jsstring);
  body_category : option jsstring;
  body_postID : option jsstring;
  body_comment : option jsstring
}.

(** What a handler takes from its surroundings: the clock and the
    ObjectId that [new Post] or [new Comment] draws. *)
Record Env := {
  env_now : Z;
  env_newId : ObjectId
}.

Record Pagination := {
  currentPage : jsnum;
  totalPages : jsnum;
  totalPosts : Z;
  hasNextPage : bool;
  hasPrevPage : bool
}.

(** The JSON envelopes of the responses. *)
Inductive Json :=
| json_message (success : bool) (message : jsstring)
| json_errors (success : bool) (message : jsstring) (errors : list jsstring)
| json_posts (success : bool) (posts : list PostDoc)
    (pagination : Pagination)
| json_post (success : bool) (message : option jsstring)
    (post : option PostDoc)
| json_comment (success : bool) (message : jsstring)
    (comment : option CommentDoc).

Record Response := {
  status : Z;
  json : Json
}.

(** [res.status(code).json({ success: false, message })] *)
Definition fail (code : Z) (message : string) : Response :=
  {| status := code; json := json_message false (js message) |}.

(** [v !== s] for [v] undefined or a string *)
Definition strict_neq (v : option jsstring) (s : jsstring) : bool :=
  negb (bool_decide (v = Some s)).

Definition toString (o : ObjectId) : jsstring := o.

(** ** A small blog, for the examples

    Three users (an Admin, an Editor, a plain User), one post of the
    Editor and one comment of the User, with toy collaborators: an
    ObjectId is a string of 24 hexadecimal digits, a token is valid when
    it reads [valid.] followed by the identifier of its bearer. *)
Module Example.

Definition isHexDigit (c : N) : bool :=
  (((48 <=? c) && (c <=? 57)) || ((97 <=? c) && (c <=? 102))
   || ((65 <=? c) && (c <=? 70)))%N.

Definition toLowerHex (c : N) : N :=
  if ((65 <=? c) && (c <=? 70))%N then (c + 32)%N else c.

Definition castObjectId (s : jsstring) : option ObjectId :=
  if (length s =? 24)%nat && forallb isHexDigit s
  then Some (map toLowerHex s) else None.

Definition jwt_verify (token : jsstring) : option jsstring :=
  if startsWith (js "valid.") token then Some (drop 6 token) else None.

Definition text_search (s : jsstring) (p : Post.t) : bool :=
  bool_decide (s = Post.title p).

Definition sort_posts (sortBy : jsstring) (direction : Z)
    (l : list Post.t) : list Post.t := l.

Definition sort_comments (l : list Comment.t) : list Comment.t := l.

Definition oid (last : string) : ObjectId :=
  js "00000000000000000000000" ++ js last.

Definition alice : User.t :=
  {| User._id := oid "a"; User.username := js "alice";
     User.email := js "alice@example.org"; User.password := js "$2a$hash-a";
     User.role := js "Admin" |}.

Definition bob : User.t :=
  {| User._id := oid "b"; User.username := js "bob";
     User.email := js "bob@example.org"; User.password := js "$2a$hash-b";
     User.role := js "Editor" |}.

Definition carol : User.t :=
  {| User._id := oid "c"; User.username := js "carol";
     User.email := js "carol@example.org"; User.password := js "$2a$hash-c";
     User.role := js "User" |}.

Definition dave : User.t :=
  {| User._id := oid "d"; User.username := js "dave";
     User.email := js "dave@example.org"; User.password := js "$2a$hash-d";
     User.role := js "Editor" |}.

Definition hello : Post.t :=
  {| Post._id := oid "1"; Post.title := js "Hello";
     Post.body := js "This is a test body."; Post.author := oid "b";
     Post.tags := [js "a"; js "b"; js "b"]; Post.category := js "General";
     Post.views := 7; Post.createdAt := 1000; Post.updatedAt := 1000 |}.

Definition nice : Comment.t :=
  {| Comment._id := oid "9"; Comment.postID := oid "1";
     Comment.userID := oid "c"; Comment.comment := js "Nice post";
     Comment.createdAt := 1500; Comment.updatedAt := 1500 |}.

Definition blog : Store :=
  {| users := <[oid "a" := alice]> (<[oid "b" := bob]>
                (<[oid "c" := carol]> (<[oid "d" := dave]> ∅)));
     posts := <[oid "1" := hello]> ∅;
     comments := <[oid "9" := nice]> ∅ |}.

Definition env : Env := {| env_now := 2000; env_newId := oid "2" |}.

(** The same blog with three posts. *)
Definition again : Post.t :=
  {| Post._id := oid "3"; Post.title := js "Again";
     Post.body := js "A second test body."; Post.author := oid "d";
     Post.tags := [js "a"]; Post.category := js "Technology";
     Post.views := 0; Post.createdAt := 1100; Post.updatedAt := 1100 |}.

Definition thirdly : Post.t :=
  {| Post._id := oid "4"; Post.title := js "Thirdly";
     Post.body := js "A third test body."; Post.author := oid "b";
     Post.tags := []; Post.category := js "General";
     Post.views := 2; Post.createdAt := 1200; Post.updatedAt := 1200 |}.

Definition shelf : Store :=
  set_posts (fun _ => <[oid "1" := hello]>
                        (<[oid "3" := again]> (<[oid "4" := thirdly]> ∅)))
    blog.

(** A stored user as the verifier hands it on. *)
Definition doc_of (u : User.t) : UserDoc.t := select_exclude [js "password"] u.

(** A request with nothing in it. *)
Definition empty_request : Request :=
  {| header_Authorization := None; params_id := [];
     query_page := None; query_limit := None;
     query_category_param := None; query_tag := None;
     query_search := None; query_sortBy := None; query_sortOrder := None;
     body_title := None; body_body := None; body_tags := None;
     body_category := None; body_postID := None; body_comment := None |}.

(** A request with the bearer token of a user, on the resource [id]. *)
Definition request_of (who : string) (id : jsstring) : Request :=
  {| header_Authorization := Some (js "Bearer valid." ++ oid who);
     params_id := id;
     query_page := None; query_limit := None;
     query_category_param := None; query_tag := None;
     query_search := None; query_sortBy := None; query_sortOrder := None;
     body_title := None; body_body := None; body_tags := None;
     body_category := None; body_postID := None; body_comment := None |}.

Definition with_comment (text : option jsstring) (postID : option jsstring)
    (req : Request) : Request :=
  {| header_Authorization := header_Authorization req;
     params_id := params_id req;
     query_page := query_page req; query_limit := query_limit req;
     query_category_param := query_category_param req;
     query_tag := query_tag req; query_search := query_search req;
     query_sortBy := query_sortBy req;
     query_sortOrder := query_sortOrder req;
     body_title := body_title req; body_body := body_body req;
     body_tags := body_tags req; body_category := body_category req;
     body_postID := postID; body_comment := text |}.

Definition with_post (title body : option jsstring)
    (tags : option (list jsstring)) (category : option jsstring)
    (req : Request) : Request :=
  {| header_Authorization := header_Authorization req;
     params_id := params_id req;
     query_page := query_page req; query_limit := query_limit req;
     query_category_param := query_category_param req;
     query_tag := query_tag req; query_search := query_search req;
     query_sortBy := query_sortBy req;
     query_sortOrder := query_sortOrder req;
     body_title := title; body_body := body;
     body_tags := tags; body_category := category;
     body_postID := body_postID req; body_comment := body_comment req |}.

Definition with_page (page limit : option Z) (req : Request) : Request :=
  {| header_Authorization := header_Authorization req;
     params_id := params_id req;
     query_page := page; query_limit := limit;
     query_category_param := query_category_param req;
     query_tag := query_tag req; query_search := query_search req;
     query_sortBy := query_sortBy req;
     query_sortOrder := query_sortOrder req;
     body_title := body_title req; body_body := body_body req;
     body_tags := body_tags req; body_category := body_category req;
     body_postID := body_postID req; body_comment := body_comment req |}.

(** The same request with [token] as its Authorization header. *)
Definition with_token (token : jsstring) (req : Request) : Request :=
  {| header_Authorization := Some token;
     params_id := params_id req;
     query_page := query_page req; query_limit := query_limit req;
     query_category_param := query_category_param req;
     query_tag := query_tag req; query_search := query_search req;
     query_sortBy := query_sortBy req;
     query_sortOrder := query_sortOrder req;
     body_title := body_title req; body_body := body_body req;
     body_tags := body_tags req; body_category := body_category req;
     body_postID := body_postID req; body_comment := body_comment req |}.

End Example.

Section Server.

(** The collaborators outside the repository: the cast of a string to an
    ObjectId (BSON), the verification of a token against the signing
    secret, giving the [id] of its payload ([None] when [jwt.verify]
    throws), the text index and the sort of the database. *)
Variable castObjectId : jsstring -> option ObjectId.
Variable jwt_verify : jsstring -> option jsstring.
Variable text_search : jsstring -> Post.t -> bool.
Variable sort_posts : jsstring -> Z -> list Post.t -> list Post.t.

(** Does a post match a filter? *)
Definition matches (q : PostQuery) (p : Post.t) : bool :=
  match query_category q with
  | Some c => bool_decide (Post.category p = c)
  | None => true
  end
  && match query_tags_in q with
     | Some ts => existsb (fun t => bool_decide (t ∈ ts)) (Post.tags p)
     | None => true
     end
  && match query_text_search q with
     | Some s => text_search s p
     | None => true
     end.

Definition matching (q : PostQuery) (st : Store) : list Post.t :=
  filter (fun p => matches q p = true) (map_to_list (posts st)).*2.

(** A list without its first [n] elements, and its first [n] elements,
    for a count that is a 64-bit integer. *)
Fixpoint skip_first {A : Type} (n : Z) (l : list A) : list A :=
  match l with
  | [] => []
  | x :: l' => if n <=? 0 then l else skip_first (n - 1) l'
  end.

Fixpoint keep_first {A : Type} (n : Z) (l : list A) : list A :=
  match l with
  | [] => []
  | x :: l' => if n <=? 0 then [] else x :: keep_first (n - 1) l'
  end.

(** [limit(0)] is no limit and a negative limit is its absolute value. *)
Definition apply_limit {A : Type} (limit : jsnum) (l : list A) : list A :=
  if sent_limit limit =? 0 then l else keep_first (sent_limit limit) l.

Definition with_id {A : Type} (id : jsstring) (st : Store)
    (f : ObjectId -> Store * (exn + A)) : Store * (exn + A) :=
  match castObjectId id with
  | None => (st, inl CastError)
  | Some oid => f oid
  end.

(** One call against the store. *)
Definition exec (op : DbOp) (st : Store) : Store * (exn + result op) :=
  match op as o return Store * (exn + result o) with
  | User_findById id exclude =>
      with_id id st (fun oid =>
        (st, inr (select_exclude exclude <$> users st !! oid)))
  | Post_find q paths sortBy direction limit skip =>
      if safeNumberLong skip <? 0 then (st, inl MongoServerError)
      else
        (st, inr (populate_post st (Some paths) <$>
                    apply_limit limit
                      (skip_first (safeNumberLong skip)
                         (sort_posts sortBy direction (matching q st)))))
  | Post_countDocuments q =>
      (st, inr (Z.of_nat (length (matching q st))))
  | Post_findById id paths =>
      with_id id st (fun oid =>
        (st, inr (populate_post st paths <$> posts st !! oid)))
  | Post_findByIdAndUpdate id u o paths now =>
      with_id id st (fun oid =>
        let u' := castUpdate u in
        let errors :=
          if opt_runValidators o then validate_update u' else [] in
        match errors with
        | _ :: _ => (st, inl (ValidationError errors))
        | [] =>
            match posts st !! oid with
            | None => (st, inr None)
            | Some p =>
                match apply_update u' now p with
                | None => (st, inl CastError)
                | Some p' =>
                    let st' := set_posts (insert oid p') st in
                    (st', inr (Some (populate_post st' paths
                                       (if opt_new o then p' else p))))
                end
            end
        end)
  | Post_findByIdAndDelete id =>
      with_id id st (fun oid =>
        (set_posts (delete oid) st, inr (posts st !! oid)))
  | Post_save d now =>
      match validate_post d with
      | (_ :: _) as errors => (st, inl (ValidationError errors))
      | [] =>
          match posts st !! draft_id d with
          | Some _ => (st, inl MongoServerError)
          | None =>
              let p := post_of_draft d now in
              (set_posts (insert (draft_id d) p) st, inr p)
          end
      end
  | Post_populate p paths =>
      (st, inr (populate_post st (Some paths) p))
  | Comment_findById id =>
      with_id id st (fun oid => (st, inr (comments st !! oid)))
  | Comment_findByIdAndUpdate id text o paths now =>
      with_id id st (fun oid =>
        let text' := applySetters commentSchema.comment text in
        let errors :=
          if opt_runValidators o
          then validate_path (js "comment") commentSchema.comment
                 (Some text')
          else [] in
        match errors with
        | _ :: _ => (st, inl (ValidationError errors))
        | [] =>
            match comments st !! oid with
            | None => (st, inr None)
            | Some c =>
                let c' := set_comment text' now c in
                let st' := set_comments (insert oid c') st in
                (st', inr (Some (populate_comment st' paths
                                   (if opt_new o then c' else c))))
            end
        end)
  | Comment_findByIdAndDelete id =>
      with_id id st (fun oid =>
        (set_comments (delete oid) st, inr (comments st !! oid)))
  | Comment_save d now =>
      match castObjectId (cdraft_postID d) with
      | None =>
          (st, inl (ValidationError
                      ((js "postID",
                        cast_message (js "postID") (cdraft_postID d))
                         :: validate_comment d)))
      | Some pid =>
          match validate_comment d with
          | (_ :: _) as errors => (st, inl (ValidationError errors))
          | [] =>
              match comments st !! cdraft_id d with
              | Some _ => (st, inl MongoServerError)
              | None =>
                  let c :=
                    {| Comment._id := cdraft_id d;
                       Comment.postID := pid;
                       Comment.userID := cdraft_userID d;
                       Comment.comment := default [] (cdraft_comment d);
                       Comment.createdAt := now;
                       Comment.updatedAt := now |} in
                  (set_comments (insert (cdraft_id d) c) st, inr c)
              end
          end
      end
  | Comment_populate c paths =>
      (st, inr (populate_comment st (Some paths) c))
  end.

(** Running a handler: the calls are executed in order, each one at once
    on the store. *)
Fixpoint run {A : Type} (m : Prog A) (st : Store) : Store * (exn + A) :=
  match m with
  | Ret a => (st, inr a)
  | Throw e => (st, inl e)
  | Await op k => let '(st', r) := exec op st in run (k r) st'
  end.

(** The calls a handler issues, in order. *)
Fixpoint trace {A : Type} (m : Prog A) (st : Store) : list DbOp :=
  match m with
  | Await op k => let '(st', r) := exec op st in op :: trace (k r) st'
  | _ => []
  end.

(** ** middleware/auth.js *)

(** [req.header('Authorization')?.replace('Bearer ', '')] *)
Definition bearer_token (req : Request) : option jsstring :=
  replace (js "Bearer ") [] <$> header_Authorization req.

Definition auth (req : Request) : Prog (Response + UserDoc.t) :=
  try_catch
    (let token := bearer_token req in
     if negb (truthy_opt token)
     then mret (inl (fail 401 "No token provided, authorization denied"))
     else
       decoded ← match jwt_verify (default [] token) with
                 | Some id => mret id
                 | None => Throw JsonWebTokenError
                 end;
       user ← await (User_findById decoded [js "password"]);
       match user with
       | None => mret (inl (fail 401 "Token is not valid"))
       | Some u => mret (inr u)
       end)
    (fun error => mret (inl (fail 401 "Token is not valid"))).

(** [None] stands for the call of [next()]. *)
Definition adminAuth (user : UserDoc.t) : option Response :=
  if strict_neq (UserDoc.role user) (js "Admin")
  then Some (fail 403 "Admin access required")
  else None.

Definition editorAuth (user : UserDoc.t) : option Response :=
  if strict_neq (UserDoc.role user) (js "Admin")
     && strict_neq (UserDoc.role user) (js "Editor")
  then Some (fail 403 "Editor or Admin access required")
  else None.

(** [router.verb(path, auth, handler)] *)
Definition route_auth (req : Request) (handler : UserDoc.t -> Prog Response)
    : Prog Response :=
  r ← auth req;
  match r with
  | inl res => mret res
  | inr user => handler user
  end.

(** [router.verb(path, auth, editorAuth, handler)] *)
Definition route_auth_editorAuth (req : Request)
    (handler : UserDoc.t -> Prog Response) : Prog Response :=
  route_auth req (fun user =>
    match editorAuth user with
    | Some res => mret res
    | None => handler user
    end).

(** ** routes/posts.js *)

(** [new Post({ title, body, author, tags, category })]: setters and
    defaults run on construction. *)
Definition new_Post (oid : ObjectId) (title body : option jsstring)
    (author : ObjectId) (tags : list jsstring) (category : option jsstring)
    : PostDraft :=
  {| draft_id := oid;
     draft_title := applySetters postSchema.title <$> title;
     draft_body := applySetters postSchema.body <$> body;
     draft_author := author;
     draft_tags := map (applySetters postSchema.tags) tags;
     draft_category :=
       match category with
       | Some c => Some (applySetters postSchema.category c)
       | None => opt_default postSchema.category
       end;
     draft_views := postSchema.views_default |}.

(** The test that guards the update and delete handlers:
    [owner.toString() !== req.user._id.toString() && req.user.role !== 'Admin'] *)
Definition not_authorized (owner : ObjectId) (user : UserDoc.t) : bool :=
  negb (bool_decide (toString owner = toString (UserDoc._id user)))
  && strict_neq (UserDoc.role user) (js "Admin").

(** The two predicates of the authorization policy, read off the guards:
    [canModify] holds when the ownership guard lets the request through,
    [canAuthor] when [editorAuth] calls [next()]. *)
Definition canModify (actor : ObjectId) (actorRole : option jsstring)
    (owner : ObjectId) : bool :=
  negb (not_authorized owner
          {| UserDoc._id := actor; UserDoc.username := None;
             UserDoc.email := None; UserDoc.password := None;
             UserDoc.role := actorRole |}).

Definition canAuthor (actorRole : option jsstring) : bool :=
  match editorAuth
          {| UserDoc._id := []; UserDoc.username := None;
             UserDoc.email := None; UserDoc.password := None;
             UserDoc.role := actorRole |} with
  | None => true
  | Some _ => false
  end.

(** The filter object that GET / builds:
    [if (category && category !== 'all') query.category = category;
     if (tag) query.tags = { $in: [tag] };
     if (search) query.$text = { $search: search };] *)
Definition query_of (req : Request) : PostQuery :=
  let category := query_category_param req in
  let tag := query_tag req in
  let search := query_search req in
  {| query_category :=
       if truthy_opt category && strict_neq category (js "all")
       then category else None;
     query_tags_in :=
       if truthy_opt tag then Some [default [] tag] else None;
     query_text_search :=
       if truthy_opt search then search else None |}.

(** GET / *)
Definition posts_list (req : Request) : Prog Response :=
  try_catch
    (let page := default 1 (query_page req) in
     let limit := default 10 (query_limit req) in
     let sortBy := default (js "createdAt") (query_sortBy req) in
     let sortOrder := default (js "desc") (query_sortOrder req) in
     let query := query_of req in
     let direction := if bool_decide (sortOrder = js "desc") then -1 else 1 in
     posts ← await (Post_find query [js "username"] sortBy direction
                      (parseInt limit)
                      (js_mul (js_sub (parseInt page) (num_of_Z 1))
                         (parseInt limit)));
     total ← await (Post_countDocuments query);
     mret {| status := 200;
             json := json_posts true posts
               {| currentPage := parseInt page;
                  totalPages :=
                    Math_ceil (js_div (num_of_Z total) (ToNumber limit));
                  totalPosts := total;
                  hasNextPage :=
                    js_lt (ToNumber page)
                      (Math_ceil (js_div (num_of_Z total) (ToNumber limit)));
                  hasPrevPage := js_gt (ToNumber page) (num_of_Z 1) |} |})
    (fun error => mret (fail 500 "Error fetching posts")).

(** GET /:id *)
Definition posts_get (env : Env) (req : Request) : Prog Response :=
  try_catch
    (post ← await (Post_findById (params_id req)
                     (Some [js "username"; js "email"; js "role"]));
     match post with
     | None => mret (fail 404 "Post not found")
     | Some _ =>
         _ ← await (Post_findByIdAndUpdate (params_id req)
                      (update_inc (js "views") 1)
                      {| opt_new := false; opt_runValidators := false |}
                      None (env_now env));
         mret {| status := 200; json := json_post true None post |}
     end)
    (fun error =>
       if bool_decide (exn_name error = js "CastError")
       then mret (fail 400 "Invalid post ID")
       else mret (fail 500 "Error fetching post")).

(** The answer of the create and update handlers to a rejected call. *)
Definition validation_or (message : string) (error : exn) : Prog Response :=
  if bool_decide (exn_name error = js "ValidationError")
  then mret {| status := 400;
               json := json_errors false (js "Validation error")
                         (error_messages error) |}
  else mret (fail 500 message).

(** POST / *)
Definition posts_create (env : Env) (req : Request) : Prog Response :=
  route_auth_editorAuth req (fun user =>
    try_catch
      (let title := body_title req in
       let body := body_body req in
       let tags := body_tags req in
       let category := body_category req in
       let post :=
         new_Post (env_newId env) title body (UserDoc._id user)
           (default [] tags)
           (if truthy_opt category then category else Some (js "General")) in
       saved ← await (Post_save post (env_now env));
       doc ← await (Post_populate saved [js "username"]);
       mret {| status := 201;
               json := json_post true (Some (js "Post created successfully"))
                         (Some doc) |})
      (validation_or "Error creating post")).

(** PUT /:id *)
Definition posts_update (env : Env) (req : Request) : Prog Response :=
  route_auth_editorAuth req (fun user =>
    try_catch
      (let title := body_title req in
       let body := body_body req in
       let tags := body_tags req in
       let category := body_category req in
       post ← await (Post_findById (params_id req) None);
       match post with
       | None => mret (fail 404 "Post not found")
       | Some post =>
           if not_authorized (Post.author (post_doc post)) user
           then mret (fail 403 "Not authorized to update this post")
           else
             updatedPost ←
               await (Post_findByIdAndUpdate (params_id req)
                        (update_set title body tags category)
                        {| opt_new := true; opt_runValidators := true |}
                        (Some [js "username"]) (env_now env));
             mret {| status := 200;
                     json := json_post true
                               (Some (js "Post updated successfully"))
                               updatedPost |}
       end)
      (validation_or "Error updating post")).

(** DELETE /:id *)
Definition posts_delete (req : Request) : Prog Response :=
  route_auth_editorAuth req (fun user =>
    try_catch
      (post ← await (Post_findById (params_id req) None);
       match post with
       | None => mret (fail 404 "Post not found")
       | Some post =>
           if not_authorized (Post.author (post_doc post)) user
           then mret (fail 403 "Not authorized to delete this post")
           else
             _ ← await (Post_findByIdAndDelete (params_id req));
             mret {| status := 200;
                     json := json_message true
                               (js "Post deleted successfully") |}
       end)
      (fun error => mret (fail 500 "Error deleting post"))).

(** ** routes/comments.js *)

Definition new_Comment (oid : ObjectId) (postID : jsstring)
    (userID : ObjectId) (comment : jsstring) : CommentDraft :=
  {| cdraft_id := oid;
     cdraft_postID := postID;
     cdraft_userID := userID;
     cdraft_comment := Some (applySetters commentSchema.comment comment) |}.

(** POST / *)
Definition comments_create (env : Env) (req : Request) : Prog Response :=
  route_auth req (fun user =>
    try_catch
      (let postID := body_postID req in
       let comment := body_comment req in
       if negb (truthy_opt postID) || negb (truthy_opt comment)
       then mret (fail 400 "Post ID and comment content are required")
       else
         post ← await (Post_findById (default [] postID) None);
         match post with
         | None => mret (fail 404 "Post not found")
         | Some _ =>
             let newComment :=
               new_Comment (env_newId env) (default [] postID)
                 (UserDoc._id user) (trim (default [] comment)) in
             saved ← await (Comment_save newComment (env_now env));
             doc ← await (Comment_populate saved [js "username"]);
             mret {| status := 201;
                     json := json_comment true
                               (js "Comment added successfully")
                               (Some doc) |}
         end)
      (validation_or "Error adding comment")).

(** PUT /:id *)
Definition comments_update (env : Env) (req : Request) : Prog Response :=
  route_auth req (fun user =>
    try_catch
      (let comment := body_comment req in
       if negb (truthy_opt comment)
          || negb (truthy (trim (default [] comment)))
       then mret (fail 400 "Comment content is required")
       else
         existingComment ← await (Comment_findById (params_id req));
         match existingComment with
         | None => mret (fail 404 "Comment not found")
         | Some existingComment =>
             if not_authorized (Comment.userID existingComment) user
             then mret (fail 403 "Not authorized to update this comment")
             else
               updatedComment ←
                 await (Comment_findByIdAndUpdate (params_id req)
                          (trim (default [] comment))
                          {| opt_new := true; opt_runValidators := true |}
                          (Some [js "username"]) (env_now env));
               mret {| status := 200;
                       json := json_comment true
                                 (js "Comment updated successfully")
                                 updatedComment |}
         end)
      (fun error => mret (fail 500 "Error updating comment"))).

(** DELETE /:id *)
Definition comments_delete (req : Request) : Prog Response :=
  route_auth req (fun user =>
    try_catch
      (comment ← await (Comment_findById (params_id req));
       match comment with
       | None => mret (fail 404 "Comment not found")
       | Some comment =>
           if not_authorized (Comment.userID comment) user
           then mret (fail 403 "Not authorized to delete this comment")
           else
             _ ← await (Comment_findByIdAndDelete (params_id req));
             mret {| status := 200;
                     json := json_message true
                               (js "Comment deleted successfully") |}
       end)
      (fun error => mret (fail 500 "Error deleting comment"))).

(** ** Vocabulary of the specification *)

(** The request passes the credential verifier, which hands [user] on to
    the next handler. *)
Definition authenticated (req : Request) (st : Store) (user : UserDoc.t)
    : Prop :=
  run (auth req) st = (st, inr (inr user)).

(** The user a decoded token identity stands for, if any is stored. *)
Definition stored_user (st : Store) (id : jsstring) : option User.t :=
  oid ← castObjectId id; users st !! oid.






(** The stored post after one more view, counted at time [now]. *)
Definition viewed (now : Z) (p : Post.t) : Post.t :=
  {| Post._id := Post._id p;
     Post.title := Post.title p;
     Post.body := Post.body p;
     Post.author := Post.author p;
     Post.tags := Post.tags p;
     Post.category := Post.category p;
     Post.views := Post.views p + 1;
     Post.createdAt := Post.createdAt p;
     Post.updatedAt := now |}.

(** The one call by which a fetch counts its view. *)
Definition count_view (env : Env) (req : Request) : DbOp :=
  Post_findByIdAndUpdate (params_id req) (update_inc (js "views") 1)
    {| opt_new := false; opt_runValidators := false |} None (env_now env).

(** The post reference of a request names a stored post. *)
Definition names_post (st : Store) (ref : option jsstring) : Prop :=
  exists pid oid p,
    ref = Some pid /\ castObjectId pid = Some oid /\ posts st !! oid = Some p.

(** The rule for comments on missing posts, read for every request
    whatever else it carries. *)
Definition missing_post_always_not_found : Prop :=
  forall env req st user,
    authenticated req st user ->
    ~ names_post st (body_postID req) ->
    exists res,
      run (comments_create env req) st = (st, inr res)
      /\ status res = 404.

(** The field constraints of a post in the words of the data model: a
    title that is present and has at most 200 characters, a body of at
    least 10 characters, tags of at most 50 characters each, a category
    of the fixed list.  Title and tags are measured as stored, that is
    trimmed. *)
Definition title_fits (t : jsstring) : bool :=
  (0 <? length (trim t))%nat && (length (trim t) <=? 200)%nat.

Definition body_fits (b : jsstring) : bool := (10 <=? length b)%nat.

Definition tag_fits (t : jsstring) : bool := (length (trim t) <=? 50)%nat.

Definition category_fits (c : jsstring) : bool :=
  bool_decide (c ∈ categories).

Definition broken {A : Type} (fits : A -> bool) (v : option A) : nat :=
  match v with
  | Some x => if fits x then 0%nat else 1%nat
  | None => 0%nat
  end.

(** How many of the submitted values break their constraint, each tag
    counted on its own. *)
Definition violations (req : Request) : nat :=
  (broken title_fits (body_title req)
   + broken body_fits (body_body req)
   + length (filter (fun t => tag_fits t = false)
               (default [] (body_tags req)))
   + broken category_fits (body_category req))%nat.

(** A field after an update: the submitted value if there is one, the
    previous value otherwise. *)
Definition replaced_or_kept {A : Type} (submitted : option A)
    (before after : A) : Prop :=
  match submitted with
  | Some v => after = v
  | None => after = before
  end.

(** The stored post after the update that a request asks for. *)
Definition updated (req : Request) (now : Z) (p : Post.t) : Post.t :=
  {| Post._id := Post._id p;
     Post.title := default (Post.title p) (trim <$> body_title req);
     Post.body := default (Post.body p) (body_body req);
     Post.author := Post.author p;
     Post.tags := default (Post.tags p) (map trim <$> body_tags req);
     Post.category := default (Post.category p) (body_category req);
     Post.views := Post.views p;
     Post.createdAt := Post.createdAt p;
     Post.updatedAt := now |}.

(** The update document of PUT /:id, cast. *)
Definition update_of (req : Request) : PostUpdate :=
  castUpdate (update_set (body_title req) (body_body req) (body_tags req)
                (body_category req)).

(** The page and the page size a list request asks for, 1 and 10 when
    it asks for none. *)
Definition requested_page (req : Request) : Z := default 1 (query_page req).
Definition requested_size (req : Request) : Z :=
  default 10 (query_limit req).

(** The page size as the database reads it: the requested size, rounded
    to a double by [parseInt] and cut to a 64-bit integer.  It has the
    sign of the requested size, and is the requested size when that is at
    most 2^53 in magnitude. *)
Definition page_size (req : Request) : Z :=
  safeNumberLong (parseInt (requested_size req)).

(** The offset that a list route passes to [skip]. *)
Definition offset (req : Request) : jsnum :=
  js_mul (js_sub (parseInt (requested_page req)) (num_of_Z 1))
    (parseInt (requested_size req)).


(** [t] is [s] without its surrounding whitespace. *)
Definition trimmed_of (s t : jsstring) : Prop :=
  exists l r,
    s = l ++ t ++ r
    /\ forallb isWhiteSpace l = true
    /\ forallb isWhiteSpace r = true
    /\ (forall c, head t = Some c -> isWhiteSpace c = false)
    /\ (forall c, last t = Some c -> isWhiteSpace c = false).

(** The contract of the verifier read as three failures that can be told
    apart: no token, a token that fails verification, a token of a user
    that is not stored. *)
Definition three_failures_told_apart : Prop :=
  forall req_a req_b req_c st token_b token_c id res_a res_b res_c,
    bearer_token req_a = None ->
    bearer_token req_b = Some token_b -> token_b <> [] ->
    jwt_verify token_b = None ->
    bearer_token req_c = Some token_c -> token_c <> [] ->
    jwt_verify token_c = Some id -> stored_user st id = None ->
    run (auth req_a) st = (st, inr (inl res_a)) ->
    run (auth req_b) st = (st, inr (inl res_b)) ->
    run (auth req_c) st = (st, inr (inl res_c)) ->
    res_a <> res_b /\ res_b <> res_c /\ res_a <> res_c.

(** Requests in flight.  A handler has finished when it awaits no
    further call; otherwise its next call runs at once on the store.
    Handlers in flight share the store and advance one call at a time,
    in any order. *)
Definition finished {A : Type} (m : Prog A) : bool :=
  match m with
  | Await _ _ => false
  | _ => true
  end.

Definition next_call {A : Type} (m : Prog A) (st : Store)
    : option (Prog A * Store) :=
  match m with
  | Await op k => let '(st', r) := exec op st in Some (k r, st')
  | _ => None
  end.

Inductive interleave : relation (list (Prog Response) * Store) :=
| interleave_step pool st i m m' st' :
    pool !! i = Some m ->
    next_call m st = Some (m', st') ->
    interleave (pool, st) (<[i := m']> pool, st').

(** How many handlers of a pool have finished. *)
Definition finished_count (pool : list (Prog Response)) : Z :=
  Z.of_nat (length (filter (fun m => finished m = true) pool)).

(** The stages of a fetch of an existing post: before the lookup, before
    the increment, done. *)
Definition about_to_count (env : Env) (req : Request) (m : Prog Response)
    : Prop :=
  exists k,
    m = Await (count_view env req) k /\ forall r, finished (k r) = true.

Definition about_to_find (env : Env) (req : Request) (m : Prog Response)
    : Prop :=
  exists k,
    m = Await (Post_findById (params_id req)
                 (Some [js "username"; js "email"; js "role"])) k
    /\ forall doc, about_to_count env req (k (inr (Some doc))).

Definition fetching (env : Env) (req : Request) (m : Prog Response)
    : Prop :=
  about_to_find env req m \/ about_to_count env req m
  \/ finished m = true.

(** ** The routes of the two routers *)

Inductive route :=
| GET_posts | GET_post | POST_posts | PUT_post | DELETE_post
| POST_comments | PUT_comment | DELETE_comment.

Definition handle (r : route) (env : Env) (req : Request) : Prog Response :=
  match r with
  | GET_posts => posts_list req
  | GET_post => posts_get env req
  | POST_posts => posts_create env req
  | PUT_post => posts_update env req
  | DELETE_post => posts_delete req
  | POST_comments => comments_create env req
  | PUT_comment => comments_update env req
  | DELETE_comment => comments_delete req
  end.

(** The routes that are mounted behind [auth]. *)
Definition protected (r : route) : bool :=
  match r with
  | GET_posts | GET_post => false
  | _ => true
  end.

(** A program awaits only calls that satisfy [P], among them at most [n]
    writes, whatever the calls resolve to. *)
Fixpoint bounded {A : Type} (P : DbOp -> Prop) (n : nat) (m : Prog A)
    : Prop :=
  match m with
  | Await op k =>
      P op
      /\ (if is_write op
          then match n with
               | O => False
               | S n' => forall r, bounded P n' (k r)
               end
          else forall r, bounded P n (k r))
  | _ => True
  end.

(** The calls as the routes issue them: an increment is by 1 on [views],
    an update of fields runs the validators, a new post has a category. *)
Definition served (op : DbOp) : Prop :=
  match op with
  | Post_findByIdAndUpdate _ (update_inc path n) _ _ _ =>
      path = js "views" /\ n = 1
  | Post_findByIdAndUpdate _ (update_set _ _ _ _) o _ _ =>
      opt_runValidators o = true
  | Post_save d _ => draft_category d <> None
  | Comment_findByIdAndUpdate _ _ o _ _ => opt_runValidators o = true
  | _ => True
  end.

(** Every document is stored under its own identifier. *)
Definition keyed (st : Store) : Prop :=
  (forall k u, users st !! k = Some u -> User._id u = k)
  /\ (forall k p, posts st !! k = Some p -> Post._id p = k)
  /\ (forall k c, comments st !! k = Some c -> Comment._id c = k).

(** The routers: posts.js and comments.js. *)
Definition of_posts_router (r : route) : bool :=
  match r with
  | POST_comments | PUT_comment | DELETE_comment => false
  | _ => true
  end.

(** The collection a write call changes. *)
Definition writes_posts (op : DbOp) : bool :=
  match op with
  | Post_findByIdAndUpdate _ _ _ _ _ | Post_findByIdAndDelete _
  | Post_save _ _ => true
  | _ => false
  end.

Definition writes_comments (op : DbOp) : bool :=
  match op with
  | Comment_findByIdAndUpdate _ _ _ _ _ | Comment_findByIdAndDelete _
  | Comment_save _ _ => true
  | _ => false
  end.

(** The constraints of the schemas on stored documents. *)
Definition valid_post (p : Post.t) : Prop :=
  (0 < length (Post.title p) <= 200)%nat
  /\ (10 <= length (Post.body p))%nat
  /\ Forall (fun t => (length t <= 50)%nat) (Post.tags p)
  /\ In (Post.category p) categories.

Definition valid_comment (c : Comment.t) : Prop :=
  (0 < length (Comment.comment c) <= 1000)%nat.

Definition valid_store (st : Store) : Prop :=
  (forall k p, posts st !! k = Some p -> valid_post p)
  /\ (forall k c, comments st !! k = Some c -> valid_comment c).

(** What a request may do to a post that is stored before and after it:
    identifier, author and creation time stay, the view counter stays or
    grows by one. *)
Definition post_kept (p p' : Post.t) : Prop :=
  Post._id p' = Post._id p
  /\ Post.author p' = Post.author p
  /\ Post.createdAt p' = Post.createdAt p
  /\ (Post.views p' = Post.views p \/ Post.views p' = Post.views p + 1).

(** What a request may do to a comment that is stored before and after
    it: only its text and the time of its last update may change. *)
Definition comment_kept (c c' : Comment.t) : Prop :=
  Comment._id c' = Comment._id c
  /\ Comment.postID c' = Comment.postID c
  /\ Comment.userID c' = Comment.userID c
  /\ Comment.createdAt c' = Comment.createdAt c.

(** The calls of the routes other than the fetch of one post: no
    increment among them. *)
Definition served_without_fetch (op : DbOp) : Prop :=
  match op with
  | Post_findByIdAndUpdate _ (update_inc _ _) _ _ _ => False
  | _ => served op
  end.

(** [pat] occurs in [s]. *)
Fixpoint occurs (pat s : jsstring) : bool :=
  startsWith pat s
  || match s with
     | [] => false
     | _ :: s' => occurs pat s'
     end.

(** The category that POST / passes on: [category || 'General']. *)
Definition category_or_default (req : Request) : jsstring :=
  if truthy_opt (body_category req) then default [] (body_category req)
  else js "General".

Definition missing_or_broken {A : Type} (fits : A -> bool) (v : option A)
    : nat :=
  match v with
  | Some x => if fits x then 0%nat else 1%nat
  | None => 1%nat
  end.

(** How many constraints the fields of a creation break; a missing title
    or body breaks one. *)
Definition create_violations (req : Request) : nat :=
  (missing_or_broken title_fits (body_title req)
   + missing_or_broken body_fits (body_body req)
   + length (filter (fun t => tag_fits t = false)
               (default [] (body_tags req)))
   + (if category_fits (category_or_default req) then 0 else 1))%nat.

(** The post that a creation stores. *)
Definition created (env : Env) (req : Request) (user : UserDoc.t)
    : Post.t :=
  {| Post._id := env_newId env;
     Post.title := trim (default [] (body_title req));
     Post.body := default [] (body_body req);
     Post.author := UserDoc._id user;
     Post.tags := map trim (default [] (body_tags req));
     Post.category := category_or_default req;
     Post.views := 0;
     Post.createdAt := env_now env;
     Post.updatedAt := env_now env |}.

(** The draft that POST / builds. *)
Definition draft_of (env : Env) (req : Request) (user : UserDoc.t)
    : PostDraft :=
  new_Post (env_newId env) (body_title req) (body_body req)
    (UserDoc._id user) (default [] (body_tags req))
    (if truthy_opt (body_category req) then body_category req
     else Some (js "General")).

(** The comment that a creation stores. *)
Definition commented (env : Env) (user : UserDoc.t) (post : ObjectId)
    (text : jsstring) : Comment.t :=
  {| Comment._id := env_newId env;
     Comment.postID := post;
     Comment.userID := UserDoc._id user;
     Comment.comment := trim text;
     Comment.createdAt := env_now env;
     Comment.updatedAt := env_now env |}.

(** The same list request for another page. *)
Definition on_page (page : Z) (req : Request) : Request :=
  {| header_Authorization := header_Authorization req;
     params_id := params_id req;
     query_page := Some page;
     query_limit := query_limit req;
     query_category_param := query_category_param req;
     query_tag := query_tag req;
     query_search := query_search req;
     query_sortBy := query_sortBy req;
     query_sortOrder := query_sortOrder req;
     body_title := body_title req;
     body_body := body_body req;
     body_tags := body_tags req;
     body_category := body_category req;
     body_postID := body_postID req;
     body_comment := body_comment req |}.

(** The posts in the answer of the list route. *)
Definition listed (req : Request) (st : Store) : list PostDoc :=
  match run (posts_list req) st with
  | (_, inr {| status := _; json := json_posts _ docs _ |}) => docs
  | _ => []
  end.

(** The order in which the list route sorts the selected posts. *)
Definition sorted_selection (req : Request) (st : Store) : list Post.t :=
  sort_posts (default (js "createdAt") (query_sortBy req))
    (if bool_decide (default (js "desc") (query_sortOrder req) = js "desc")
     then -1 else 1)
    (matching (query_of req) st).


(** ** routes/comments.js: GET /post/:postId

    The route reads and answers; it takes the store and returns the
    response.  Its answer has a payload of its own. *)

(** The sort of the database by [createdAt], newest first. *)
Variable sort_comments : list Comment.t -> list Comment.t.

Record CommentPagination := {
  comments_currentPage : jsnum;
  comments_totalPages : jsnum;
  totalComments : Z
}.

Inductive CommentsJson :=
| comments_message (success : bool) (message : jsstring)
| comments_page (success : bool) (docs : list CommentDoc)
    (pagination : CommentPagination).

Record CommentsResponse := {
  comments_status : Z;
  comments_json : CommentsJson
}.

Definition comments_fail (code : Z) (message : string) : CommentsResponse :=
  {| comments_status := code;
     comments_json := comments_message false (js message) |}.

(** The comments that [{ postID: post }] selects. *)
Definition comments_on (post : ObjectId) (st : Store) : list Comment.t :=
  filter (fun c => Comment.postID c = post) (map_to_list (comments st)).*2.

(** [Comment.find({ postID }).populate('userID', paths).sort(...)
    .limit(limit).skip(skip)] *)
Definition Comment_find (postID : jsstring) (paths : list jsstring)
    (limit skip : jsnum) (st : Store) : exn + list CommentDoc :=
  match castObjectId postID with
  | None => inl CastError
  | Some oid =>
      if safeNumberLong skip <? 0 then inl MongoServerError
      else
        inr (populate_comment st (Some paths) <$>
               apply_limit limit
                 (skip_first (safeNumberLong skip)
                    (sort_comments (comments_on oid st))))
  end.

(** [Comment.countDocuments({ postID })] *)
Definition Comment_countDocuments (postID : jsstring) (st : Store)
    : exn + Z :=
  match castObjectId postID with
  | None => inl CastError
  | Some oid => inr (Z.of_nat (length (comments_on oid st)))
  end.

Definition comments_list (req : Request) (st : Store) : CommentsResponse :=
  let postId := params_id req in
  let page := default 1 (query_page req) in
  let limit := default 10 (query_limit req) in
  let answer : exn + CommentsResponse :=
    match (exec (Post_findById postId None) st).2
          return exn + CommentsResponse with
    | inl error => inl error
    | inr None => inr (comments_fail 404 "Post not found")
    | inr (Some _) =>
        match Comment_find postId [js "username"] (parseInt limit)
                (js_mul (js_sub (parseInt page) (num_of_Z 1))
                   (parseInt limit)) st with
        | inl error => inl error
        | inr docs =>
            match Comment_countDocuments postId st with
            | inl error => inl error
            | inr total =>
                inr {| comments_status := 200;
                       comments_json :=
                         comments_page true docs
                           {| comments_currentPage := parseInt page;
                              comments_totalPages :=
                                Math_ceil (js_div (num_of_Z total)
                                             (ToNumber limit));
                              totalComments := total |} |}
            end
        end
    end in
  match answer with
  | inr res => res
  | inl error =>
      if bool_decide (exn_name error = js "CastError")
      then comments_fail 400 "Invalid post ID"
      else comments_fail 500 "Error fetching comments"
  end.

(** The database sorts comments without adding or dropping one. *)
Definition sort_comments_permutes : Prop :=
  forall l, sort_comments l ≡ₚ l.

(** ** client/src/App.js: the tags field of the post editor *)

(** [s.split(sep)] for a separator of one code unit: the pieces between
    the separators, one more than there are separators. *)
Fixpoint split (sep : N) (s : jsstring) : list jsstring :=
  match s with
  | [] => [[]]
  | c :: s' =>
      if (c =? sep)%N then [] :: split sep s'
      else match split sep s' with
           | w :: ws => (c :: w) :: ws
           | [] => [[c]]
           end
  end.

(** [a.join(sep)] *)
Fixpoint join (sep : jsstring) (a : list jsstring) : jsstring :=
  match a with
  | [] => []
  | x :: a' =>
      match a' with
      | [] => x
      | _ :: _ => x ++ sep ++ join sep a'
      end
  end.

Definition comma : N := 44.

(** [post?.tags?.join(', ') || ''] : the field as the editor opens it. *)
Definition tags_field (tags : option (list jsstring)) : jsstring :=
  match tags with
  | Some a => if truthy (join (js ", ") a) then join (js ", ") a else []
  | None => []
  end.

(** [formData.tags.split(',').map(tag => tag.trim()).filter(tag => tag)] :
    the tags as the editor submits them. *)
Definition submitted_tags (field : jsstring) : list jsstring :=
  filter (fun tag => truthy tag = true) (map trim (split comma field)).

(** A tag that is not empty, has no surrounding white space and no
    comma. *)
Definition plain_tag (tag : jsstring) : Prop :=
  tag <> [] /\ trim tag = tag /\ comma ∉ tag.

(** The rule for the pagination metadata, read for every response of the
    post list: the page is the requested one and the number of pages is
    the ceiling of the number of selected posts divided by the page
    size. *)
Definition every_list_response_paged : Prop :=
  forall req st st' res ok docs pg,
    run (posts_list req) st = (st', inr res) ->
    json res = json_posts ok docs pg ->
    currentPage pg = num_of_Z (requested_page req)
    /\ exists k,
         totalPages pg = num_of_Z k
         /\ (0 < requested_size req ->
             (k - 1) * requested_size req < totalPosts pg
             <= k * requested_size req)
         /\ (hasNextPage pg = true <-> requested_page req < k)
         /\ (hasPrevPage pg = true <-> 1 < requested_page req).

(** The sign of a number, 0 for NaN. *)
Definition js_sgn (a : jsnum) : Z :=
  match a with
  | NaN => 0
  | Infinity n => if n then -1 else 1
  | Num x => Z.sgn (Qnum x)
  end.

(** A number that is zero, infinite or of magnitude at least one. *)
Definition whole (a : jsnum) : Prop :=
  match a with
  | NaN => False
  | Infinity _ => True
  | Num x => Qnum x = 0 \/ (1 <= Qabs x)%Q
  end.

(** * Properties *)

(** ** JavaScript numbers *)

Lemma pow2_pos (e : Z) : (0 < pow2 e)%Q.
Proof. apply Qpower_0_lt. reflexivity. Qed.

Lemma pow2_add (a b : Z) : (pow2 (a + b) == pow2 a * pow2 b)%Q.
Proof. apply Qpower_plus. discriminate. Qed.

Lemma pow2_Z (e : Z) : 0 <= e -> (pow2 e == inject_Z (2 ^ e))%Q.
Proof. intros He. symmetry. exact (Zpower_Qpower 2 e He). Qed.

Lemma pow2_le (a b : Z) : a <= b -> (pow2 a <= pow2 b)%Q.
Proof. intros H. apply Qpower_le_compat_l; [exact H|discriminate]. Qed.

Lemma pow2_lt_inv (a b : Z) : (pow2 a < pow2 b)%Q -> a < b.
Proof. intros H. apply (Qpower_lt_compat_l_inv 2); [exact H|reflexivity]. Qed.

Lemma pow2_le_inv (a b : Z) : (pow2 a <= pow2 b)%Q -> a <= b.
Proof. intros H. apply (Qpower_le_compat_l_inv 2); [exact H|reflexivity]. Qed.

Lemma pow2_inv (a : Z) : (pow2 a * pow2 (- a) == 1)%Q.
Proof. rewrite <- pow2_add, Z.add_opp_diag_r. reflexivity. Qed.

Lemma Qdiv_pow2 (x : Q) (e : Z) : (x / pow2 e == x * pow2 (- e))%Q.
Proof.
  unfold Qdiv, pow2. by rewrite Qpower_opp.
Qed.

Lemma ilog2_spec (a : Q) :
  (0 < a)%Q -> (pow2 (ilog2 a) <= a)%Q /\ (a < pow2 (ilog2 a + 1))%Q.
Proof.
  destruct a as [n d]. intros Ha.
  assert (Hn : 0 < n) by (unfold Qlt in Ha; cbn in Ha; lia).
  unfold ilog2. cbn [Qnum Qden].
  set (i := Z.log2 n). set (j := Z.log2 (Z.pos d)).
  destruct (Z.log2_spec n Hn) as [Hi1 Hi2]. fold i in Hi1, Hi2.
  destruct (Z.log2_spec (Z.pos d) ltac:(lia)) as [Hj1 Hj2].
  fold j in Hj1, Hj2.
  assert (Hi : 0 <= i) by apply Z.log2_nonneg.
  assert (Hj : 0 <= j) by apply Z.log2_nonneg.
  assert (Hnd : (n # d == inject_Z n / inject_Z (Z.pos d))%Q)
    by apply Qmake_Qdiv.
  assert (Hd : (0 < inject_Z (Z.pos d))%Q) by (change (inject_Z 0 < inject_Z (Z.pos d))%Q; rewrite <- Zlt_Qlt; lia).
  rewrite Zle_Qle in Hi1, Hj1. rewrite Zlt_Qlt in Hi2, Hj2.
  rewrite <- (pow2_Z i Hi) in Hi1. rewrite <- (pow2_Z j Hj) in Hj1.
  rewrite <- (pow2_Z (Z.succ i)) in Hi2 by lia.
  rewrite <- (pow2_Z (Z.succ j)) in Hj2 by lia.
  assert (Hup : (n # d < pow2 (i - j + 1))%Q).
  { rewrite Hnd. apply Qlt_shift_div_r; [exact Hd|].
    pose proof (pow2_add (i - j + 1) j) as Hx.
    replace (i - j + 1 + j) with (Z.succ i) in Hx by lia.
    pose proof (pow2_pos (i - j + 1)).
    revert Hx Hi2 Hj1 H. generalize (pow2 (i - j + 1)) (pow2 (Z.succ i))
      (pow2 j) (inject_Z n) (inject_Z (Z.pos d)).
    intros x y z N D Hx Hi2 Hj1 Hpos. rewrite Hx in Hi2. nra. }
  assert (Hlow : (pow2 (i - j - 1) <= n # d)%Q).
  { rewrite Hnd. apply Qle_shift_div_l; [exact Hd|].
    pose proof (pow2_add (i - j - 1) (Z.succ j)) as Hx.
    replace (i - j - 1 + Z.succ j) with i in Hx by lia.
    pose proof (pow2_pos (i - j - 1)).
    revert Hx Hi1 Hj2 H. generalize (pow2 (i - j - 1)) (pow2 i)
      (pow2 (Z.succ j)) (inject_Z n) (inject_Z (Z.pos d)).
    intros x y z N D Hx Hi1 Hj2 Hpos. rewrite Hx in Hi1. nra. }
  destruct (Qle_bool (pow2 (i - j)) (n # d)) eqn:Hle.
  - split; [by apply Qle_bool_iff|exact Hup].
  - split; [exact Hlow|].
    replace (i - j - 1 + 1) with (i - j) by lia.
    apply Qnot_le_lt. intros H. apply Qle_bool_iff in H. congruence.
Qed.

Lemma ilog2_ge (a : Q) (k : Z) : (pow2 k <= a)%Q -> k <= ilog2 a.
Proof.
  intros Hk.
  assert (Ha : (0 < a)%Q) by (pose proof (pow2_pos k); lra).
  destruct (ilog2_spec a Ha) as [_ Hup].
  assert (H : (pow2 k < pow2 (ilog2 a + 1))%Q) by lra.
  apply pow2_lt_inv in H. lia.
Qed.

Lemma ilog2_lt (a : Q) (k : Z) : (0 < a)%Q -> (a < pow2 k)%Q -> ilog2 a < k.
Proof.
  intros Ha Hk. destruct (ilog2_spec a Ha) as [Hlow _].
  apply pow2_lt_inv. lra.
Qed.

(** Rounding to the nearest integer *)

Lemma round_half_even_floor (x : Q) :
  Qfloor x <= round_half_even x <= Qfloor x + 1.
Proof.
  unfold round_half_even. destruct (_ ?= _)%Q; [|lia..].
  destruct (Z.even _); lia.
Qed.

Lemma round_half_even_near (x : Q) :
  (x - (1 # 2) <= inject_Z (round_half_even x))%Q
  /\ (inject_Z (round_half_even x) <= x + (1 # 2))%Q.
Proof.
  pose proof (Qfloor_le x) as Hlow. pose proof (Qlt_floor x) as Hup.
  rewrite inject_Z_plus in Hup. change (inject_Z 1) with 1%Q in Hup.
  unfold round_half_even.
  destruct (_ ?= _)%Q eqn:Hc.
  - apply Qeq_alt in Hc.
    destruct (Z.even _); rewrite ?inject_Z_plus;
      change (inject_Z 1) with 1%Q; split; lra.
  - apply Qlt_alt in Hc. split; lra.
  - apply Qgt_alt in Hc. rewrite inject_Z_plus.
    change (inject_Z 1) with 1%Q. split; lra.
Qed.

Lemma round_half_even_le (x : Q) (k : Z) :
  (x <= inject_Z k)%Q -> round_half_even x <= k.
Proof.
  intros Hx. pose proof (Qfloor_le x) as Hlow.
  unfold round_half_even.
  destruct (_ ?= _)%Q eqn:Hc.
  - apply Qeq_alt in Hc.
    assert (H : (inject_Z (Qfloor x) < inject_Z k)%Q) by lra.
    rewrite <- Zlt_Qlt in H. destruct (Z.even _); lia.
  - rewrite Zle_Qle. lra.
  - apply Qgt_alt in Hc.
    assert (H : (inject_Z (Qfloor x) < inject_Z k)%Q) by lra.
    rewrite <- Zlt_Qlt in H. lia.
Qed.

Lemma round_half_even_ge (x : Q) (k : Z) :
  (inject_Z k <= x)%Q -> k <= round_half_even x.
Proof.
  intros Hx. pose proof (round_half_even_floor x).
  pose proof (Qfloor_resp_le _ _ Hx) as H'. rewrite Qfloor_Z in H'. lia.
Qed.

Lemma round_half_even_Z (x : Q) (k : Z) :
  (x == inject_Z k)%Q -> round_half_even x = k.
Proof.
  intros Hx. apply Z.le_antisymm.
  - apply round_half_even_le. lra.
  - apply round_half_even_ge. lra.
Qed.

Lemma Qred_Z (z : Z) : Qred (inject_Z z) = inject_Z z.
Proof. apply Qcanon.Qred_identity. cbn. apply Z.gcd_1_r. Qed.

Lemma Qred_eq_Z (q : Q) (z : Z) : (q == inject_Z z)%Q -> Qred q = inject_Z z.
Proof. intros H. rewrite (Qred_complete _ _ H). apply Qred_Z. Qed.

Lemma pow2_lt (a b : Z) : a < b -> (pow2 a < pow2 b)%Q.
Proof. intros H. apply Qpower_lt_compat_l; [exact H|reflexivity]. Qed.

Lemma Qfloor_unique (x : Q) (f : Z) :
  (inject_Z f <= x)%Q -> (x < inject_Z (f + 1))%Q -> Qfloor x = f.
Proof.
  intros Hlow Hup. pose proof (Qfloor_le x). pose proof (Qlt_floor x).
  assert (H1 : (inject_Z f < inject_Z (Qfloor x + 1))%Q) by lra.
  assert (H2 : (inject_Z (Qfloor x) < inject_Z (f + 1))%Q) by lra.
  rewrite <- Zlt_Qlt in H1, H2. lia.
Qed.

Lemma Qceiling_unique (x : Q) (c : Z) :
  (inject_Z (c - 1) < x)%Q -> (x <= inject_Z c)%Q -> Qceiling x = c.
Proof.
  intros Hlow Hup. pose proof (Qle_ceiling x). pose proof (Qceiling_lt x).
  assert (H1 : (inject_Z (c - 1) < inject_Z (Qceiling x))%Q) by lra.
  assert (H2 : (inject_Z (Qceiling x - 1) < inject_Z c)%Q) by lra.
  rewrite <- Zlt_Qlt in H1, H2. lia.
Qed.

Lemma double_0 (q : Q) : (q == 0)%Q -> double q = Num 0.
Proof.
  intros Hq. unfold double.
  assert (H : Qeq_bool (Qabs q) 0 = true).
  { apply Qeq_bool_iff. by rewrite Hq. }
  by rewrite H.
Qed.

(** The pieces of a rounding. *)
Lemma double_unfold (q : Q) :
  ~ (q == 0)%Q ->
  let e := Z.max (ilog2 (Qabs q)) (-1022) - 52 in
  let r := (inject_Z (round_half_even (Qabs q / pow2 e)) * pow2 e)%Q in
  double q =
  if Qle_bool (pow2 1024) r then Infinity (negb (Qle_bool 0 q))
  else Num (Qred (if Qle_bool 0 q then r else - r)).
Proof.
  intros Hq. unfold double.
  destruct (Qeq_bool (Qabs q) 0) eqn:H; [|reflexivity].
  apply Qeq_bool_iff in H. destruct Hq.
  revert H. apply Qabs_case; intros; lra.
Qed.

Lemma Qabs_pos_lt (q : Q) : ~ (q == 0)%Q -> (0 < Qabs q)%Q.
Proof.
  intros Hq. pose proof (Qabs_nonneg q).
  destruct (Qeq_dec (Qabs q) 0) as [H0|H0]; [|lra].
  destruct Hq. revert H0. apply Qabs_case; intros; lra.
Qed.

(** A number of magnitude at least 2^k, for a normal exponent k, is
    rounded to one of magnitude at least 2^k and of the same sign, or
    overflows to the infinity of its sign. *)
Lemma double_magnitude (q : Q) (k : Z) :
  -1022 <= k -> (pow2 k <= Qabs q)%Q ->
  match double q with
  | NaN => False
  | Infinity n => n = negb (Qle_bool 0 q)
  | Num r => ((0 <= q)%Q -> (pow2 k <= r)%Q)
             /\ ((q <= 0)%Q -> (r <= - pow2 k)%Q)
  end.
Proof.
  intros Hk Hq. pose proof (pow2_pos k) as Hpos.
  assert (Hq0 : ~ (q == 0)%Q).
  { intros H. rewrite H in Hq. change (Qabs 0) with 0%Q in Hq. lra. }
  rewrite (double_unfold q Hq0). cbv zeta.
  set (a := Qabs q) in *.
  pose proof (ilog2_ge a k Hq) as HE.
  rewrite Z.max_l by lia.
  set (E := ilog2 a) in *. set (e := E - 52).
  set (n := round_half_even (a / pow2 e)).
  assert (Ha : (0 < a)%Q) by lra.
  destruct (ilog2_spec a Ha) as [Hlow _]. fold E in Hlow.
  assert (Hn : 2 ^ 52 <= n).
  { apply round_half_even_ge. rewrite Qdiv_pow2.
    rewrite <- (pow2_Z 52) by lia.
    pose proof (pow2_add E (- e)) as Hadd.
    replace (E + - e) with 52 in Hadd by (unfold e; lia).
    pose proof (pow2_pos (- e)). rewrite Hadd. nra. }
  assert (Hr : (pow2 k <= inject_Z n * pow2 e)%Q).
  { rewrite Zle_Qle in Hn. rewrite <- (pow2_Z 52) in Hn by lia.
    pose proof (pow2_add 52 e) as Hadd.
    replace (52 + e) with E in Hadd by (unfold e; lia).
    pose proof (pow2_pos e). pose proof (pow2_le k E HE).
    rewrite Hadd in *. nra. }
  destruct (Qle_bool (pow2 1024) _); [reflexivity|].
  destruct (Qle_bool 0 q) eqn:Hs.
  - apply Qle_bool_iff in Hs. rewrite Qred_correct. split; [done|].
    intros Hneg. destruct Hq0. lra.
  - assert (Hneg : (q < 0)%Q).
    { apply Qnot_le_lt. intros H. apply Qle_bool_iff in H. congruence. }
    rewrite Qred_correct. split; [intros; lra|intros; lra].
Qed.

(** Rounding returns a number whose scaled magnitude is an integer as it
    is. *)
Lemma double_exact (q : Q) (m : Z) :
  ~ (q == 0)%Q ->
  (Qabs q / pow2 (Z.max (ilog2 (Qabs q)) (-1022) - 52) == inject_Z m)%Q ->
  (Qabs q < pow2 1024)%Q ->
  double q = Num (Qred q).
Proof.
  intros Hq Hm Hbig. rewrite (double_unfold q Hq). cbv zeta.
  set (e := Z.max (ilog2 (Qabs q)) (-1022) - 52) in *.
  rewrite (round_half_even_Z _ _ Hm).
  assert (Hr : (inject_Z m * pow2 e == Qabs q)%Q).
  { rewrite <- Hm. pose proof (pow2_pos e). field. lra. }
  destruct (Qle_bool (pow2 1024) _) eqn:Hover.
  { apply Qle_bool_iff in Hover. lra. }
  f_equal. apply Qred_complete.
  destruct (Qle_bool 0 q) eqn:Hs.
  - apply Qle_bool_iff in Hs. rewrite Hr. by apply Qabs_pos.
  - assert (Hneg : (q <= 0)%Q).
    { apply Qlt_le_weak, Qnot_le_lt. intros H.
      apply Qle_bool_iff in H. congruence. }
    rewrite Hr, (Qabs_neg q Hneg). lra.
Qed.

Lemma ilog2_Z (a : Z) : 0 < a -> ilog2 (inject_Z a) = Z.log2 a.
Proof.
  intros Ha. destruct (Z.log2_spec a Ha) as [Hlow Hup].
  pose proof (Z.log2_nonneg a) as Hi.
  rewrite Zle_Qle in Hlow. rewrite Zlt_Qlt in Hup.
  rewrite <- (pow2_Z _ Hi) in Hlow.
  rewrite <- (pow2_Z (Z.succ (Z.log2 a))) in Hup by lia.
  apply Z.le_antisymm.
  - apply Z.lt_succ_r, ilog2_lt; [|exact Hup].
    change (inject_Z 0 < inject_Z a)%Q. by rewrite <- Zlt_Qlt.
  - by apply ilog2_ge.
Qed.

(** Integers up to 2^53 in magnitude are doubles. *)
Lemma double_Z (z : Z) :
  Z.abs z <= 2 ^ 53 -> double (inject_Z z) = num_of_Z z.
Proof.
  intros Hz. destruct (Z.eq_dec z 0) as [->|Hz0]; [reflexivity|].
  assert (Hq : ~ (inject_Z z == 0)%Q).
  { change 0%Q with (inject_Z 0). by rewrite inject_Z_injective. }
  assert (Habs : Qabs (inject_Z z) = inject_Z (Z.abs z)) by reflexivity.
  unfold num_of_Z.
  transitivity (Num (Qred (inject_Z z))); [|by rewrite Qred_Z].
  assert (Hi : 0 <= Z.log2 (Z.abs z) <= 53).
  { split; [apply Z.log2_nonneg|].
    change 53 with (Z.log2 (2 ^ 53)). apply Z.log2_le_mono. lia. }
  assert (Hbig : (Qabs (inject_Z z) < pow2 1024)%Q).
  { rewrite Habs. apply Qle_lt_trans with (pow2 53); [|by apply pow2_lt].
    rewrite (pow2_Z 53) by lia. by rewrite <- Zle_Qle. }
  destruct (Z.eq_dec (Z.abs z) (2 ^ 53)) as [Htop|Htop].
  - apply (double_exact _ (2 ^ 52) Hq); [|exact Hbig].
    rewrite Habs, ilog2_Z, Htop by lia. reflexivity.
  - assert (Hi' : Z.log2 (Z.abs z) <= 52).
    { apply Z.lt_succ_r, Z.log2_lt_pow2; lia. }
    apply (double_exact _ (Z.abs z * 2 ^ (52 - Z.log2 (Z.abs z))) Hq);
      [|exact Hbig].
    rewrite Habs, ilog2_Z, Z.max_l by lia.
    rewrite Qdiv_pow2, inject_Z_mult, <- (pow2_Z (52 - _)) by lia.
    by replace (- (Z.log2 (Z.abs z) - 52)) with (52 - Z.log2 (Z.abs z))
      by lia.
Qed.

(** The quotient of two integers below 2^53 and its double have the same
    floor and the same ceiling. *)
Lemma double_quotient (q : Q) (t l : Z) :
  0 < t < 2 ^ 53 -> 0 < l <= 2 ^ 53 ->
  (Qabs q == inject_Z t / inject_Z l)%Q ->
  exists r,
    double q = Num r
    /\ Qfloor r = Qfloor q
    /\ Qceiling r = Qceiling q.
Proof.
  intros Ht Hl Ha.
  assert (HL : (0 < inject_Z l)%Q).
  { change (inject_Z 0 < inject_Z l)%Q. rewrite <- Zlt_Qlt. lia. }
  assert (HT : (1 <= inject_Z t)%Q).
  { change (inject_Z 1 <= inject_Z t)%Q. rewrite <- Zle_Qle. lia. }
  assert (HaL : (Qabs q * inject_Z l == inject_Z t)%Q).
  { rewrite Ha. field. lra. }
  assert (Hpos : (0 < Qabs q)%Q).
  { rewrite Ha. apply Qlt_shift_div_l; lra. }
  assert (Hq : ~ (q == 0)%Q).
  { intros H. rewrite H in Hpos. change (Qabs 0) with 0%Q in Hpos. lra. }
  rewrite (double_unfold q Hq). cbv zeta.
  assert (Hqpos : (0 <= q)%Q -> (q == Qabs q)%Q).
  { intros H. symmetry. by apply Qabs_pos. }
  assert (Hqneg : (q <= 0)%Q -> (q == - Qabs q)%Q).
  { intros H. pose proof (Qabs_neg q H). lra. }
  set (a := Qabs q) in *. clearbody a.
  destruct (ilog2_spec a Hpos) as [Hlow Hup].
  assert (H1 : (1 <= inject_Z l)%Q).
  { change (inject_Z 1 <= inject_Z l)%Q. rewrite <- Zle_Qle. lia. }
  assert (Hat : (a <= inject_Z t)%Q).
  { assert (Hx1 : (0 <= a * (inject_Z l - 1))%Q)
      by (apply Qmult_le_0_compat; lra).
    assert (Hx2 : (a * (inject_Z l - 1) == inject_Z t - a)%Q)
      by (rewrite <- HaL; ring).
    lra. }
  (* the exponent *)
  assert (HE1 : ilog2 a <= 52).
  { apply Z.lt_succ_r, ilog2_lt; [exact Hpos|].
    rewrite (pow2_Z (Z.succ 52)) by lia.
    apply Qle_lt_trans with (inject_Z t); [exact Hat|].
    rewrite <- Zlt_Qlt. change (Z.succ 52) with 53. lia. }
  assert (HE2 : -53 <= ilog2 a).
  { apply ilog2_ge.
    assert (H53 : (inject_Z l <= inject_Z (2 ^ 53))%Q)
      by (rewrite <- Zle_Qle; lia).
    rewrite <- (pow2_Z 53) in H53 by lia.
    pose proof (pow2_inv 53) as Hinv. pose proof (pow2_pos (-53)).
    pose proof (pow2_pos 53).
    assert (Hal : (1 <= a * pow2 53)%Q).
    { assert (Hx1 : (0 <= a * (pow2 53 - inject_Z l))%Q)
        by (apply Qmult_le_0_compat; lra).
      assert (Hx2 : (a * (pow2 53 - inject_Z l)
                     == a * pow2 53 - inject_Z t)%Q)
        by (rewrite <- HaL; ring).
      lra. }
    assert (Hgoal : (pow2 (-53) * 1 <= pow2 (-53) * (a * pow2 53))%Q)
      by (apply Qmult_le_l; [done|exact Hal]).
    assert (Hid : (pow2 (-53) * (a * pow2 53) == a)%Q).
    { transitivity (a * (pow2 53 * pow2 (-53)))%Q; [ring|].
      rewrite Hinv. ring. }
    lra. }
  rewrite Z.max_l by lia.
  set (E := ilog2 a) in *. set (e := E - 52).
  set (s := 2 ^ (- e)).
  assert (Hs : (pow2 (- e) == inject_Z s)%Q)
    by (apply pow2_Z; unfold e; lia).
  assert (Hs0 : (0 < inject_Z s)%Q) by (rewrite <- Hs; apply pow2_pos).
  assert (Hse : (inject_Z s * pow2 e == 1)%Q).
  { rewrite <- Hs, Qmult_comm. apply pow2_inv. }
  (* the unit in the last place is below 2/l *)
  assert (Hgap : (inject_Z l < 2 * inject_Z s)%Q).
  { assert (H53 : (inject_Z t < inject_Z (2 ^ 53))%Q)
      by (rewrite <- Zlt_Qlt; lia).
    rewrite <- (pow2_Z 53) in H53 by lia.
    pose proof (pow2_add E (- e)) as Hadd.
    replace (E + - e) with 52 in Hadd by (unfold e; lia).
    pose proof (pow2_add 52 1) as Hadd'. change (52 + 1) with 53 in Hadd'.
    change (pow2 1) with 2%Q in Hadd'.
    rewrite Hs in Hadd. pose proof (pow2_pos E).
    rewrite Hadd' in H53. rewrite Hadd in H53. nra. }
  set (x := (a / pow2 e)%Q).
  assert (Hx : (x == a * inject_Z s)%Q).
  { unfold x. by rewrite Qdiv_pow2, Hs. }
  set (n := round_half_even x).
  destruct (round_half_even_near x) as [Hnear1 Hnear2]. fold n in Hnear1, Hnear2.
  (* the quotient and the remainder *)
  pose proof (Z.div_mod t l ltac:(lia)) as Hdiv.
  pose proof (Z.mod_pos_bound t l ltac:(lia)) as Hmod.
  set (f := t / l) in *. set (m := t mod l) in *.
  assert (Hdiv' : (inject_Z t == inject_Z l * inject_Z f + inject_Z m)%Q).
  { by rewrite <- inject_Z_mult, <- inject_Z_plus, <- Hdiv. }
  assert (Hf : 0 <= f) by (apply Z.div_pos; lia).
  assert (Hft : f <= t) by (apply Z.div_le_upper_bound; nia).
  (* the magnitude of the result lies between the same integers *)
  assert (Hmag :
    exists ra, (ra == inject_Z n * pow2 e)%Q
      /\ Qfloor ra = Qfloor a /\ Qceiling ra = Qceiling a
      /\ (0 <= ra)%Q /\ (ra <= inject_Z (2 ^ 53))%Q).
  { exists (inject_Z n * pow2 e)%Q. split; [reflexivity|].
    destruct (Z.eq_dec m 0) as [Hm0|Hm0].
    - (* the quotient is an integer *)
      rewrite Hm0 in Hdiv'. change (inject_Z 0) with 0%Q in Hdiv'.
      assert (Haf : (a == inject_Z f)%Q) by nra.
      assert (Hn : n = f * s).
      { apply round_half_even_Z. rewrite Hx, Haf. by rewrite inject_Z_mult. }
      assert (Hr : (inject_Z n * pow2 e == inject_Z f)%Q).
      { rewrite Hn, inject_Z_mult, <- Qmult_assoc, Hse. ring. }
      rewrite Hr, <- Haf.
      split; [reflexivity|]. split; [reflexivity|]. rewrite Haf.
      split.
      + change (inject_Z 0 <= inject_Z f)%Q. by rewrite <- Zle_Qle.
      + rewrite <- Zle_Qle. lia.
    - (* the quotient lies strictly between f and f + 1 *)
      assert (Hm1 : (1 <= inject_Z m)%Q).
      { change (inject_Z 1 <= inject_Z m)%Q. rewrite <- Zle_Qle. lia. }
      assert (Hm2 : (inject_Z m + 1 <= inject_Z l)%Q).
      { change 1%Q with (inject_Z 1).
        rewrite <- inject_Z_plus, <- Zle_Qle. lia. }
      assert (Haf1 : ((a - inject_Z f) * inject_Z l == inject_Z m)%Q) by nra.
      assert (Hd0 : (0 < a - inject_Z f)%Q) by nra.
      assert (Hd1 : (0 < inject_Z f + 1 - a)%Q) by nra.
      assert (Hn1 : f * s < n).
      { rewrite Zlt_Qlt, inject_Z_mult.
        assert ((1 # 2) < (a - inject_Z f) * inject_Z s)%Q by nra.
        nra. }
      assert (Hn2 : n < (f + 1) * s).
      { rewrite Zlt_Qlt, inject_Z_mult, inject_Z_plus.
        change (inject_Z 1) with 1%Q.
        assert ((1 # 2) < (inject_Z f + 1 - a) * inject_Z s)%Q by nra.
        nra. }
      assert (Hr1 : (inject_Z f < inject_Z n * pow2 e)%Q).
      { rewrite Zlt_Qlt, inject_Z_mult in Hn1. pose proof (pow2_pos e).
        nra. }
      assert (Hr2 : (inject_Z n * pow2 e < inject_Z (f + 1))%Q).
      { rewrite Zlt_Qlt, !inject_Z_mult in Hn2. pose proof (pow2_pos e).
        nra. }
      assert (Ha1 : (inject_Z f < a)%Q) by lra.
      assert (Ha2 : (a < inject_Z (f + 1))%Q).
      { rewrite inject_Z_plus. change (inject_Z 1) with 1%Q. lra. }
      rewrite (Qfloor_unique _ f), (Qfloor_unique a f) by lra.
      rewrite (Qceiling_unique _ (f + 1)), (Qceiling_unique a (f + 1));
        rewrite ?Z.add_simpl_r; try lra.
      split; [reflexivity|]. split; [reflexivity|].
      split.
      + assert (0 <= inject_Z f)%Q.
        { change (inject_Z 0 <= inject_Z f)%Q. by rewrite <- Zle_Qle. }
        lra.
      + assert (inject_Z (f + 1) <= inject_Z (2 ^ 53))%Q
          by (rewrite <- Zle_Qle; lia).
        lra. }
  destruct Hmag as (ra & Hra & Hfloor & Hceil & Hra0 & Hra53).
  destruct (Qle_bool (pow2 1024) _) eqn:Hover.
  { apply Qle_bool_iff in Hover. rewrite <- Hra in Hover.
    pose proof (pow2_lt 53 1024 ltac:(lia)) as Hlt.
    rewrite (pow2_Z 53) in Hlt by lia. lra. }
  eexists. split; [reflexivity|].
  destruct (Qle_bool 0 q) eqn:Hsign.
  - apply Qle_bool_iff in Hsign.
    rewrite Qred_correct, <- Hra, (Hqpos Hsign). by split.
  - assert (Hneg : (q <= 0)%Q).
    { apply Qlt_le_weak, Qnot_le_lt. intros H.
      apply Qle_bool_iff in H. congruence. }
    rewrite Qred_correct, <- Hra, (Hqneg Hneg). split.
    + unfold Qceiling in Hceil. lia.
    + unfold Qceiling. rewrite !Qopp_involutive. by rewrite Hfloor.
Qed.

Lemma ilog2_comp (a b : Q) : (0 < a)%Q -> (a == b)%Q -> ilog2 a = ilog2 b.
Proof.
  intros Ha Hab. assert (Hb : (0 < b)%Q) by lra.
  destruct (ilog2_spec a Ha) as [Ha1 Ha2].
  destruct (ilog2_spec b Hb) as [Hb1 Hb2].
  assert (H1 : (pow2 (ilog2 a) < pow2 (ilog2 b + 1))%Q) by lra.
  assert (H2 : (pow2 (ilog2 b) < pow2 (ilog2 a + 1))%Q) by lra.
  apply pow2_lt_inv in H1, H2. lia.
Qed.

Lemma round_half_even_comp (x y : Q) :
  (x == y)%Q -> round_half_even x = round_half_even y.
Proof.
  intros H. unfold round_half_even. rewrite (Qfloor_comp x y H).
  assert (Hc : (x - inject_Z (Qfloor y) ?= 1 # 2)%Q
               = (y - inject_Z (Qfloor y) ?= 1 # 2)%Q).
  { apply Qcompare_comp; [|reflexivity]. by apply Qplus_comp. }
  by rewrite Hc.
Qed.

Lemma Qle_bool_comp (x y x' y' : Q) :
  (x == x')%Q -> (y == y')%Q -> Qle_bool x y = Qle_bool x' y'.
Proof.
  intros Hx Hy. apply eq_true_iff_eq. rewrite !Qle_bool_iff.
  by rewrite Hx, Hy.
Qed.

Lemma double_comp (q q' : Q) : (q == q')%Q -> double q = double q'.
Proof.
  intros Hq. destruct (Qeq_dec q 0) as [H0|H0].
  { rewrite (double_0 q H0), (double_0 q'); [done|]. by rewrite <- Hq. }
  assert (H0' : ~ (q' == 0)%Q) by (by rewrite <- Hq).
  rewrite (double_unfold q H0), (double_unfold q' H0'). cbv zeta.
  assert (Ha : (Qabs q == Qabs q')%Q) by (by rewrite Hq).
  rewrite <- (ilog2_comp _ _ (Qabs_pos_lt q H0) Ha).
  set (e := Z.max (ilog2 (Qabs q)) (-1022) - 52).
  assert (Hn : round_half_even (Qabs q / pow2 e)
               = round_half_even (Qabs q' / pow2 e)).
  { apply round_half_even_comp. by rewrite Ha. }
  rewrite <- Hn. rewrite (Qle_bool_comp 0 q 0 q') by done.
  destruct (Qle_bool (pow2 1024) _); [done|].
  by destruct (Qle_bool 0 q').
Qed.

Lemma safeNumberLong_Z (z : Z) :
  safeNumberLong (num_of_Z z) = Z.max LLONG_MIN (Z.min LLONG_MAX z).
Proof. unfold safeNumberLong, num_of_Z. cbn. by rewrite Z.quot_1_r. Qed.

Lemma Qabs_ge_1 (x : Q) :
  (1 <= Qabs x)%Q ->
  (0 < Qnum x /\ Z.pos (Qden x) <= Qnum x)
  \/ (Qnum x < 0 /\ Qnum x <= - Z.pos (Qden x)).
Proof.
  destruct x as [n d]. unfold Qabs, Qle. cbn. lia.
Qed.

Lemma safeNumberLong_sgn (a : jsnum) :
  whole a -> Z.sgn (safeNumberLong a) = js_sgn a.
Proof.
  destruct a as [|[]|x]; try done. intros [H0|H1]; cbn.
  - rewrite H0. by rewrite Z.quot_0_l.
  - apply Qabs_ge_1 in H1 as [[Hpos Hle]|[Hneg Hle]].
    + assert (1 <= Qnum x ÷ Z.pos (Qden x))
        by (apply Z.quot_le_lower_bound; lia).
      unfold LLONG_MIN, LLONG_MAX. lia.
    + assert (1 <= (- Qnum x) ÷ Z.pos (Qden x))
        by (apply Z.quot_le_lower_bound; lia).
      rewrite Z.quot_opp_l in H by lia.
      unfold LLONG_MIN, LLONG_MAX. lia.
Qed.

(** Rounding keeps a number whole and keeps its sign. *)
Lemma double_whole (q : Q) :
  Qnum q = 0 \/ (1 <= Qabs q)%Q ->
  whole (double q) /\ js_sgn (double q) = Z.sgn (Qnum q).
Proof.
  intros [H0|H1].
  - assert (Hq : (q == 0)%Q) by (unfold Qeq; cbn; lia).
    rewrite (double_0 q Hq), H0. split; [by left|done].
  - pose proof (double_magnitude q 0 ltac:(lia) H1) as H.
    change (pow2 0) with 1%Q in H.
    destruct (Qabs_ge_1 q H1) as [[Hpos Hle]|[Hneg Hle]].
    + assert (Hq : (0 <= q)%Q) by (unfold Qle; cbn; lia).
      destruct (double q) as [|n|r]; [done| |].
      * rewrite H. apply Qle_bool_iff in Hq. rewrite Hq. cbn.
        split; [done|]. by destruct (Qnum q).
      * destruct H as [Hr _]. specialize (Hr Hq). split.
        -- right. rewrite Qabs_pos; lra.
        -- cbn. assert (0 < Qnum r) by (unfold Qle in Hr; cbn in Hr; lia).
           lia.
    + assert (Hq : (q <= 0)%Q) by (unfold Qle; cbn; lia).
      assert (Hq' : Qle_bool 0 q = false).
      { apply not_true_iff_false. rewrite Qle_bool_iff.
        unfold Qle. cbn. lia. }
      destruct (double q) as [|n|r]; [done| |].
      * rewrite H, Hq'. cbn. split; [done|]. lia.
      * destruct H as [_ Hr]. specialize (Hr Hq). split.
        -- right. rewrite Qabs_neg; lra.
        -- cbn. assert (Qnum r < 0) by (unfold Qle in Hr; cbn in Hr; lia).
           lia.
Qed.

Lemma parseInt_whole (z : Z) :
  whole (parseInt z) /\ js_sgn (parseInt z) = Z.sgn z.
Proof.
  apply (double_whole (inject_Z z)).
  destruct (Z.eq_dec z 0) as [->|Hz]; [by left|right].
  change (Qabs (inject_Z z)) with (inject_Z (Z.abs z)).
  change 1%Q with (inject_Z 1). rewrite <- Zle_Qle. lia.
Qed.

Lemma parseInt_Z (z : Z) : Z.abs z <= 2 ^ 53 -> parseInt z = num_of_Z z.
Proof. apply double_Z. Qed.

(** [parseInt(page) - 1] has the sign of [page - 1]. *)
Lemma parseInt_pred_whole (p : Z) :
  whole (js_sub (parseInt p) (num_of_Z 1))
  /\ js_sgn (js_sub (parseInt p) (num_of_Z 1)) = Z.sgn (p - 1).
Proof.
  destruct (Z.eq_dec p 1) as [->|H1].
  { rewrite parseInt_Z by lia. split; [by left|done]. }
  destruct (Z.eq_dec p 0) as [->|H0].
  { rewrite parseInt_Z by lia. cbn [js_sub num_of_Z].
    apply (double_whole (inject_Z 0 - inject_Z 1)). by right. }
  destruct (parseInt_whole p) as [_ Hsgn].
  assert (Hmag : (pow2 (if 0 <? p then 1 else 0)
                  <= Qabs (inject_Z p))%Q).
  { change (Qabs (inject_Z p)) with (inject_Z (Z.abs p)).
    destruct (Z.ltb_spec 0 p).
    - change (pow2 1) with (inject_Z 2). rewrite <- Zle_Qle. lia.
    - change (pow2 0) with (inject_Z 1). rewrite <- Zle_Qle. lia. }
  apply double_magnitude in Hmag; [|by destruct (0 <? p)].
  fold (parseInt p) in Hmag.
  destruct (parseInt p) as [|n|r]; [done| |].
  - cbn [js_sub num_of_Z js_sgn whole] in *. split; [done|].
    rewrite Hsgn. lia.
  - cbn [js_sub num_of_Z]. destruct Hmag as [Hpos Hneg].
    destruct (Z.ltb_spec 0 p) as [Hp|Hp].
    + assert (Hr : (2 <= r)%Q).
      { change 2%Q with (pow2 1). apply Hpos.
        change (inject_Z 0 <= inject_Z p)%Q. rewrite <- Zle_Qle. lia. }
      assert (Hq : (1 <= r - inject_Z 1)%Q)
        by (change (inject_Z 1) with 1%Q; lra).
      destruct (double_whole (r - inject_Z 1)) as [Hw Hs].
      { right. rewrite Qabs_pos; lra. }
      split; [done|]. rewrite Hs.
      assert (0 < Qnum (r - inject_Z 1))
        by (unfold Qle in Hq; cbn in Hq; cbn; lia).
      lia.
    + assert (Hr : (r <= - 1)%Q).
      { change 1%Q with (pow2 0). apply Hneg.
        change (inject_Z p <= inject_Z 0)%Q. rewrite <- Zle_Qle. lia. }
      assert (Hq : (r - inject_Z 1 <= - 1)%Q)
        by (change (inject_Z 1) with 1%Q; lra).
      destruct (double_whole (r - inject_Z 1)) as [Hw Hs].
      { right. rewrite Qabs_neg; lra. }
      split; [done|]. rewrite Hs.
      assert (Qnum (r - inject_Z 1) < 0)
        by (unfold Qle in Hq; cbn in Hq; cbn; lia).
      lia.
Qed.

Lemma Qeq_bool_0 (y : Q) : Qeq_bool y 0 = bool_decide (Qnum y = 0).
Proof.
  apply eq_true_iff_eq. rewrite Qeq_bool_iff, bool_decide_eq_true.
  unfold Qeq. cbn. lia.
Qed.

Lemma Qle_bool_0 (y : Q) : Qle_bool 0 y = bool_decide (0 <= Qnum y).
Proof.
  apply eq_true_iff_eq. rewrite Qle_bool_iff, bool_decide_eq_true.
  unfold Qle. cbn. lia.
Qed.

(** The product of two whole numbers is whole and has the product of
    their signs, or it is NaN, the product of an infinity and zero. *)
Lemma js_mul_whole (a b : jsnum) :
  whole a -> whole b ->
  (js_mul a b = NaN /\ js_sgn a * js_sgn b = 0)
  \/ (whole (js_mul a b) /\ js_sgn (js_mul a b) = js_sgn a * js_sgn b).
Proof.
  destruct a as [|n|x], b as [|m|y]; try done; intros Ha Hb.
  - right. split; [done|]. by destruct n, m.
  - cbn [js_mul js_sgn]. rewrite Qeq_bool_0, Qle_bool_0.
    case_bool_decide as H0; [left; split; [done|]; rewrite H0; cbn; lia|].
    right. split; [done|]. cbn [js_sgn].
    case_bool_decide; destruct n; cbn; lia.
  - cbn [js_mul js_sgn]. rewrite Qeq_bool_0, Qle_bool_0.
    case_bool_decide as H0; [left; split; [done|]; rewrite H0; cbn; lia|].
    right. split; [done|]. cbn [js_sgn].
    case_bool_decide; destruct m; cbn; lia.
  - right. cbn [js_mul js_sgn]. rewrite <- Z.sgn_mul.
    apply (double_whole (x * y)).
    destruct Ha as [Ha|Ha]; [left; cbn; lia|].
    destruct Hb as [Hb|Hb]; [left; cbn; lia|].
    right. rewrite Qabs_Qmult.
    assert (0 <= (Qabs x - 1) * (Qabs y - 1))%Q
      by (apply Qmult_le_0_compat; lra).
    nra.
Qed.

Lemma offset_sgn (p l : Z) :
  Z.sgn (safeNumberLong
           (js_mul (js_sub (parseInt p) (num_of_Z 1)) (parseInt l)))
  = Z.sgn ((p - 1) * l).
Proof.
  destruct (parseInt_pred_whole p) as [Hw1 Hs1].
  destruct (parseInt_whole l) as [Hw2 Hs2].
  rewrite Z.sgn_mul, <- Hs1, <- Hs2.
  destruct (js_mul_whole _ _ Hw1 Hw2) as [[-> H0]|[Hw Hs]]; [by rewrite H0|].
  by rewrite safeNumberLong_sgn.
Qed.

Lemma sent_limit_whole (a : jsnum) :
  whole a ->
  0 <= sent_limit a <= Z.abs (safeNumberLong a)
  /\ (sent_limit a = 0 <-> safeNumberLong a = 0).
Proof.
  unfold sent_limit, LLONG_MAX, LLONG_MIN.
  destruct a as [|[]|x]; [done|cbn; unfold LLONG_MAX, LLONG_MIN; lia..|].
  intros Hx. cbn [js_lt]. rewrite Qle_bool_0.
  destruct Hx as [H0|H1].
  - rewrite bool_decide_true by lia. cbn. rewrite H0, Z.quot_0_l by lia.
    unfold LLONG_MAX, LLONG_MIN. lia.
  - apply Qabs_ge_1 in H1 as [[Hpos Hle]|[Hneg Hle]].
    + rewrite bool_decide_true by lia. cbn.
      assert (1 <= Qnum x ÷ Z.pos (Qden x))
        by (apply Z.quot_le_lower_bound; lia).
      unfold LLONG_MAX, LLONG_MIN. lia.
    + rewrite bool_decide_false by lia. cbn.
      assert (1 <= (- Qnum x) ÷ Z.pos (Qden x))
        by (apply Z.quot_le_lower_bound; lia).
      rewrite Z.quot_opp_l in * by lia.
      unfold LLONG_MAX, LLONG_MIN. lia.
Qed.

(** [Math.ceil(total / limit)] for a count and a page size below 2^53 is
    the ceiling of the exact quotient. *)
Lemma Math_ceil_div_double (total limit : Z) :
  0 <= total < 2 ^ 53 -> limit <> 0 -> Z.abs limit <= 2 ^ 53 ->
  Math_ceil (js_div (num_of_Z total) (ToNumber limit))
  = num_of_Z (Qceiling (inject_Z total / inject_Z limit)).
Proof.
  intros Ht Hl0 Hl. unfold ToNumber. rewrite double_Z by done.
  cbn [js_div num_of_Z]. rewrite Qeq_bool_0. cbn [Qnum inject_Z].
  rewrite bool_decide_false by done.
  assert (HL : ~ (inject_Z limit == 0)%Q).
  { change 0%Q with (inject_Z 0). by rewrite inject_Z_injective. }
  destruct (Z.eq_dec total 0) as [->|Ht0].
  { assert (H0 : (inject_Z 0 / inject_Z limit == 0)%Q) by (by field).
    rewrite (double_0 _ H0), H0. reflexivity. }
  destruct (double_quotient (inject_Z total / inject_Z limit) total
              (Z.abs limit)) as (r & -> & _ & Hceil); [lia..| |].
  - unfold Qdiv. rewrite Qabs_Qmult, Qabs_Qinv.
    change (Qabs (inject_Z total)) with (inject_Z (Z.abs total)).
    change (Qabs (inject_Z limit)) with (inject_Z (Z.abs limit)).
    by rewrite (Z.abs_eq total) by lia.
  - cbn [Math_ceil]. by rewrite Hceil.
Qed.


(** ** Running programs *)

Lemma run_bind {A B : Type} (m : Prog A) (f : A -> Prog B) (st : Store) :
  run (m ≫= f) st =
  match run m st with
  | (st', inr a) => run (f a) st'
  | (st', inl e) => (st', inl e)
  end.
Proof.
  revert st. induction m as [a|e|op k IH]; intros st; try reflexivity.
  cbn. destruct (exec op st) as [st' r]. apply IH.
Qed.

Lemma trace_bind {A B : Type} (m : Prog A) (f : A -> Prog B) (st : Store) :
  trace (m ≫= f) st =
  trace m st ++ match run m st with
                | (st', inr a) => trace (f a) st'
                | (_, inl _) => []
                end.
Proof.
  revert st. induction m as [a|e|op k IH]; intros st; try reflexivity.
  cbn. destruct (exec op st) as [st' r]. cbn. f_equal. apply IH.
Qed.

Lemma run_try_catch {A : Type} (m : Prog A) (h : exn -> Prog A)
    (st : Store) :
  run (try_catch m h) st =
  match run m st with
  | (st', inl e) => run (h e) st'
  | (st', inr a) => (st', inr a)
  end.
Proof.
  revert st. induction m as [a|e|op k IH]; intros st; try reflexivity.
  cbn. destruct (exec op st) as [st' r]. apply IH.
Qed.

Lemma trace_try_catch {A : Type} (m : Prog A) (h : exn -> Prog A)
    (st : Store) :
  trace (try_catch m h) st =
  trace m st ++ match run m st with
                | (st', inl e) => trace (h e) st'
                | (_, inr _) => []
                end.
Proof.
  revert st. induction m as [a|e|op k IH]; intros st; try reflexivity.
  cbn. destruct (exec op st) as [st' r]. cbn. f_equal. apply IH.
Qed.

Lemma run_await (op : DbOp) (st : Store) :
  run (await op) st = exec op st.
Proof. cbn. by destruct (exec op st) as [st' [e|v]]. Qed.

Lemma trace_await (op : DbOp) (st : Store) : trace (await op) st = [op].
Proof. cbn. by destruct (exec op st) as [st' [e|v]]. Qed.

(** Unfolding a handler down to its calls on the store. *)
Ltac run_cbn :=
  cbn [run trace bind try_catch await mbind mret Prog_bind Prog_ret exec
       fst snd].

(** ** The credential verifier *)

(** The verifier reads the store and never changes it; it always answers:
    either with a response of its own or by handing a user on. *)
Lemma auth_total (req : Request) (st : Store) :
  exists r, run (auth req) st = (st, inr r).
Proof.
  unfold auth. rewrite run_try_catch.
  destruct (negb (truthy_opt _)); [by eexists|].
  rewrite run_bind.
  destruct (jwt_verify _) as [id|]; cbn; [|by eexists].
  unfold with_id. destruct (castObjectId id) as [oid|]; cbn; [|by eexists].
  destruct (users st !! oid); cbn; by eexists.
Qed.

Lemma auth_trace_reads (req : Request) (st : Store) :
  Forall (fun op => is_write op = false) (trace (auth req) st).
Proof.
  unfold auth. rewrite trace_try_catch.
  destruct (negb (truthy_opt _)); [by constructor|].
  rewrite run_bind, trace_bind.
  destruct (jwt_verify _) as [id|]; cbn; [|by constructor].
  unfold with_id. destruct (castObjectId id) as [oid|]; cbn;
    [|by repeat constructor].
  destruct (users st !! oid); cbn; by repeat constructor.
Qed.

Lemma run_route_auth (req : Request) (h : UserDoc.t -> Prog Response)
    (st : Store) :
  run (route_auth req h) st =
  match run (auth req) st with
  | (st', inr (inr user)) => run (h user) st'
  | (st', inr (inl res)) => (st', inr res)
  | (st', inl e) => (st', inl e)
  end.
Proof.
  unfold route_auth. rewrite run_bind.
  by destruct (run (auth req) st) as [st' [e|[res|user]]].
Qed.

Lemma run_route_auth_editorAuth (req : Request)
    (h : UserDoc.t -> Prog Response) (st : Store) (user : UserDoc.t) :
  authenticated req st user ->
  run (route_auth_editorAuth req h) st =
  match editorAuth user with
  | Some res => (st, inr res)
  | None => run (h user) st
  end.
Proof.
  intros Hauth. unfold route_auth_editorAuth.
  rewrite run_route_auth, Hauth. by destruct (editorAuth user).
Qed.

(** C4 (amended).  The credential verifier answers 401 in every failure
    case and leaves the store alone.  Without a token (no Authorization
    header, or nothing left of it once the prefix is removed) the message
    is "No token provided, authorization denied".  A token that fails
    verification and a token whose identity is not, or no longer, stored
    get one and the same response, "Token is not valid".  Otherwise the
    stored user is handed on with identity, username, email and role, and
    without the password credential. *)
Theorem auth_contract (req : Request) (st : Store) :
  run (auth req) st =
  (st, inr
     match bearer_token req with
     | None | Some [] =>
         inl (fail 401 "No token provided, authorization denied")
     | Some token =>
         match jwt_verify token with
         | None => inl (fail 401 "Token is not valid")
         | Some id =>
             match stored_user st id with
             | None => inl (fail 401 "Token is not valid")
             | Some u =>
                 inr {| UserDoc._id := User._id u;
                        UserDoc.username := Some (User.username u);
                        UserDoc.email := Some (User.email u);
                        UserDoc.password := None;
                        UserDoc.role := Some (User.role u) |}
             end
         end
     end).
Proof.
  unfold auth.
  destruct (bearer_token req) as [[|c token]|]; try reflexivity.
  cbn [truthy_opt truthy negb default from_option id].
  destruct (jwt_verify (c :: token)) as [id|]; [|reflexivity].
  run_cbn. unfold stored_user, with_id.
  destruct (castObjectId id) as [oid|]; [|reflexivity].
  cbn. by destruct (users st !! oid) as [u|].
Qed.

Lemma auth_refusal_401 (req : Request) (st st' : Store) (res : Response) :
  run (auth req) st = (st', inr (inl res)) -> status res = 401.
Proof.
  unfold auth.
  destruct (bearer_token req) as [[|c token]|]; try by intros [= <- <-].
  cbn [truthy_opt truthy negb default from_option id].
  destruct (jwt_verify (c :: token)) as [id|]; [|by intros [= <- <-]].
  run_cbn. unfold with_id.
  destruct (castObjectId id) as [oid|]; [|by intros [= <- <-]].
  cbn. destruct (users st !! oid) as [u|]; [done|by intros [= <- <-]].
Qed.

Lemma editorAuth_next (user : UserDoc.t) :
  editorAuth user = None <->
  UserDoc.role user = Some (js "Admin")
  \/ UserDoc.role user = Some (js "Editor").
Proof.
  unfold editorAuth, strict_neq.
  destruct (bool_decide_reflect (UserDoc.role user = Some (js "Admin")));
    destruct (bool_decide_reflect (UserDoc.role user = Some (js "Editor")));
    cbn [negb andb]; split; intros H; try discriminate; auto.
  by destruct H.
Qed.

Lemma canAuthor_iff (r : option jsstring) :
  canAuthor r = true <-> r = Some (js "Admin") \/ r = Some (js "Editor").
Proof.
  unfold canAuthor.
  match goal with |- context [editorAuth ?u] =>
    rewrite <- (editorAuth_next u); by destruct (editorAuth u) end.
Qed.

Lemma not_authorized_iff (owner : ObjectId) (user : UserDoc.t) :
  not_authorized owner user = true <->
  owner <> UserDoc._id user /\ UserDoc.role user <> Some (js "Admin").
Proof.
  unfold not_authorized, strict_neq, toString.
  destruct (bool_decide_reflect (owner = UserDoc._id user));
    destruct (bool_decide_reflect (UserDoc.role user = Some (js "Admin")));
    cbn [negb andb]; split; intros H; try discriminate; auto;
    by destruct H.
Qed.

Lemma canModify_iff (actor : ObjectId) (r : option jsstring)
    (owner : ObjectId) :
  canModify actor r owner = true <-> r = Some (js "Admin") \/ actor = owner.
Proof.
  unfold canModify. rewrite negb_true_iff, <- not_true_iff_false.
  rewrite not_authorized_iff. cbn [UserDoc._id UserDoc.role].
  destruct (decide (owner = actor)), (decide (r = Some (js "Admin")));
    intuition congruence.
Qed.

Lemma editorAuth_refusal (user : UserDoc.t) (res : Response) :
  editorAuth user = Some res ->
  res = fail 403 "Editor or Admin access required".
Proof.
  unfold editorAuth. destruct (_ && _); [|discriminate]. congruence.
Qed.




(** C2.  A user whose role is neither Admin nor Editor is refused by
    [editorAuth] on the creation, the update and the deletion of a post:
    the answer is 403 and the store is as before.  [canAuthor] is true
    exactly for the roles Admin and Editor. *)
Theorem authors_only (env : Env) (req : Request) (st : Store)
    (user : UserDoc.t) :
  authenticated req st user ->
  UserDoc.role user <> Some (js "Admin") ->
  UserDoc.role user <> Some (js "Editor") ->
  run (posts_create env req) st
    = (st, inr (fail 403 "Editor or Admin access required"))
  /\ run (posts_update env req) st
    = (st, inr (fail 403 "Editor or Admin access required"))
  /\ run (posts_delete req) st
    = (st, inr (fail 403 "Editor or Admin access required"))
  /\ status (fail 403 "Editor or Admin access required") = 403
  /\ canAuthor (UserDoc.role user) = false
  /\ (forall r,
        canAuthor r = true <->
        r = Some (js "Admin") \/ r = Some (js "Editor")).
Proof.
  intros Hauth Hadmin Heditor.
  assert (Hgate : exists res, editorAuth user = Some res).
  { destruct (editorAuth user) as [res|] eqn:He; [by eexists|].
    apply editorAuth_next in He as [?|?]; congruence. }
  destruct Hgate as [res Hres].
  pose proof (editorAuth_refusal _ _ Hres) as ->.
  unfold posts_create, posts_update, posts_delete.
  rewrite !(run_route_auth_editorAuth _ _ _ _ Hauth), Hres.
  repeat split; try apply canAuthor_iff.
  apply not_true_iff_false. rewrite canAuthor_iff. intuition.
Qed.

(** ** Fetching one post *)

Lemma posts_get_run (env : Env) (req : Request) (st : Store) :
  run (posts_get env req) st =
  match castObjectId (params_id req) with
  | None => (st, inr (fail 400 "Invalid post ID"))
  | Some oid =>
      match posts st !! oid with
      | None => (st, inr (fail 404 "Post not found"))
      | Some p =>
          (set_posts (insert oid (viewed (env_now env) p)) st,
           inr {| status := 200;
                  json :=
                    json_post true None
                      (Some (populate_post st
                               (Some [js "username"; js "email"; js "role"])
                               p)) |})
      end
  end.
Proof.
  unfold posts_get. run_cbn. unfold with_id.
  destruct (castObjectId (params_id req)) as [oid|] eqn:Hcast;
    [|reflexivity].
  cbn. destruct (posts st !! oid) as [p|] eqn:Hp; [|reflexivity].
  cbn. unfold with_id. rewrite Hcast. cbn. rewrite Hp. cbn.
  by rewrite bool_decide_eq_true_2.
Qed.

Lemma posts_get_trace (env : Env) (req : Request) (st : Store) :
  trace (posts_get env req) st =
  Post_findById (params_id req)
    (Some [js "username"; js "email"; js "role"])
  :: match castObjectId (params_id req) ≫= (posts st !!.) with
     | None => []
     | Some _ => [count_view env req]
     end.
Proof.
  unfold posts_get. run_cbn. unfold with_id.
  destruct (castObjectId (params_id req)) as [oid|] eqn:Hcast;
    [|reflexivity].
  cbn. destruct (posts st !! oid) as [p|] eqn:Hp; [|reflexivity].
  cbn. unfold with_id. rewrite Hcast. cbn. rewrite Hp. cbn.
  by rewrite bool_decide_eq_true_2.
Qed.

(** A fetch succeeds exactly on a well-formed identifier of a stored
    post. *)
Lemma posts_get_success (env : Env) (req : Request) (st st' : Store)
    (res : Response) :
  run (posts_get env req) st = (st', inr res) ->
  status res = 200 ->
  exists oid p,
    castObjectId (params_id req) = Some oid
    /\ posts st !! oid = Some p
    /\ st' = set_posts (insert oid (viewed (env_now env) p)) st
    /\ json res =
       json_post true None
         (Some (populate_post st
                  (Some [js "username"; js "email"; js "role"]) p)).
Proof.
  rewrite posts_get_run.
  destruct (castObjectId (params_id req)) as [oid|];
    [|by intros [= <- <-]].
  destruct (posts st !! oid) as [p|] eqn:Hp; [|by intros [= <- <-]].
  intros [= <- <-] _. by exists oid, p.
Qed.

(** The view counter call is an increment on whatever is stored when it
    runs: it does not carry a value that was read before. *)
Lemma count_view_exec (env : Env) (req : Request) (st : Store)
    (oid : ObjectId) (p : Post.t) :
  castObjectId (params_id req) = Some oid ->
  posts st !! oid = Some p ->
  (exec (count_view env req) st).1
  = set_posts (insert oid (viewed (env_now env) p)) st.
Proof.
  intros Hcast Hp. unfold count_view. cbn. unfold with_id.
  rewrite Hcast. cbn. rewrite Hp. cbn.
  by rewrite bool_decide_eq_true_2.
Qed.

(** C10.  The post in the response of a successful fetch is the document
    as read before the increment of that fetch: its [views] is the count
    that was stored before the request, one less than the count stored
    after it. *)
Theorem fetch_returns_old_count (env : Env) (req : Request)
    (st st' : Store) (res : Response) :
  run (posts_get env req) st = (st', inr res) ->
  status res = 200 ->
  exists oid p doc,
    castObjectId (params_id req) = Some oid
    /\ posts st !! oid = Some p
    /\ json res = json_post true None (Some doc)
    /\ Post.views (post_doc doc) = Post.views p
    /\ Post.views <$> posts st' !! oid
       = Some (Post.views (post_doc doc) + 1).
Proof.
  intros Hrun Hok.
  destruct (posts_get_success _ _ _ _ _ Hrun Hok)
    as (oid & p & Hcast & Hp & -> & Hjson).
  exists oid, p. eexists. repeat split; try done.
  cbn. by rewrite lookup_insert_eq.
Qed.

(** ** Fetches in flight *)

Lemma posts_get_about_to_find (env : Env) (req : Request) :
  about_to_find env req (posts_get env req).
Proof.
  unfold posts_get. eexists. split; [reflexivity|].
  intros doc. eexists. split; [reflexivity|].
  intros [e|v]; cbn; [|reflexivity].
  by destruct (bool_decide _).
Qed.

Lemma finished_count_insert (pool : list (Prog Response)) (i : nat)
    (m m' : Prog Response) :
  pool !! i = Some m ->
  finished_count (<[i := m']> pool)
  = finished_count pool
    - (if finished m then 1 else 0) + (if finished m' then 1 else 0).
Proof.
  intros Hi. unfold finished_count.
  rewrite insert_take_drop by (by eapply lookup_lt_Some).
  rewrite <- (take_drop_middle pool i m Hi) at 3.
  rewrite !filter_app, !filter_cons, !length_app.
  destruct (finished m), (finished m'); repeat case_decide; try done;
    cbn [length]; lia.
Qed.

Lemma finished_count_all (pool : list (Prog Response)) :
  Forall (fun m => finished m = true) pool ->
  finished_count pool = Z.of_nat (length pool).
Proof.
  unfold finished_count. induction 1 as [|m pool Hm _ IH]; [done|].
  rewrite filter_cons_True by done. cbn [length]. lia.
Qed.

Lemma finished_count_none (pool : list (Prog Response)) :
  Forall (fun m => finished m = false) pool -> finished_count pool = 0.
Proof.
  unfold finished_count. induction 1 as [|m pool Hm _ IH]; [done|].
  rewrite filter_cons_False by congruence. done.
Qed.

Lemma find_post_exec (id : jsstring) (paths : option (list jsstring))
    (st : Store) (oid : ObjectId) (q : Post.t) :
  castObjectId id = Some oid ->
  posts st !! oid = Some q ->
  exec (Post_findById id paths) st
  = (st, inr (Some (populate_post st paths q))).
Proof.
  intros Hcast Hq. cbn [exec]. unfold with_id. by rewrite Hcast, Hq.
Qed.

(** One step of a pool of fetches of the same stored post keeps every
    handler in one of the three stages, and the counter of the post at its
    first value plus the number of handlers that are done. *)
Lemma fetch_step (env : Env) (req : Request) (oid : ObjectId) (v0 : Z)
    (pool pool' : list (Prog Response)) (st st' : Store) :
  castObjectId (params_id req) = Some oid ->
  interleave (pool, st) (pool', st') ->
  Forall (fetching env req) pool ->
  (exists q, posts st !! oid = Some q
             /\ Post.views q = v0 + finished_count pool) ->
  Forall (fetching env req) pool'
  /\ (exists q', posts st' !! oid = Some q'
                 /\ Post.views q' = v0 + finished_count pool')
  /\ length pool' = length pool.
Proof.
  intros Hcast Hstep Hpool (q & Hq & Hviews).
  inversion Hstep as [? ? i m m' ? Hi Hnext]; subst.
  rewrite length_insert, (finished_count_insert _ _ _ m' Hi).
  destruct (Forall_lookup_1 _ _ _ _ Hpool Hi)
    as [(k & -> & Hk)|[(k & -> & Hk)|Hdone]].
  - unfold next_call in Hnext.
    rewrite (find_post_exec _ _ _ _ _ Hcast Hq) in Hnext.
    injection Hnext as <- <-. cbn [finished].
    destruct (Hk (populate_post st
                    (Some [js "username"; js "email"; js "role"]) q))
      as (k' & Hk' & Hfin).
    repeat split.
    + apply Forall_insert; [done|]. right; left. by exists k'.
    + exists q. rewrite Hk'. cbn [finished]. split; [done|lia].
  - unfold next_call in Hnext.
    pose proof (count_view_exec env req st oid q Hcast Hq) as Hexec.
    destruct (exec (count_view env req) st) as [st1 r].
    injection Hnext as <- <-. cbn [fst] in Hexec. subst st1.
    cbn [finished]. rewrite Hk. repeat split.
    + apply Forall_insert; [done|]. right; right. apply Hk.
    + exists (viewed (env_now env) q). cbn. rewrite lookup_insert_eq.
      split; [done|]. cbn. lia.
  - destruct m; discriminate.
Qed.

(** Any number of fetches of the same stored post, interleaved call by
    call in any order and run to their end, raise its view counter by
    exactly their number: no increment is lost. *)
Lemma concurrent_fetches_all_counted (n : nat) (env : Env)
    (req : Request) (oid : ObjectId) (p : Post.t)
    (pool' : list (Prog Response)) (st st' : Store) :
  castObjectId (params_id req) = Some oid ->
  posts st !! oid = Some p ->
  rtc interleave (replicate n (posts_get env req), st) (pool', st') ->
  Forall (fun m => finished m = true) pool' ->
  Post.views <$> posts st' !! oid = Some (Post.views p + Z.of_nat n).
Proof.
  intros Hcast Hp Hrun Hdone.
  assert (Hinv : forall y,
    rtc interleave (replicate n (posts_get env req), st) y ->
    Forall (fetching env req) y.1
    /\ (exists q, posts y.2 !! oid = Some q
                  /\ Post.views q = Post.views p + finished_count y.1)
    /\ length y.1 = n).
  { apply (rtc_ind_r (fun y =>
      Forall (fetching env req) y.1
      /\ (exists q, posts y.2 !! oid = Some q
                    /\ Post.views q = Post.views p + finished_count y.1)
      /\ length y.1 = n));
      [|intros [pool1 st1] [pool2 st2] _ Hstep IH]; cbn [fst snd] in *.
    - split; [|split].
      + apply Forall_replicate. left. apply posts_get_about_to_find.
      + exists p. split; [done|]. rewrite finished_count_none; [lia|].
        by apply Forall_replicate.
      + apply length_replicate.
    - destruct IH as (Hpool & Hcount & Hlength).
      destruct (fetch_step env req oid (Post.views p) _ _ _ _
                  Hcast Hstep Hpool Hcount) as (? & ? & Hlength').
      repeat split; [done..|congruence]. }
  destruct (Hinv _ Hrun) as (_ & (q & Hq & Hviews) & Hlength).
  cbn [fst snd] in *. rewrite Hq. cbn. rewrite Hviews.
  rewrite finished_count_all by done. by rewrite Hlength.
Qed.

(** C3.  A successful fetch of one post raises the view counter of that
    post by exactly 1 and leaves every other document as it was.  The
    handler issues one single write, the call
    [findByIdAndUpdate(id, { $inc: { views: 1 } })]; that call adds 1 to
    the counter as stored at the moment it runs, whatever the handler has
    read before.  Hence no increment is lost: any number of such fetches,
    interleaved call by call in any order, raise the counter by their
    number. *)
Theorem fetch_counts_one_view (env : Env) (req : Request) (st st' : Store)
    (res : Response) :
  run (posts_get env req) st = (st', inr res) ->
  status res = 200 ->
  exists oid p,
    castObjectId (params_id req) = Some oid
    /\ posts st !! oid = Some p
    /\ Post.views <$> posts st' !! oid = Some (Post.views p + 1)
    /\ (forall other, other <> oid -> posts st' !! other = posts st !! other)
    /\ users st' = users st
    /\ comments st' = comments st
    /\ filter (fun op => is_write op = true) (trace (posts_get env req) st)
       = [count_view env req]
    /\ (forall st2 p2,
          posts st2 !! oid = Some p2 ->
          Post.views <$> posts (exec (count_view env req) st2).1 !! oid
          = Some (Post.views p2 + 1))
    /\ (forall n pool stn,
          rtc interleave (replicate n (posts_get env req), st) (pool, stn) ->
          Forall (fun m => finished m = true) pool ->
          Post.views <$> posts stn !! oid
          = Some (Post.views p + Z.of_nat n)).
Proof.
  intros Hrun Hok.
  destruct (posts_get_success _ _ _ _ _ Hrun Hok)
    as (oid & p & Hcast & Hp & -> & _).
  exists oid, p. repeat split; try done.
  - cbn. by rewrite lookup_insert_eq.
  - intros other Hne. cbn. by rewrite lookup_insert_ne.
  - rewrite posts_get_trace, Hcast. cbn. by rewrite Hp.
  - intros st2 p2 Hp2. rewrite (count_view_exec _ _ _ _ _ Hcast Hp2).
    cbn. by rewrite lookup_insert_eq.
  - intros n pool stn. by apply concurrent_fetches_all_counted.
Qed.

(** ** Updating a post *)

Lemma apply_update_of (req : Request) (now : Z) (p : Post.t) :
  apply_update (update_of req) now p = Some (updated req now p).
Proof.
  unfold update_of, updated. cbn. unfold applySetters. cbn.
  by destruct (body_title req), (body_body req), (body_tags req),
    (body_category req).
Qed.

(** The update handler case by case, once the verifier has handed the
    user on. *)
Lemma posts_update_run (env : Env) (req : Request) (st : Store)
    (user : UserDoc.t) :
  authenticated req st user ->
  run (posts_update env req) st =
  match editorAuth user with
  | Some res => (st, inr res)
  | None =>
      match castObjectId (params_id req) with
      | None => (st, inr (fail 500 "Error updating post"))
      | Some oid =>
          match posts st !! oid with
          | None => (st, inr (fail 404 "Post not found"))
          | Some p =>
              if not_authorized (Post.author p) user
              then (st, inr (fail 403 "Not authorized to update this post"))
              else
                match validate_update (update_of req) with
                | [] =>
                    let st' :=
                      set_posts
                        (insert oid (updated req (env_now env) p)) st in
                    (st',
                     inr {| status := 200;
                            json :=
                              json_post true
                                (Some (js "Post updated successfully"))
                                (Some (populate_post st'
                                         (Some [js "username"])
                                         (updated req (env_now env) p))) |})
                | (_ :: _) as errors =>
                    (st,
                     inr {| status := 400;
                            json :=
                              json_errors false (js "Validation error")
                                (map snd errors) |})
                end
          end
      end
  end.
Proof.
  intros Hauth. unfold posts_update.
  rewrite (run_route_auth_editorAuth _ _ _ _ Hauth).
  destruct (editorAuth user) as [res|]; [reflexivity|].
  run_cbn. unfold with_id.
  destruct (castObjectId (params_id req)) as [oid|] eqn:Hcast;
    [|reflexivity].
  cbn [fmap option_fmap option_map].
  destruct (posts st !! oid) as [p|] eqn:Hp; [|reflexivity].
  cbn [fmap option_fmap option_map]. run_cbn. cbn [post_doc populate_post].
  destruct (not_authorized (Post.author p) user); [reflexivity|].
  run_cbn. unfold with_id. rewrite Hcast.
  cbn [opt_runValidators opt_new]. fold (update_of req).
  destruct (validate_update (update_of req)) as [|e errors].
  - rewrite Hp, apply_update_of. reflexivity.
  - reflexivity.
Qed.

Lemma canAuthor_editorAuth (user : UserDoc.t) :
  canAuthor (UserDoc.role user) = true <-> editorAuth user = None.
Proof. by rewrite canAuthor_iff, editorAuth_next. Qed.

Lemma canModify_not_authorized (user : UserDoc.t) (owner : ObjectId) :
  canModify (UserDoc._id user) (UserDoc.role user) owner = true <->
  not_authorized owner user = false.
Proof.
  rewrite canModify_iff, <- not_true_iff_false, not_authorized_iff.
  destruct (decide (owner = UserDoc._id user)),
    (decide (UserDoc.role user = Some (js "Admin"))); intuition congruence.
Qed.

(** *** What the validators report *)

Ltac validators :=
  unfold validate_path, postSchema.title, postSchema.body, postSchema.tags,
    postSchema.category;
  cbn [opt_validators doValidate validator_check].

Ltac compare_lengths :=
  repeat match goal with
    | |- context [(?a <? ?b)%nat] => destruct (Nat.ltb_spec a b)
    | |- context [(?a <=? ?b)%nat] => destruct (Nat.leb_spec a b)
    end;
  cbn [length andb orb] in *; try lia; try reflexivity.

Lemma validate_title_length (t : jsstring) :
  length (validate_path (js "title") postSchema.title (Some (trim t)))
  = broken title_fits (Some t).
Proof.
  validators. unfold title_fits, broken.
  destruct (trim t) as [|c t']; [reflexivity|]. cbn [truthy].
  compare_lengths.
Qed.

Lemma validate_title_blank (t : jsstring) :
  trim t = [] ->
  validate_path (js "title") postSchema.title (Some (trim t))
  = [(js "title", js "Title is required")].
Proof. intros ->. reflexivity. Qed.

Lemma validate_title_long (t : jsstring) :
  (200 < length (trim t))%nat ->
  validate_path (js "title") postSchema.title (Some (trim t))
  = [(js "title", js "Title cannot exceed 200 characters")].
Proof.
  intros H. validators.
  destruct (trim t) as [|c t']; [cbn in H; lia|]. cbn [truthy].
  compare_lengths.
Qed.

Lemma validate_body_length (b : jsstring) :
  length (validate_path (js "body") postSchema.body (Some b))
  = broken body_fits (Some b).
Proof.
  validators. unfold body_fits, broken.
  destruct b as [|c b']; [reflexivity|]. cbn [truthy].
  compare_lengths.
Qed.

Lemma validate_body_empty :
  validate_path (js "body") postSchema.body (Some [])
  = [(js "body", js "Body content is required")].
Proof. reflexivity. Qed.

Lemma validate_body_short (b : jsstring) :
  (0 < length b < 10)%nat ->
  validate_path (js "body") postSchema.body (Some b)
  = [(js "body", js "Body must be at least 10 characters long")].
Proof.
  intros H. validators.
  destruct b as [|c b']; [cbn in H; lia|]. cbn [truthy].
  compare_lengths.
Qed.

Lemma validate_category (c : jsstring) :
  validate_path (js "category") postSchema.category (Some c)
  = if category_fits c then []
    else [(js "category", enum_message (js "category") c)].
Proof.
  validators. unfold category_fits.
  by destruct (bool_decide (c ∈ categories)).
Qed.

Lemma validate_tag (path : jsstring) (t : jsstring) :
  validate_path path postSchema.tags (Some (trim t))
  = if tag_fits t then []
    else [(path, js "Tag cannot exceed 50 characters")].
Proof. validators. unfold tag_fits. compare_lengths. Qed.

Lemma validate_tags_length (ts : list jsstring) (i : nat) :
  length (validate_elements (js "tags") postSchema.tags i (map trim ts))
  = length (filter (fun t => tag_fits t = false) ts).
Proof.
  revert i. induction ts as [|t ts IH]; intros i; [reflexivity|].
  cbn [map validate_elements]. rewrite length_app, IH, validate_tag.
  rewrite filter_cons. by destruct (tag_fits t).
Qed.

Lemma validate_tags_long (ts : list jsstring) (i : nat) (t : jsstring) :
  In t ts ->
  (50 < length (trim t))%nat ->
  In (js "Tag cannot exceed 50 characters")
    (map snd
       (validate_elements (js "tags") postSchema.tags i (map trim ts))).
Proof.
  revert i. induction ts as [|t' ts IH]; intros i; [intros []|].
  intros [->|Hin] Hlong; cbn [map validate_elements];
    rewrite map_app, in_app_iff.
  - left. rewrite validate_tag. unfold tag_fits.
    rewrite (proj2 (Nat.leb_gt _ _)) by done. by left.
  - right. by apply IH.
Qed.

(** The errors of an update, path by path. *)
Lemma validate_update_of (req : Request) :
  validate_update (update_of req) =
  match body_title req with
  | Some t => validate_path (js "title") postSchema.title (Some (trim t))
  | None => []
  end
  ++ match body_body req with
     | Some b => validate_path (js "body") postSchema.body (Some b)
     | None => []
     end
  ++ match body_tags req with
     | Some ts =>
         validate_elements (js "tags") postSchema.tags 0 (map trim ts)
     | None => []
     end
  ++ match body_category req with
     | Some c => validate_path (js "category") postSchema.category (Some c)
     | None => []
     end.
Proof.
  unfold update_of. cbn.
  by destruct (body_title req), (body_body req), (body_tags req),
    (body_category req).
Qed.

Lemma validate_update_length (req : Request) :
  length (validate_update (update_of req)) = violations req.
Proof.
  rewrite validate_update_of, !length_app. unfold violations.
  destruct (body_title req) as [t|], (body_body req) as [b|],
    (body_tags req) as [ts|], (body_category req) as [c|];
    cbn [default from_option id broken length filter];
    rewrite ?validate_title_length, ?validate_body_length,
      ?validate_tags_length, ?validate_category;
    rewrite ?filter_nil;
    cbn [broken]; try destruct (category_fits c); cbn [length]; lia.
Qed.

(** C6.  An update of a stored post by a user who may author and may
    modify it, and that breaks at least one field constraint, is answered
    400 "Validation error" with a list of errors and changes nothing.  The
    list has one message for each value that breaks its constraint, not
    only for the first: as many messages as violations, and among them
    the message of every single violation. *)
Theorem update_lists_every_violation (env : Env) (req : Request)
    (st : Store) (user : UserDoc.t) (oid : ObjectId) (p : Post.t) :
  authenticated req st user ->
  canAuthor (UserDoc.role user) = true ->
  castObjectId (params_id req) = Some oid ->
  posts st !! oid = Some p ->
  canModify (UserDoc._id user) (UserDoc.role user) (Post.author p) = true ->
  (0 < violations req)%nat ->
  exists errors,
    run (posts_update env req) st
    = (st, inr {| status := 400;
                  json := json_errors false (js "Validation error")
                            errors |})
    /\ length errors = violations req
    /\ (forall t, body_title req = Some t ->
          (200 < length (trim t))%nat ->
          In (js "Title cannot exceed 200 characters") errors)
    /\ (forall t, body_title req = Some t ->
          trim t = [] ->
          In (js "Title is required") errors)
    /\ (forall b, body_body req = Some b ->
          (0 < length b < 10)%nat ->
          In (js "Body must be at least 10 characters long") errors)
    /\ (body_body req = Some [] ->
        In (js "Body content is required") errors)
    /\ (forall ts t, body_tags req = Some ts ->
          In t ts ->
          (50 < length (trim t))%nat ->
          In (js "Tag cannot exceed 50 characters") errors)
    /\ (forall c, body_category req = Some c ->
          ~ In c categories ->
          In (enum_message (js "category") c) errors).
Proof.
  intros Hauth Hgate%canAuthor_editorAuth Hcast Hp
    Hmay%canModify_not_authorized Hbad.
  rewrite (posts_update_run _ _ _ _ Hauth), Hgate, Hcast, Hp, Hmay.
  rewrite <- validate_update_length in Hbad.
  destruct (validate_update (update_of req)) as [|e errors] eqn:Herrors;
    [cbn in Hbad; lia|].
  rewrite <- Herrors. clear e errors Herrors Hbad.
  eexists. split; [reflexivity|].
  split; [by rewrite length_map, validate_update_length|].
  rewrite validate_update_of, !map_app.
  repeat split.
  - intros t -> Hlong. rewrite validate_title_long by done.
    rewrite !in_app_iff. left. by left.
  - intros t -> Hblank. rewrite validate_title_blank by done.
    rewrite !in_app_iff. left. by left.
  - intros b -> Hshort. rewrite validate_body_short by done.
    rewrite !in_app_iff. right; left. by left.
  - intros ->. rewrite validate_body_empty.
    rewrite !in_app_iff. right; left. by left.
  - intros ts t -> Hin Hlong.
    rewrite !in_app_iff. right; right; left.
    by apply validate_tags_long with t.
  - intros c -> Hc. rewrite validate_category. unfold category_fits.
    rewrite bool_decide_eq_false_2 by (by rewrite list_elem_of_In).
    rewrite !in_app_iff. right; right; right. by left.
Qed.

(** C7.  A successful update of a post rewrites that one document and
    nothing else.  Of its fields, title, body, tags and category take the
    submitted value (title and tags trimmed) when the request has one and
    keep their previous value when it has none; identifier, author, view
    counter and creation time are as before; the time of last update is
    set to the time of the request. *)
Theorem update_frame (env : Env) (req : Request) (st st' : Store)
    (res : Response) :
  run (posts_update env req) st = (st', inr res) ->
  status res = 200 ->
  exists oid p p',
    castObjectId (params_id req) = Some oid
    /\ posts st !! oid = Some p
    /\ posts st' = <[oid := p']> (posts st)
    /\ users st' = users st
    /\ comments st' = comments st
    /\ replaced_or_kept (trim <$> body_title req) (Post.title p)
         (Post.title p')
    /\ replaced_or_kept (body_body req) (Post.body p) (Post.body p')
    /\ replaced_or_kept (map trim <$> body_tags req) (Post.tags p)
         (Post.tags p')
    /\ replaced_or_kept (body_category req) (Post.category p)
         (Post.category p')
    /\ Post._id p' = Post._id p
    /\ Post.author p' = Post.author p
    /\ Post.views p' = Post.views p
    /\ Post.createdAt p' = Post.createdAt p
    /\ Post.updatedAt p' = env_now env.
Proof.
  intros Hrun Hok.
  destruct (auth_total req st) as [[res0|user] Hauth].
  { unfold posts_update, route_auth_editorAuth in Hrun.
    rewrite run_route_auth, Hauth in Hrun. injection Hrun as <- <-.
    apply auth_refusal_401 in Hauth. congruence. }
  rewrite (posts_update_run _ _ _ _ Hauth) in Hrun.
  destruct (editorAuth user) as [res1|] eqn:Hgate.
  { injection Hrun as <- <-. by apply editorAuth_refusal in Hgate as ->. }
  destruct (castObjectId (params_id req)) as [oid|];
    [|by injection Hrun as <- <-].
  destruct (posts st !! oid) as [p|] eqn:Hp; [|by injection Hrun as <- <-].
  destruct (not_authorized _ _); [by injection Hrun as <- <-|].
  destruct (validate_update _); [|by injection Hrun as <- <-].
  injection Hrun as <- <-.
  exists oid, p, (updated req (env_now env) p).
  repeat split; try done; unfold replaced_or_kept, updated; cbn.
  - by destruct (body_title req).
  - by destruct (body_body req).
  - by destruct (body_tags req).
  - by destruct (body_category req).
Qed.

(** ** Creating a post *)

Lemma trimStart_split (s : jsstring) :
  exists l, s = l ++ trimStart s /\ forallb isWhiteSpace l = true.
Proof.
  induction s as [|c s (l & Hs & Hl)]; [by exists []|].
  cbn [trimStart]. destruct (isWhiteSpace c) eqn:Hc; [|by exists []].
  exists (c :: l). cbn. rewrite Hc, Hl. by rewrite Hs at 1.
Qed.

Lemma trimStart_head (s : jsstring) (c : N) :
  head (trimStart s) = Some c -> isWhiteSpace c = false.
Proof.
  induction s as [|c' s IH]; [done|]. cbn [trimStart].
  destruct (isWhiteSpace c') eqn:Hc; [done|]. by intros [= <-].
Qed.

Lemma last_rev (l : jsstring) : last (rev l) = head l.
Proof. destruct l as [|c l]; [done|]. cbn [rev]. by rewrite last_snoc. Qed.

Lemma forallb_rev (f : N -> bool) (l : jsstring) :
  forallb f l = true -> forallb f (rev l) = true.
Proof.
  rewrite !forallb_forall. intros H x Hx. apply H. by apply in_rev.
Qed.

Lemma trim_trimmed_of (s : jsstring) : trimmed_of s (trim s).
Proof.
  unfold trim, trimEnd.
  destruct (trimStart_split s) as (l & Hs & Hl).
  destruct (trimStart_split (rev (trimStart s))) as (r & Hr & Hwr).
  apply (f_equal (@rev N)) in Hr. rewrite rev_involutive, rev_app_distr in Hr.
  exists l, (rev r). repeat split.
  - by rewrite <- Hr.
  - done.
  - by apply forallb_rev.
  - intros c Hc. apply (trimStart_head s).
    rewrite Hr. by destruct (rev (trimStart (rev (trimStart s)))).
  - intros c. rewrite last_rev. apply trimStart_head.
Qed.

(** The create handler case by case, once the verifier has handed the
    user on. *)
Lemma posts_create_run (env : Env) (req : Request) (st : Store)
    (user : UserDoc.t) :
  authenticated req st user ->
  run (posts_create env req) st =
  match editorAuth user with
  | Some res => (st, inr res)
  | None =>
      let d :=
        new_Post (env_newId env) (body_title req) (body_body req)
          (UserDoc._id user) (default [] (body_tags req))
          (if truthy_opt (body_category req) then body_category req
           else Some (js "General")) in
      match validate_post d with
      | [] =>
          match posts st !! env_newId env with
          | Some _ => (st, inr (fail 500 "Error creating post"))
          | None =>
              let p := post_of_draft d (env_now env) in
              let st' := set_posts (insert (env_newId env) p) st in
              (st',
               inr {| status := 201;
                      json :=
                        json_post true
                          (Some (js "Post created successfully"))
                          (Some (populate_post st' (Some [js "username"])
                                   p)) |})
          end
      | (_ :: _) as errors =>
          (st,
           inr {| status := 400;
                  json := json_errors false (js "Validation error")
                            (map snd errors) |})
      end
  end.
Proof.
  intros Hauth. unfold posts_create.
  rewrite (run_route_auth_editorAuth _ _ _ _ Hauth).
  destruct (editorAuth user) as [res|]; [reflexivity|].
  run_cbn. cbv zeta.
  destruct (validate_post _) as [|e errors]; [|reflexivity].
  cbn [draft_id new_Post].
  by destruct (posts st !! env_newId env).
Qed.

(** C9.  Round trip of the tags: after a successful creation of a post
    with a list of tags, the fetch of that post returns one tag for each
    submitted tag, in the order of submission, repeated tags included;
    each returned tag is the submitted one without its surrounding
    whitespace. *)
Theorem tags_round_trip (env env' : Env) (req req' : Request)
    (st st1 : Store) (res1 : Response) :
  run (posts_create env req) st = (st1, inr res1) ->
  status res1 = 201 ->
  castObjectId (params_id req') = Some (env_newId env) ->
  exists st2 doc,
    run (posts_get env' req') st1
    = (st2, inr {| status := 200; json := json_post true None (Some doc) |})
    /\ Post.tags (post_doc doc) = map trim (default [] (body_tags req))
    /\ Forall2 trimmed_of (default [] (body_tags req))
         (Post.tags (post_doc doc)).
Proof.
  intros Hrun Hok Hid.
  destruct (auth_total req st) as [[res0|user] Hauth].
  { unfold posts_create, route_auth_editorAuth in Hrun.
    rewrite run_route_auth, Hauth in Hrun. injection Hrun as <- <-.
    apply auth_refusal_401 in Hauth. congruence. }
  rewrite (posts_create_run _ _ _ _ Hauth) in Hrun. cbv zeta in Hrun.
  destruct (editorAuth user) as [res|] eqn:Hgate.
  { injection Hrun as <- <-. by apply editorAuth_refusal in Hgate as ->. }
  destruct (validate_post _); [|by injection Hrun as <- <-].
  destruct (posts st !! env_newId env); [by injection Hrun as <- <-|].
  injection Hrun as <- <-.
  rewrite posts_get_run, Hid. cbn [posts set_posts].
  rewrite lookup_insert_eq. do 2 eexists. split; [reflexivity|].
  cbn [post_doc populate_post Post.tags post_of_draft draft_tags new_Post].
  unfold applySetters. cbn [opt_trim postSchema.tags].
  split; [reflexivity|].
  apply Forall2_fmap_r, Forall_Forall2_diag, Forall_forall.
  intros t _. apply trim_trimmed_of.
Qed.

(** ** Listing posts *)

Lemma Qceiling_div_pos (total : Z) (p : positive) :
  (Qceiling (inject_Z total / inject_Z (Zpos p)) - 1) * Zpos p < total
  /\ total <= Qceiling (inject_Z total / inject_Z (Zpos p)) * Zpos p.
Proof.
  unfold Qceiling, Qfloor, Qdiv, Qinv, Qmult, Qopp, inject_Z.
  cbn [Qnum Qden]. rewrite Z.mul_1_r, Pos.mul_1_l.
  pose proof (Z.div_mod (- total) (Zpos p) ltac:(lia)).
  pose proof (Z.mod_pos_bound (- total) (Zpos p) ltac:(lia)).
  nia.
Qed.

Lemma Qceiling_div_neg (total : Z) (p : positive) :
  Qceiling (inject_Z total / inject_Z (Zneg p)) * Zneg p <= total
  /\ total < (Qceiling (inject_Z total / inject_Z (Zneg p)) - 1) * Zneg p.
Proof.
  unfold Qceiling, Qfloor, Qdiv, Qinv, Qmult, Qopp, inject_Z.
  cbn [Qnum Qden]. rewrite Pos.mul_1_l.
  pose proof (Z.div_mod (- (total * -1)) (Zpos p) ltac:(lia)).
  pose proof (Z.mod_pos_bound (- (total * -1)) (Zpos p) ltac:(lia)).
  nia.
Qed.

(** [Math.ceil(total / limit)] for a count below 2^53 and a page size
    that is not zero and at most 2^53 in magnitude is the ceiling of the
    quotient. *)
Lemma Math_ceil_div (total limit : Z) :
  0 <= total < 2 ^ 53 -> limit <> 0 -> Z.abs limit <= 2 ^ 53 ->
  exists k,
    Math_ceil (js_div (num_of_Z total) (ToNumber limit)) = num_of_Z k
    /\ (0 < limit -> (k - 1) * limit < total <= k * limit)
    /\ (limit < 0 -> k * limit <= total < (k - 1) * limit).
Proof.
  intros Htotal Hlimit Hsafe.
  rewrite (Math_ceil_div_double _ _ Htotal Hlimit Hsafe).
  eexists. split; [reflexivity|].
  destruct limit as [|p|p]; [done| |].
  - split; [intros _; apply Qceiling_div_pos|lia].
  - split; [lia|intros _; apply Qceiling_div_neg].
Qed.





Lemma skip_first_drop {A : Type} (n : Z) (l : list A) :
  skip_first n l = drop (Z.to_nat n) l.
Proof.
  revert n. induction l as [|x l IH]; intros n; [by rewrite drop_nil|].
  cbn [skip_first]. destruct (Z.leb_spec n 0) as [Hn|Hn].
  - by replace (Z.to_nat n) with 0%nat by lia.
  - rewrite IH. replace (Z.to_nat n) with (S (Z.to_nat (n - 1))) by lia.
    reflexivity.
Qed.

Lemma keep_first_take {A : Type} (n : Z) (l : list A) :
  keep_first n l = take (Z.to_nat n) l.
Proof.
  revert n. induction l as [|x l IH]; intros n; [by rewrite take_nil|].
  cbn [keep_first]. destruct (Z.leb_spec n 0) as [Hn|Hn].
  - by replace (Z.to_nat n) with 0%nat by lia.
  - rewrite IH. replace (Z.to_nat n) with (S (Z.to_nat (n - 1))) by lia.
    reflexivity.
Qed.

Lemma apply_limit_take {A : Type} (limit : jsnum) (l : list A) :
  apply_limit limit l
  = if sent_limit limit =? 0 then l
    else take (Z.to_nat (sent_limit limit)) l.
Proof. unfold apply_limit. by rewrite keep_first_take. Qed.

(** The page size that reaches the database and the one that the
    request asks for. *)
Lemma page_size_sgn (req : Request) :
  Z.sgn (page_size req) = Z.sgn (requested_size req).
Proof.
  unfold page_size. destruct (parseInt_whole (requested_size req)) as [Hw <-].
  by apply safeNumberLong_sgn.
Qed.

Lemma page_size_safe (req : Request) :
  Z.abs (requested_size req) <= 2 ^ 53 ->
  page_size req = requested_size req.
Proof.
  intros Hsafe. unfold page_size. rewrite parseInt_Z by done.
  rewrite safeNumberLong_Z. unfold LLONG_MIN, LLONG_MAX. lia.
Qed.

Lemma sent_limit_page_size (req : Request) :
  0 <= sent_limit (parseInt (requested_size req)) <= Z.abs (page_size req)
  /\ (sent_limit (parseInt (requested_size req)) = 0 <-> page_size req = 0).
Proof.
  apply sent_limit_whole, parseInt_whole.
Qed.

(** The offset that reaches the database is negative exactly when the
    product of the page before the requested one and the page size is. *)
Lemma offset_negative (req : Request) :
  (safeNumberLong (offset req) <? 0)
  = ((requested_page req - 1) * page_size req <? 0).
Proof.
  pose proof (offset_sgn (requested_page req) (requested_size req)) as H.
  fold (offset req) in H.
  pose proof (page_size_sgn req) as Hsize.
  rewrite Z.sgn_mul, <- Hsize, <- Z.sgn_mul in H.
  destruct (Z.ltb_spec (safeNumberLong (offset req)) 0),
    (Z.ltb_spec ((requested_page req - 1) * page_size req) 0); lia.
Qed.


Lemma posts_list_run (req : Request) (st : Store) :
  run (posts_list req) st =
  let total := Z.of_nat (length (matching (query_of req) st)) in
  let pages :=
    Math_ceil (js_div (num_of_Z total) (ToNumber (requested_size req))) in
  if (requested_page req - 1) * page_size req <? 0
  then (st, inr (fail 500 "Error fetching posts"))
  else
    (st,
     inr {| status := 200;
            json :=
              json_posts true
                (populate_post st (Some [js "username"]) <$>
                   apply_limit (parseInt (requested_size req))
                     (drop (Z.to_nat (safeNumberLong (offset req)))
                        (sorted_selection req st)))
                {| currentPage := parseInt (requested_page req);
                   totalPages := pages;
                   totalPosts := total;
                   hasNextPage :=
                     js_lt (ToNumber (requested_page req)) pages;
                   hasPrevPage :=
                     js_gt (ToNumber (requested_page req)) (num_of_Z 1) |}
         |}).
Proof.
  rewrite <- offset_negative, <- skip_first_drop.
  unfold posts_list, sorted_selection, offset, requested_page,
    requested_size.
  run_cbn. by destruct (_ <? 0).
Qed.


(** ** Comments *)

(** C5 (amended).  When the post reference of a comment creation names no
    stored post, no comment is created: the request is answered with an
    error and the store is as before.  The error is 400 "Post ID and
    comment content are required" when the reference or the text is
    missing or empty, whatever the other is; 404 "Post not found" when the
    request carries a text and a well-formed post identifier; and 500
    "Error adding comment" when it carries a text and a malformed
    identifier. *)
Theorem comment_on_missing_post (env : Env) (req : Request) (st : Store)
    (user : UserDoc.t) :
  authenticated req st user ->
  ~ names_post st (body_postID req) ->
  exists res,
    run (comments_create env req) st = (st, inr res)
    /\ status res <> 201
    /\ (forall pid oid,
          body_postID req = Some pid ->
          pid <> [] ->
          castObjectId pid = Some oid ->
          truthy_opt (body_comment req) = true ->
          res = fail 404 "Post not found")
    /\ (truthy_opt (body_postID req) = false
        \/ truthy_opt (body_comment req) = false ->
        res = fail 400 "Post ID and comment content are required")
    /\ (forall pid,
          body_postID req = Some pid ->
          pid <> [] ->
          castObjectId pid = None ->
          truthy_opt (body_comment req) = true ->
          res = fail 500 "Error adding comment").
Proof.
  intros Hauth Hmissing. unfold comments_create.
  rewrite run_route_auth, Hauth.
  destruct (body_postID req) as [[|c pid]|] eqn:Href;
    try (eexists; split; [reflexivity|]; split; [done|];
         split; [intros ?? [= <-]; done|];
         split; [done|intros ? [= <-]; done]).
  destruct (truthy_opt (body_comment req)) eqn:Htext.
  2:{ eexists; split; [reflexivity|]. split; [done|].
      split; [done|]. split; [done|]. done. }
  cbn [truthy_opt truthy negb orb default from_option id].
  run_cbn. unfold with_id.
  destruct (castObjectId (c :: pid)) as [oid|] eqn:Hcast.
  - destruct (posts st !! oid) as [p|] eqn:Hp.
    { destruct Hmissing. by exists (c :: pid), oid, p. }
    cbn. eexists; split; [reflexivity|]. split; [done|].
    split; [done|]. split; [by intros [?|?]|].
    intros ? [= <-] _. by rewrite Hcast.
  - cbn. eexists; split; [reflexivity|]. split; [done|].
    split; [intros ?? [= <-] _; by rewrite Hcast|].
    split; [by intros [?|?]|]. done.
Qed.

(** * Further properties of the handlers *)

(** ** What one request can do to the store *)

Lemma bounded_weaken {A : Type} (P : DbOp -> Prop) (n n' : nat)
    (m : Prog A) :
  (n <= n')%nat -> bounded P n m -> bounded P n' m.
Proof.
  revert n n'. induction m as [a|e|op k IH]; intros n n' Hle; [done..|].
  cbn [bounded]. intros [Hop Hk]. split; [done|].
  destruct (is_write op).
  - destruct n as [|n]; [done|]. destruct n' as [|n']; [lia|].
    intros r. apply (IH r n); [lia|apply Hk].
  - intros r. by apply (IH r n).
Qed.

Lemma bounded_bind {A B : Type} (P : DbOp -> Prop) (n n' : nat)
    (m : Prog A) (f : A -> Prog B) :
  bounded P n m -> (forall a, bounded P n' (f a)) ->
  bounded P (n + n') (m ≫= f).
Proof.
  intros Hm Hf. revert n Hm.
  induction m as [a|e|op k IH]; intros n Hm.
  - apply (bounded_weaken P n'); [lia|apply Hf].
  - done.
  - destruct Hm as [Hop Hk]. change (bounded P (n + n') (Await op
      (fun r => k r ≫= f))). cbn [bounded]. split; [done|].
    destruct (is_write op).
    + destruct n as [|n]; [done|]. intros r. apply IH, Hk.
    + intros r. apply IH, Hk.
Qed.

Lemma bounded_try_catch {A : Type} (P : DbOp -> Prop) (n n' : nat)
    (m : Prog A) (h : exn -> Prog A) :
  bounded P n m -> (forall e, bounded P n' (h e)) ->
  bounded P (n + n') (try_catch m h).
Proof.
  intros Hm Hh. revert n Hm.
  induction m as [a|e|op k IH]; intros n Hm.
  - done.
  - apply (bounded_weaken P n'); [lia|apply Hh].
  - destruct Hm as [Hop Hk]. cbn [try_catch bounded]. split; [done|].
    destruct (is_write op).
    + destruct n as [|n]; [done|]. intros r. apply IH, Hk.
    + intros r. apply IH, Hk.
Qed.

Lemma read_keeps_store (op : DbOp) (st : Store) :
  is_write op = false -> (exec op st).1 = st.
Proof.
  destruct op; try discriminate; intros _; cbn [exec]; unfold with_id;
    try done; try by destruct (castObjectId _).
  by destruct (_ <? 0).
Qed.

Lemma bounded_zero_run {A : Type} (P : DbOp -> Prop) (m : Prog A)
    (st : Store) :
  bounded P 0 m -> (run m st).1 = st.
Proof.
  revert st. induction m as [a|e|op k IH]; intros st; [done..|].
  intros [_ Hk]. cbn [run].
  destruct (is_write op) eqn:Hw; [done|].
  pose proof (read_keeps_store op st Hw) as Hst.
  destruct (exec op st) as [st' r]. cbn [fst] in Hst. subst st'.
  apply IH, Hk.
Qed.

(** A program with at most one write leaves the store as it was, or as
    that one write leaves it. *)
Lemma bounded_one_run {A : Type} (P : DbOp -> Prop) (m : Prog A)
    (st : Store) :
  bounded P 1 m ->
  (run m st).1 = st
  \/ exists w, P w /\ is_write w = true /\ (run m st).1 = (exec w st).1.
Proof.
  revert st. induction m as [a|e|op k IH]; intros st; [by left..|].
  intros [Hop Hk]. cbn [run].
  destruct (is_write op) eqn:Hw.
  - right. exists op. repeat split; [done..|].
    destruct (exec op st) as [st' r]. cbn [fst].
    by apply (bounded_zero_run P).
  - pose proof (read_keeps_store op st Hw) as Hst.
    destruct (exec op st) as [st' r]. cbn [fst] in Hst. subst st'.
    apply IH, Hk.
Qed.

Lemma bounded_trace {A : Type} (P : DbOp -> Prop) (n : nat) (m : Prog A)
    (st : Store) :
  bounded P n m ->
  Forall P (trace m st)
  /\ (length (filter (fun op => is_write op = true) (trace m st)) <= n)%nat.
Proof.
  revert n st. induction m as [a|e|op k IH]; intros n st;
    [by split; [constructor|cbn; lia]..|].
  intros [Hop Hk]. cbn [trace].
  destruct (exec op st) as [st' r].
  destruct (is_write op) eqn:Hw.
  - destruct n as [|n]; [done|].
    destruct (IH r n st' (Hk r)) as [Hall Hlen].
    split; [by constructor|].
    rewrite filter_cons_True by done. cbn [length]. lia.
  - destruct (IH r n st' (Hk r)) as [Hall Hlen].
    split; [by constructor|].
    by rewrite filter_cons_False by congruence.
Qed.

Ltac bounded_steps :=
  repeat first
    [ progress cbn [bounded try_catch bind await mbind mret Prog_bind
                    Prog_ret is_write served served_without_fetch
                    draft_category new_Post opt_default
                    postSchema.category]
    | done
    | match goal with |- _ <> None => by repeat case_match end
    | split
    | intros [?|?]
    | intro
    | match goal with
      | |- context [match ?x with _ => _ end] => destruct x
      end ].

Lemma auth_bounded (req : Request) : bounded served 0 (auth req).
Proof. unfold auth. bounded_steps. Qed.

Lemma route_auth_bounded (req : Request)
    (h : UserDoc.t -> Prog Response) (n : nat) :
  (forall user, bounded served n (h user)) ->
  bounded served n (route_auth req h).
Proof.
  intros Hh. unfold route_auth.
  apply (bounded_bind served 0 n); [apply auth_bounded|].
  by intros [res|user].
Qed.

Lemma route_auth_editorAuth_bounded (req : Request)
    (h : UserDoc.t -> Prog Response) (n : nat) :
  (forall user, bounded served n (h user)) ->
  bounded served n (route_auth_editorAuth req h).
Proof.
  intros Hh. unfold route_auth_editorAuth. apply route_auth_bounded.
  intros user. by destruct (editorAuth user).
Qed.

(** Every route awaits only calls of the kinds in [served], and at most
    one write among them. *)
Lemma routes_bounded (r : route) (env : Env) (req : Request) :
  bounded served 1 (handle r env req).
Proof.
  destruct r; cbn [handle];
    unfold posts_list, posts_get, posts_create, posts_update, posts_delete,
      comments_create, comments_update, comments_delete, validation_or;
    try apply route_auth_editorAuth_bounded;
    try apply route_auth_bounded; bounded_steps.
Qed.

(** A property of stores that every call of a program keeps is kept by
    the program. *)
Lemma bounded_invariant {A : Type} (P : DbOp -> Prop) (n : nat)
    (m : Prog A) (I : Store -> Prop) (st : Store) :
  bounded P n m ->
  (forall op st, P op -> I st -> I (exec op st).1) ->
  I st -> I (run m st).1.
Proof.
  intros Hm Hexec. revert n st Hm.
  induction m as [a|e|op k IH]; intros n st Hm Hst; [done..|].
  destruct Hm as [Hop Hk]. cbn [run].
  pose proof (Hexec op st Hop Hst) as Hst'.
  destruct (exec op st) as [st' r]. cbn [fst] in Hst'.
  destruct (is_write op).
  - destruct n as [|n]; [done|]. by apply (IH r n).
  - by apply (IH r n).
Qed.

Lemma bounded_impl {A : Type} (P Q : DbOp -> Prop) (n : nat) (m : Prog A) :
  (forall op, P op -> Q op) -> bounded P n m -> bounded Q n m.
Proof.
  intros HPQ. revert n. induction m as [a|e|op k IH]; intros n; [done..|].
  cbn [bounded]. intros [Hop Hk]. split; [by apply HPQ|].
  destruct (is_write op).
  - destruct n as [|n]; [done|]. intros r. apply IH, Hk.
  - intros r. apply IH, Hk.
Qed.

(** X1.  One request issues at most one write call, and the list of posts
    none: no route leaves the store between two writes of its own.  The
    calls are of the kinds in [served]: the only increment is by 1 on
    [views], every update of fields runs the validators and every new
    post has a category. *)
Theorem one_write_per_request (r : route) (env : Env) (req : Request)
    (st : Store) :
  (length (filter (fun op => is_write op = true)
             (trace (handle r env req) st)) <= 1)%nat
  /\ Forall served (trace (handle r env req) st)
  /\ (r = GET_posts ->
      filter (fun op => is_write op = true) (trace (handle r env req) st)
      = []
      /\ (run (handle r env req) st).1 = st).
Proof.
  destruct (bounded_trace served 1 (handle r env req) st
              (routes_bounded r env req)) as [Hserved Hlength].
  split; [done|]. split; [done|]. intros ->. cbn [handle]. split.
  - assert (Hzero : bounded served 0 (posts_list req))
      by (unfold posts_list; bounded_steps).
    destruct (bounded_trace served 0 _ st Hzero) as [_ Hnone].
    destruct (filter _ _); [done|cbn in Hnone; lia].
  - apply (bounded_zero_run served). unfold posts_list. bounded_steps.
Qed.

Lemma exec_users (op : DbOp) (st : Store) :
  users (exec op st).1 = users st.
Proof.
  destruct op; cbn [exec]; unfold with_id;
    repeat match goal with
      | |- context [match ?x with _ => _ end] => destruct x
      end; try done.
Qed.

Lemma exec_comments (op : DbOp) (st : Store) :
  writes_comments op = false -> comments (exec op st).1 = comments st.
Proof.
  destruct op; try discriminate; intros _; cbn [exec]; unfold with_id;
    repeat match goal with
      | |- context [match ?x with _ => _ end] => destruct x
      end; try done.
Qed.

Lemma exec_posts (op : DbOp) (st : Store) :
  writes_posts op = false -> posts (exec op st).1 = posts st.
Proof.
  destruct op; try discriminate; intros _; cbn [exec]; unfold with_id;
    repeat match goal with
      | |- context [match ?x with _ => _ end] => destruct x
      end; try done.
Qed.

Lemma posts_routes_bounded (r : route) (env : Env) (req : Request) :
  of_posts_router r = true ->
  bounded (fun op => writes_comments op = false) 1 (handle r env req).
Proof.
  destruct r; try discriminate; intros _; cbn [handle];
    unfold posts_list, posts_get, posts_create, posts_update, posts_delete,
      validation_or.
  1,2: bounded_steps.
  all: unfold route_auth_editorAuth, route_auth, auth; bounded_steps.
Qed.

Lemma comments_routes_bounded (r : route) (env : Env) (req : Request) :
  of_posts_router r = false ->
  bounded (fun op => writes_posts op = false) 1 (handle r env req).
Proof.
  destruct r; try discriminate; intros _; cbn [handle];
    unfold comments_create, comments_update, comments_delete,
      validation_or, route_auth, auth; bounded_steps.
Qed.

(** X2.  No route changes the collection of users; the routes of the
    posts router never change a comment (so the deletion of a post leaves
    its comments in the store), and the routes of the comments router
    never change a post. *)
Theorem routes_keep_other_collections (r : route) (env : Env)
    (req : Request) (st : Store) :
  users (run (handle r env req) st).1 = users st
  /\ (of_posts_router r = true ->
      comments (run (handle r env req) st).1 = comments st)
  /\ (of_posts_router r = false ->
      posts (run (handle r env req) st).1 = posts st).
Proof.
  repeat split.
  - apply (bounded_invariant served 1 _ (fun s => users s = users st));
      [apply routes_bounded| |done].
    intros op s _ <-. apply exec_users.
  - intros Hr.
    apply (bounded_invariant _ 1 _ (fun s => comments s = comments st)
             st (posts_routes_bounded r env req Hr)); [|done].
    intros op s Hop <-. by apply exec_comments.
  - intros Hr.
    apply (bounded_invariant _ 1 _ (fun s => posts s = posts st)
             st (comments_routes_bounded r env req Hr)); [|done].
    intros op s Hop <-. by apply exec_posts.
Qed.

(** ** What a request keeps of the stored documents *)

(** The effect of one call on the collection of posts. *)
Lemma exec_posts_effect (op : DbOp) (st : Store) :
  posts (exec op st).1 = posts st
  \/ (exists oid, posts (exec op st).1 = delete oid (posts st))
  \/ (exists d now,
        op = Post_save d now
        /\ validate_post d = []
        /\ posts st !! draft_id d = None
        /\ posts (exec op st).1
           = <[draft_id d := post_of_draft d now]> (posts st))
  \/ (exists id u o paths now oid p p',
        op = Post_findByIdAndUpdate id u o paths now
        /\ posts st !! oid = Some p
        /\ apply_update (castUpdate u) now p = Some p'
        /\ (opt_runValidators o = true ->
            validate_update (castUpdate u) = [])
        /\ posts (exec op st).1 = <[oid := p']> (posts st)).
Proof.
  destruct (writes_posts op) eqn:Hw; [|left; by apply exec_posts].
  destruct op; try discriminate; cbn [exec]; unfold with_id.
  - destruct (castObjectId id) as [oid|]; [|by left].
    destruct (if opt_runValidators o then _ else _) as [|e errors]
      eqn:Herrors; [|by left].
    destruct (posts st !! oid) as [p|] eqn:Hp; [|by left].
    destruct (apply_update (castUpdate u) now p) as [p'|] eqn:Hp';
      [|by left].
    right; right; right. exists id, u, o, paths, now, oid, p, p'.
    repeat split; try done. intros Hrun. by rewrite Hrun in Herrors.
  - destruct (castObjectId id) as [oid|]; [|by left].
    right; left. by exists oid.
  - destruct (validate_post d) as [|e errors] eqn:Herrors; [|by left].
    destruct (posts st !! draft_id d) eqn:Hfresh; [by left|].
    right; right; left. by exists d, now.
Qed.

(** The effect of one call on the collection of comments. *)
Lemma exec_comments_effect (op : DbOp) (st : Store) :
  comments (exec op st).1 = comments st
  \/ (exists oid, comments (exec op st).1 = delete oid (comments st))
  \/ (exists d now pid,
        op = Comment_save d now
        /\ castObjectId (cdraft_postID d) = Some pid
        /\ validate_comment d = []
        /\ comments st !! cdraft_id d = None
        /\ comments (exec op st).1
           = <[cdraft_id d :=
                 {| Comment._id := cdraft_id d;
                    Comment.postID := pid;
                    Comment.userID := cdraft_userID d;
                    Comment.comment := default [] (cdraft_comment d);
                    Comment.createdAt := now;
                    Comment.updatedAt := now |}]> (comments st))
  \/ (exists id text o paths now oid c,
        op = Comment_findByIdAndUpdate id text o paths now
        /\ comments st !! oid = Some c
        /\ (opt_runValidators o = true ->
            validate_path (js "comment") commentSchema.comment
              (Some (trim text)) = [])
        /\ comments (exec op st).1
           = <[oid := set_comment (trim text) now c]> (comments st)).
Proof.
  destruct (writes_comments op) eqn:Hw; [|left; by apply exec_comments].
  destruct op; try discriminate; cbn [exec]; unfold with_id.
  - destruct (castObjectId id) as [oid|]; [|by left].
    destruct (if opt_runValidators o then _ else _) as [|e errors]
      eqn:Herrors; [|by left].
    destruct (comments st !! oid) as [c|] eqn:Hc; [|by left].
    right; right; right. exists id, comment, o, paths, now, oid, c.
    repeat split; try done. intros Hrun. by rewrite Hrun in Herrors.
  - destruct (castObjectId id) as [oid|]; [|by left].
    right; left. by exists oid.
  - destruct (castObjectId (cdraft_postID d)) as [pid|] eqn:Hpid;
      [|by left].
    destruct (validate_comment d) as [|e errors] eqn:Herrors; [|by left].
    destruct (comments st !! cdraft_id d) eqn:Hfresh; [by left|].
    right; right; left. by exists d, now, pid.
Qed.

Lemma routes_bounded_without_fetch (r : route) (env : Env)
    (req : Request) :
  r <> GET_post -> bounded served_without_fetch 1 (handle r env req).
Proof.
  intros Hr. destruct r; try done; cbn [handle];
    unfold posts_list, posts_create, posts_update, posts_delete,
      comments_create, comments_update, comments_delete, validation_or,
      route_auth_editorAuth, route_auth, auth; bounded_steps.
Qed.

Lemma apply_update_kept (u : PostUpdate) (now : Z) (p p' : Post.t) :
  served (Post_findByIdAndUpdate [] u
            {| opt_new := true; opt_runValidators := true |} None now) ->
  apply_update (castUpdate u) now p = Some p' ->
  post_kept p p'
  /\ (served_without_fetch
        (Post_findByIdAndUpdate [] u
           {| opt_new := true; opt_runValidators := true |} None now) ->
      Post.views p' = Post.views p).
Proof.
  destruct u as [path n|title body tags category]; cbn.
  - intros [-> ->]. rewrite bool_decide_eq_true_2 by done.
    intros [= <-]. unfold post_kept. cbn. tauto.
  - intros _ [= <-]. unfold post_kept. cbn. tauto.
Qed.

(** X3.  Whatever the route and the request, a post that is stored before
    and after the request has the same identifier, author and creation
    time, and a view counter that is the same or greater by one; only the
    fetch of one post changes a view counter.  A comment that is stored
    before and after keeps its identifier, post, author and creation
    time. *)
Theorem routes_keep_ownership (r : route) (env : Env) (req : Request)
    (st : Store) :
  (forall k p p',
     posts st !! k = Some p ->
     posts (run (handle r env req) st).1 !! k = Some p' ->
     post_kept p p' /\ (r <> GET_post -> Post.views p' = Post.views p))
  /\ (forall k c c',
        comments st !! k = Some c ->
        comments (run (handle r env req) st).1 !! k = Some c' ->
        comment_kept c c').
Proof.
  assert (Hpost : forall w k p p',
    served w -> posts st !! k = Some p ->
    posts (exec w st).1 !! k = Some p' ->
    post_kept p p'
    /\ (served_without_fetch w -> Post.views p' = Post.views p)).
  { intros w k p p' Hw Hp.
    destruct (exec_posts_effect w st)
      as [->|[(oid & ->)|[(d & now & -> & _ & Hfresh & ->)
         |(id & u & o & paths & now & oid & q & q' & -> & Hq & Hq' & _
           & ->)]]].
    - rewrite Hp. intros [= <-]. unfold post_kept. tauto.
    - destruct (decide (oid = k)) as [->|Hne];
        [by rewrite lookup_delete_eq|rewrite lookup_delete_ne by done].
      rewrite Hp. intros [= <-]. unfold post_kept. tauto.
    - destruct (decide (draft_id d = k)) as [<-|Hne]; [congruence|].
      rewrite lookup_insert_ne by done.
      rewrite Hp. intros [= <-]. unfold post_kept. tauto.
    - destruct (decide (oid = k)) as [->|Hne].
      + rewrite lookup_insert_eq. intros [= <-].
        rewrite Hp in Hq. injection Hq as <-.
        destruct (apply_update_kept u now p q') as [Hkept Hviews].
        * by destruct u.
        * done.
        * split; [done|]. intros Hw'. apply Hviews. by destruct u.
      + rewrite lookup_insert_ne by done.
        rewrite Hp. intros [= <-]. unfold post_kept. tauto. }
  assert (Hcomment : forall w k c c',
    comments st !! k = Some c ->
    comments (exec w st).1 !! k = Some c' -> comment_kept c c').
  { intros w k c c' Hc.
    destruct (exec_comments_effect w st)
      as [->|[(oid & ->)|[(d & now & pid & -> & _ & _ & Hfresh & ->)
         |(id & text & o & paths & now & oid & q & -> & Hq & _ & ->)]]].
    - rewrite Hc. by intros [= <-].
    - destruct (decide (oid = k)) as [->|Hne];
        [by rewrite lookup_delete_eq|rewrite lookup_delete_ne by done].
      rewrite Hc. by intros [= <-].
    - destruct (decide (cdraft_id d = k)) as [<-|Hne]; [congruence|].
      rewrite lookup_insert_ne by done. rewrite Hc. by intros [= <-].
    - destruct (decide (oid = k)) as [->|Hne].
      + rewrite lookup_insert_eq. intros [= <-].
        rewrite Hc in Hq. by injection Hq as <-.
      + rewrite lookup_insert_ne by done. rewrite Hc. by intros [= <-]. }
  split.
  - intros k p p' Hp Hp'. split.
    + destruct (bounded_one_run served _ st (routes_bounded r env req))
        as [Hsame|(w & Hw & _ & Hrun)]; rewrite ?Hsame, ?Hrun in Hp'.
      * rewrite Hp in Hp'. injection Hp' as <-. unfold post_kept. tauto.
      * by apply (Hpost w k).
    + intros Hr.
      destruct (bounded_one_run served_without_fetch _ st
                  (routes_bounded_without_fetch r env req Hr))
        as [Hsame|(w & Hw & _ & Hrun)]; rewrite ?Hsame, ?Hrun in Hp'.
      * rewrite Hp in Hp'. by injection Hp' as <-.
      * apply (Hpost w k p p'); [by destruct w as [| | | |? []| | | | | | | |]
                                |done..].
  - intros k c c' Hc Hc'.
    destruct (bounded_one_run served _ st (routes_bounded r env req))
      as [Hsame|(w & Hw & _ & Hrun)]; rewrite ?Hsame, ?Hrun in Hc'.
    + rewrite Hc in Hc'. by injection Hc' as <-.
    + by apply (Hcomment w k).
Qed.

(** ** Stored documents stay well formed *)

Lemma validate_title_ok (v : option jsstring) :
  validate_path (js "title") postSchema.title v = [] ->
  exists s, v = Some s /\ (0 < length s <= 200)%nat.
Proof.
  validators. destruct v as [[|c s]|]; cbn [truthy]; try discriminate.
  destruct (Nat.ltb_spec 200 (length (c :: s))); [discriminate|].
  intros _. exists (c :: s). cbn [length] in *. split; [done|lia].
Qed.

Lemma validate_body_ok (v : option jsstring) :
  validate_path (js "body") postSchema.body v = [] ->
  exists s, v = Some s /\ (10 <= length s)%nat.
Proof.
  validators. destruct v as [[|c s]|]; cbn [truthy]; try discriminate.
  destruct (Nat.ltb_spec (length (c :: s)) 10); [discriminate|].
  intros _. by exists (c :: s).
Qed.

Lemma validate_tags_ok (vs : list jsstring) (i : nat) :
  validate_elements (js "tags") postSchema.tags i vs = [] ->
  Forall (fun t => (length t <= 50)%nat) vs.
Proof.
  revert i. induction vs as [|v vs IH]; intros i; [constructor|].
  cbn [validate_elements]. intros [Hv Hvs]%app_eq_nil.
  constructor; [|by apply (IH (S i))].
  revert Hv. validators.
  by destruct (Nat.ltb_spec 50 (length v)); [discriminate|].
Qed.

Lemma validate_category_ok (c : jsstring) :
  validate_path (js "category") postSchema.category (Some c) = [] ->
  In c categories.
Proof.
  rewrite validate_category. unfold category_fits.
  destruct (bool_decide_reflect (c ∈ categories)); [|discriminate].
  intros _. by apply list_elem_of_In.
Qed.

Lemma validate_comment_ok (v : option jsstring) :
  validate_path (js "comment") commentSchema.comment v = [] ->
  exists s, v = Some s /\ (0 < length s <= 1000)%nat.
Proof.
  unfold validate_path, commentSchema.comment.
  cbn [opt_validators doValidate validator_check].
  destruct v as [[|c s]|]; cbn [truthy]; try discriminate.
  destruct (Nat.ltb_spec (length (c :: s)) 1); [discriminate|].
  destruct (Nat.ltb_spec 1000 (length (c :: s))); [discriminate|].
  intros _. exists (c :: s). split; [done|lia].
Qed.

(** A post that passes the validation of [save] is well formed, if its
    draft has a category. *)
Lemma saved_post_valid (d : PostDraft) (now : Z) :
  draft_category d <> None ->
  validate_post d = [] ->
  valid_post (post_of_draft d now).
Proof.
  unfold validate_post.
  intros Hcat (Ht & (Hb & (Hts & Hc)%app_eq_nil)%app_eq_nil)%app_eq_nil.
  apply validate_title_ok in Ht as (t & Ht & ?).
  apply validate_body_ok in Hb as (b & Hb & ?).
  apply validate_tags_ok in Hts.
  destruct (draft_category d) as [c|] eqn:Hd; [|done].
  apply validate_category_ok in Hc.
  unfold valid_post, post_of_draft. cbn. rewrite Ht, Hb, Hd. by cbn.
Qed.

(** A well-formed post stays well formed under an update that passes the
    update validators. *)
Lemma updated_post_valid (u : PostUpdate) (now : Z) (p p' : Post.t) :
  valid_post p ->
  validate_update (castUpdate u) = [] ->
  apply_update (castUpdate u) now p = Some p' ->
  valid_post p'.
Proof.
  intros (Ht & Hb & Hts & Hc).
  destruct u as [path n|title body tags category];
    cbn [castUpdate validate_update apply_update].
  - intros _. destruct (bool_decide _); [|discriminate].
    intros [= <-]. by unfold valid_post.
  - intros (Ht' & (Hb' & (Hts' & Hc')%app_eq_nil)%app_eq_nil)%app_eq_nil.
    intros [= <-]. unfold valid_post. cbn. repeat split.
    + destruct title as [t|]; cbn in *; [|lia].
      apply validate_title_ok in Ht' as (s & [= <-] & ?). lia.
    + destruct title as [t|]; cbn in *; [|lia].
      apply validate_title_ok in Ht' as (s & [= <-] & ?). lia.
    + destruct body as [b|]; cbn in *; [|done].
      by apply validate_body_ok in Hb' as (s & [= <-] & ?).
    + destruct tags as [ts|]; cbn in *; [|done].
      by apply validate_tags_ok in Hts'.
    + destruct category as [c|]; cbn in *; [|done].
      by apply validate_category_ok in Hc'.
Qed.

Lemma apply_update_id (u : PostUpdate) (now : Z) (p p' : Post.t) :
  apply_update u now p = Some p' -> Post._id p' = Post._id p.
Proof.
  destruct u; cbn; [destruct (bool_decide _); [|discriminate]|];
    by intros [= <-].
Qed.

(** X4.  The routes keep the store well formed: if every stored post and
    comment satisfies the constraints of its schema (title of 1 to 200
    characters, body of at least 10, tags of at most 50 each, category of
    the fixed list; comment text of 1 to 1000 characters) and is stored
    under its own identifier, the same holds after any request whose body
    fields are strings, or a list of strings for the tags, or absent.
    These are the requests of the embedding; a body with a JSON null, a
    number or an object in the place of a string is not among them. *)
Theorem routes_keep_store_valid (r : route) (env : Env) (req : Request)
    (st : Store) :
  valid_store st -> keyed st ->
  valid_store (run (handle r env req) st).1
  /\ keyed (run (handle r env req) st).1.
Proof.
  intros Hvalid Hkeyed.
  apply (bounded_invariant served 1 _
           (fun s => valid_store s /\ keyed s) st (routes_bounded r env req));
    [|done].
  clear. intros w st Hw [[Hposts Hcomments] (Hku & Hkp & Hkc)].
  assert (Hp : (forall k p, posts (exec w st).1 !! k = Some p ->
                            valid_post p /\ Post._id p = k)).
  { destruct (exec_posts_effect w st)
      as [->|[(oid & ->)|[(d & now & -> & Hd & Hfresh & ->)
         |(id & u & o & paths & now & oid & q & q' & -> & Hq & Hq' & Hrun
           & ->)]]]; intros k p.
    - intros Hk. split; [by eapply Hposts|by apply Hkp].
    - intros [_ Hk]%lookup_delete_Some.
      split; [by eapply Hposts|by apply Hkp].
    - intros [[<- <-]|[_ Hk]]%lookup_insert_Some.
      + split; [exact (saved_post_valid d now Hw Hd)|reflexivity].
      + split; [by eapply Hposts|by apply Hkp].
    - intros [[<- <-]|[_ Hk]]%lookup_insert_Some.
      + split.
        * apply (updated_post_valid u now q); [by eapply Hposts| |done].
          destruct u; [reflexivity|exact (Hrun Hw)].
        * rewrite (apply_update_id _ _ _ _ Hq'). by apply Hkp.
      + split; [by eapply Hposts|by apply Hkp]. }
  assert (Hc : (forall k c, comments (exec w st).1 !! k = Some c ->
                            valid_comment c /\ Comment._id c = k)).
  { destruct (exec_comments_effect w st)
      as [->|[(oid & ->)|[(d & now & pid & -> & _ & Hd & Hfresh & ->)
         |(id & text & o & paths & now & oid & q & -> & Hq & Hrun & ->)]]];
      intros k c.
    - intros Hk. split; [by eapply Hcomments|by apply Hkc].
    - intros [_ Hk]%lookup_delete_Some.
      split; [by eapply Hcomments|by apply Hkc].
    - intros [[<- <-]|[_ Hk]]%lookup_insert_Some.
      + split; [|done]. unfold valid_comment. cbn.
        unfold validate_comment in Hd.
        apply validate_comment_ok in Hd as (s & -> & Hs). exact Hs.
      + split; [by eapply Hcomments|by apply Hkc].
    - intros [[<- <-]|[_ Hk]]%lookup_insert_Some.
      + split; [|by apply (Hkc _ q)]. unfold valid_comment. cbn.
        destruct (validate_comment_ok _ (Hrun Hw)) as (s & [= <-] & Hs).
        exact Hs.
      + split; [by eapply Hcomments|by apply Hkc]. }
  split; [split|split; [|split]].
  - intros k' p Hk. by apply (Hp k').
  - intros k' c Hk. by apply (Hc k').
  - intros k' u. rewrite exec_users. apply Hku.
  - intros k' p Hk. by apply (Hp k').
  - intros k' c Hk. by apply (Hc k').
Qed.

(** ** The middleware *)

Lemma startsWith_app (pat s : jsstring) : startsWith pat (pat ++ s) = true.
Proof.
  induction pat as [|c pat IH]; [by destruct s|].
  cbn. by rewrite N.eqb_refl, IH.
Qed.

Lemma replace_unfold (pat rep s : jsstring) :
  replace pat rep s
  = if startsWith pat s then rep ++ drop (length pat) s
    else match s with
         | [] => []
         | c :: s' => c :: replace pat rep s'
         end.
Proof. by destruct s. Qed.

Lemma replace_prefix (pat s : jsstring) : replace pat [] (pat ++ s) = s.
Proof.
  rewrite replace_unfold, startsWith_app. cbn [app].
  by rewrite drop_app_length.
Qed.

Lemma replace_absent (pat rep s : jsstring) :
  occurs pat s = false -> replace pat rep s = s.
Proof.
  induction s as [|c s IH]; cbn [occurs replace].
  - by intros [-> _]%orb_false_elim.
  - intros [-> Hs]%orb_false_elim. by rewrite IH.
Qed.

(** X5.  The verifier takes the token with or without the scheme: a
    header that reads [Bearer ] followed by a token, as the client sends
    it, and a header that is the bare token (with no [Bearer ] inside)
    are verified alike. *)
Theorem bearer_prefix_optional (req req' : Request) (token : jsstring)
    (st : Store) :
  header_Authorization req = Some (js "Bearer " ++ token) ->
  header_Authorization req' = Some token ->
  occurs (js "Bearer ") token = false ->
  bearer_token req = Some token
  /\ bearer_token req' = Some token
  /\ run (auth req') st = run (auth req) st.
Proof.
  intros Hreq Hreq' Habsent.
  assert (Htoken : bearer_token req = Some token).
  { unfold bearer_token. rewrite Hreq. cbn [fmap option_fmap option_map].
    by rewrite replace_prefix. }
  assert (Htoken' : bearer_token req' = Some token).
  { unfold bearer_token. rewrite Hreq'. cbn [fmap option_fmap option_map].
    by rewrite replace_absent. }
  repeat split; [done..|].
  unfold auth. by rewrite Htoken, Htoken'.
Qed.

(** X6.  [adminAuth] lets a request through exactly when the role of the
    user is Admin, and whatever it lets through [editorAuth] lets through
    as well. *)
Theorem adminAuth_stricter (user : UserDoc.t) :
  (adminAuth user = None <-> UserDoc.role user = Some (js "Admin"))
  /\ (adminAuth user = None -> editorAuth user = None)
  /\ (forall res, adminAuth user = Some res ->
        res = fail 403 "Admin access required").
Proof.
  unfold adminAuth, editorAuth, strict_neq.
  destruct (bool_decide_reflect (UserDoc.role user = Some (js "Admin")))
    as [Hadmin|Hadmin]; cbn [negb andb]; repeat split; try done.
  by intros res [= <-].
Qed.

(** X7.  A request that the verifier refuses never reaches the handler of
    a protected route: the answer is the 401 of the verifier, the store is
    as before, and the only calls issued are those of the verifier, none
    of them a write. *)
Theorem refused_before_handler (r : route) (env : Env) (req : Request)
    (st : Store) (res : Response) :
  protected r = true ->
  run (auth req) st = (st, inr (inl res)) ->
  run (handle r env req) st = (st, inr res)
  /\ status res = 401
  /\ trace (handle r env req) st = trace (auth req) st
  /\ Forall (fun op => is_write op = false) (trace (handle r env req) st).
Proof.
  intros Hr Hauth.
  assert (Hroute : forall h,
    run (route_auth req h) st = (st, inr res)
    /\ trace (route_auth req h) st = trace (auth req) st).
  { intros h. unfold route_auth. rewrite run_bind, trace_bind, Hauth.
    split; [done|]. cbn. by rewrite app_nil_r. }
  assert (Hgoal : run (handle r env req) st = (st, inr res)
                  /\ trace (handle r env req) st = trace (auth req) st).
  { destruct r; try discriminate; cbn [handle];
      unfold posts_create, posts_update, posts_delete, comments_create,
        comments_update, comments_delete, route_auth_editorAuth;
      apply Hroute. }
  destruct Hgoal as [Hrun Htrace]. repeat split; [done| |done|].
  - by apply (auth_refusal_401 req st st).
  - rewrite Htrace. apply auth_trace_reads.
Qed.

(** ** Fetching one post: the failures *)

(** X8.  A fetch of one post that finds no post counts no view and
    changes nothing: the answer is 400 "Invalid post ID" when the
    identifier is malformed and 404 "Post not found" when it is well
    formed but names no stored post; the only call is the lookup. *)
Theorem fetch_failures (env : Env) (req : Request) (st : Store) :
  castObjectId (params_id req) ≫= (posts st !!.) = None ->
  run (posts_get env req) st
  = (st,
     inr match castObjectId (params_id req) with
         | Some _ => fail 404 "Post not found"
         | None => fail 400 "Invalid post ID"
         end)
  /\ trace (posts_get env req) st
     = [Post_findById (params_id req)
          (Some [js "username"; js "email"; js "role"])].
Proof.
  intros Hnone. rewrite posts_get_run, posts_get_trace, Hnone.
  split; [|done].
  destruct (castObjectId (params_id req)) as [oid|]; [|done].
  cbn in Hnone. by rewrite Hnone.
Qed.

(** ** Creating a post: success and validation *)

Lemma draft_of_category (env : Env) (req : Request) (user : UserDoc.t) :
  draft_category (draft_of env req user) = Some (category_or_default req).
Proof.
  unfold draft_of, category_or_default. cbn [draft_category new_Post].
  by destruct (body_category req) as [[|c s]|].
Qed.

Lemma validate_draft_of (env : Env) (req : Request) (user : UserDoc.t) :
  validate_post (draft_of env req user) =
  validate_path (js "title") postSchema.title (trim <$> body_title req)
  ++ validate_path (js "body") postSchema.body (body_body req)
  ++ validate_elements (js "tags") postSchema.tags 0
       (map trim (default [] (body_tags req)))
  ++ validate_path (js "category") postSchema.category
       (Some (category_or_default req)).
Proof.
  unfold validate_post. rewrite draft_of_category.
  unfold draft_of. cbn [draft_title draft_body draft_tags new_Post].
  unfold applySetters. cbn [opt_trim postSchema.title postSchema.body
    postSchema.tags].
  by destruct (body_body req).
Qed.

Lemma validate_draft_length (env : Env) (req : Request) (user : UserDoc.t) :
  length (validate_post (draft_of env req user)) = create_violations req.
Proof.
  rewrite validate_draft_of, !length_app, validate_tags_length,
    validate_category.
  unfold create_violations.
  assert (Ht : length (validate_path (js "title") postSchema.title
                         (trim <$> body_title req))
               = missing_or_broken title_fits (body_title req)).
  { destruct (body_title req) as [t|]; [apply validate_title_length|done]. }
  assert (Hb : length (validate_path (js "body") postSchema.body
                         (body_body req))
               = missing_or_broken body_fits (body_body req)).
  { destruct (body_body req) as [b|]; [apply validate_body_length|done]. }
  rewrite Ht, Hb. destruct (category_fits _); cbn [length]; lia.
Qed.

Lemma post_of_draft_of (env : Env) (req : Request) (user : UserDoc.t) :
  post_of_draft (draft_of env req user) (env_now env)
  = created env req user.
Proof.
  unfold post_of_draft, created. rewrite draft_of_category.
  unfold draft_of. cbn. unfold applySetters. cbn.
  by destruct (body_title req), (body_body req).
Qed.

(** X9.  A creation by a user who may author, with fields that break no
    constraint and a fresh identifier, is answered 201 and stores exactly
    one new post: title and tags trimmed, the caller as author, category
    "General" when none or an empty one is submitted, no tags when none
    are submitted, zero views, both timestamps at the time of the
    request.  The response carries that post with the username of its
    author. *)
Theorem create_stores_post (env : Env) (req : Request) (st : Store)
    (user : UserDoc.t) :
  authenticated req st user ->
  canAuthor (UserDoc.role user) = true ->
  create_violations req = 0%nat ->
  posts st !! env_newId env = None ->
  run (posts_create env req) st
  = (set_posts (insert (env_newId env) (created env req user)) st,
     inr {| status := 201;
            json :=
              json_post true (Some (js "Post created successfully"))
                (Some {| post_doc := created env req user;
                         post_author :=
                           Some (select_include [js "username"]
                                 <$> users st !! UserDoc._id user) |}) |}).
Proof.
  intros Hauth Hgate%canAuthor_editorAuth Hvalid Hfresh.
  rewrite (posts_create_run _ _ _ _ Hauth), Hgate. cbv zeta.
  fold (draft_of env req user).
  rewrite <- (validate_draft_length env req user) in Hvalid.
  destruct (validate_post (draft_of env req user)); [|discriminate].
  by rewrite Hfresh, post_of_draft_of.
Qed.

(** X10.  A creation by a user who may author whose fields break a
    constraint stores nothing and is answered 400 "Validation error" with
    one message for each violation, a missing title or body included. *)
Theorem create_lists_every_violation (env : Env) (req : Request)
    (st : Store) (user : UserDoc.t) :
  authenticated req st user ->
  canAuthor (UserDoc.role user) = true ->
  (0 < create_violations req)%nat ->
  exists errors,
    run (posts_create env req) st
    = (st, inr {| status := 400;
                  json := json_errors false (js "Validation error")
                            errors |})
    /\ length errors = create_violations req
    /\ (body_title req = None -> In (js "Title is required") errors)
    /\ (body_body req = None -> In (js "Body content is required") errors)
    /\ (forall t, body_title req = Some t ->
          (200 < length (trim t))%nat ->
          In (js "Title cannot exceed 200 characters") errors)
    /\ (forall b, body_body req = Some b ->
          (0 < length b < 10)%nat ->
          In (js "Body must be at least 10 characters long") errors)
    /\ (forall t, In t (default [] (body_tags req)) ->
          (50 < length (trim t))%nat ->
          In (js "Tag cannot exceed 50 characters") errors).
Proof.
  intros Hauth Hgate%canAuthor_editorAuth Hbad.
  rewrite (posts_create_run _ _ _ _ Hauth), Hgate. cbv zeta.
  fold (draft_of env req user).
  rewrite <- (validate_draft_length env req user) in Hbad.
  destruct (validate_post (draft_of env req user)) as [|e errors]
    eqn:Herrors; [cbn in Hbad; lia|].
  rewrite <- Herrors. clear e errors Herrors Hbad.
  eexists. split; [reflexivity|].
  split; [by rewrite length_map, validate_draft_length|].
  rewrite validate_draft_of, !map_app.
  repeat split.
  - intros ->. rewrite !in_app_iff. left. by left.
  - intros ->. rewrite !in_app_iff. right; left. by left.
  - intros t -> Hlong. cbn [fmap option_fmap option_map].
    rewrite validate_title_long by done.
    rewrite !in_app_iff. left. by left.
  - intros b -> Hshort. rewrite validate_body_short by done.
    rewrite !in_app_iff. right; left. by left.
  - intros t Hin Hlong. rewrite !in_app_iff. right; right; left.
    by apply validate_tags_long with t.
Qed.

(** ** Updating and deleting a post: success and missing posts *)

Lemma posts_delete_run (req : Request) (st : Store) (user : UserDoc.t) :
  authenticated req st user ->
  run (posts_delete req) st =
  match editorAuth user with
  | Some res => (st, inr res)
  | None =>
      match castObjectId (params_id req) with
      | None => (st, inr (fail 500 "Error deleting post"))
      | Some oid =>
          match posts st !! oid with
          | None => (st, inr (fail 404 "Post not found"))
          | Some p =>
              if not_authorized (Post.author p) user
              then (st, inr (fail 403 "Not authorized to delete this post"))
              else
                (set_posts (delete oid) st,
                 inr {| status := 200;
                        json := json_message true
                                  (js "Post deleted successfully") |})
          end
      end
  end.
Proof.
  intros Hauth. unfold posts_delete.
  rewrite (run_route_auth_editorAuth _ _ _ _ Hauth).
  destruct (editorAuth user) as [res|]; [reflexivity|].
  run_cbn. unfold with_id.
  destruct (castObjectId (params_id req)) as [oid|] eqn:Hcast;
    [|reflexivity].
  cbn [fmap option_fmap option_map].
  destruct (posts st !! oid) as [p|] eqn:Hp; [|reflexivity].
  cbn [fmap option_fmap option_map]. run_cbn. cbn [post_doc populate_post].
  destruct (not_authorized (Post.author p) user); [reflexivity|].
  run_cbn. unfold with_id. by rewrite Hcast.
Qed.

(** X11.  An update of a stored post by a user who may author and may
    modify it (its author, or any Admin), with fields that break no
    constraint, is answered 200 and the post in the response is the post
    as stored after the update. *)
Theorem update_returns_stored_post (env : Env) (req : Request)
    (st : Store) (user : UserDoc.t) (oid : ObjectId) (p : Post.t) :
  authenticated req st user ->
  canAuthor (UserDoc.role user) = true ->
  castObjectId (params_id req) = Some oid ->
  posts st !! oid = Some p ->
  canModify (UserDoc._id user) (UserDoc.role user) (Post.author p) = true ->
  violations req = 0%nat ->
  exists st' doc,
    run (posts_update env req) st
    = (st', inr {| status := 200;
                   json :=
                     json_post true (Some (js "Post updated successfully"))
                       (Some doc) |})
    /\ posts st' = <[oid := updated req (env_now env) p]> (posts st)
    /\ posts st' !! oid = Some (post_doc doc)
    /\ post_author doc
       = Some (select_include [js "username"] <$> users st !! Post.author p).
Proof.
  intros Hauth Hgate%canAuthor_editorAuth Hcast Hp
    Hmay%canModify_not_authorized Hvalid.
  rewrite (posts_update_run _ _ _ _ Hauth), Hgate, Hcast, Hp, Hmay.
  rewrite <- validate_update_length in Hvalid.
  destruct (validate_update (update_of req)); [|discriminate].
  do 2 eexists. split; [reflexivity|]. cbn.
  by rewrite lookup_insert_eq.
Qed.

(** X12.  A deletion of a stored post by a user who may author and may
    modify it is answered 200 and removes that post and nothing else:
    the other posts and all comments, those of the deleted post included,
    stay.  A later fetch of the identifier is answered 404. *)
Theorem delete_removes_post (env : Env) (req req' : Request) (st : Store)
    (user : UserDoc.t) (oid : ObjectId) (p : Post.t) :
  authenticated req st user ->
  canAuthor (UserDoc.role user) = true ->
  castObjectId (params_id req) = Some oid ->
  posts st !! oid = Some p ->
  canModify (UserDoc._id user) (UserDoc.role user) (Post.author p) = true ->
  params_id req' = params_id req ->
  exists st',
    run (posts_delete req) st
    = (st', inr {| status := 200;
                   json := json_message true
                             (js "Post deleted successfully") |})
    /\ posts st' = delete oid (posts st)
    /\ comments st' = comments st
    /\ users st' = users st
    /\ run (posts_get env req') st' = (st', inr (fail 404 "Post not found")).
Proof.
  intros Hauth Hgate%canAuthor_editorAuth Hcast Hp
    Hmay%canModify_not_authorized Hid.
  rewrite (posts_delete_run _ _ _ Hauth), Hgate, Hcast, Hp, Hmay.
  eexists. split; [reflexivity|]. repeat split.
  rewrite posts_get_run, Hid, Hcast. cbn [posts set_posts].
  by rewrite lookup_delete_eq.
Qed.

(** X13.  For a user who may author, an update or a deletion of a post
    that is not stored changes nothing; it is answered 404 when the
    identifier is well formed and 500, not 400, when it is malformed. *)
Theorem update_delete_missing_post (env : Env) (req : Request) (st : Store)
    (user : UserDoc.t) :
  authenticated req st user ->
  canAuthor (UserDoc.role user) = true ->
  castObjectId (params_id req) ≫= (posts st !!.) = None ->
  run (posts_update env req) st
  = (st, inr match castObjectId (params_id req) with
             | Some _ => fail 404 "Post not found"
             | None => fail 500 "Error updating post"
             end)
  /\ run (posts_delete req) st
     = (st, inr match castObjectId (params_id req) with
                | Some _ => fail 404 "Post not found"
                | None => fail 500 "Error deleting post"
                end).
Proof.
  intros Hauth Hgate%canAuthor_editorAuth Hnone.
  rewrite (posts_update_run _ _ _ _ Hauth), (posts_delete_run _ _ _ Hauth),
    Hgate.
  destruct (castObjectId (params_id req)) as [oid|]; [|done].
  cbn in Hnone. by rewrite Hnone.
Qed.

(** ** Trimming *)

Lemma trimStart_fixed (s : jsstring) :
  (forall c, head s = Some c -> isWhiteSpace c = false) -> trimStart s = s.
Proof.
  destruct s as [|c s]; [done|]. intros H. cbn [trimStart].
  by rewrite (H c).
Qed.

Lemma head_rev (l : jsstring) : head (rev l) = last l.
Proof. by rewrite <- (rev_involutive l) at 2; rewrite last_rev. Qed.

(** Trimming removes nothing from a string that is already trimmed. *)
Lemma trim_twice (s : jsstring) : trim (trim s) = trim s.
Proof.
  destruct (trim_trimmed_of s) as (l & r & Hs & _ & _ & Hhead & Hlast).
  unfold trim at 1, trimEnd.
  rewrite (trimStart_fixed (trim s)) by done.
  rewrite (trimStart_fixed (rev (trim s))); [apply rev_involutive|].
  intros c. rewrite head_rev. apply Hlast.
Qed.

(** ** Comments: creation, update and deletion *)

Lemma validate_comment_fits (text : jsstring) :
  (0 < length text <= 1000)%nat ->
  validate_path (js "comment") commentSchema.comment (Some text) = [].
Proof.
  intros H. unfold validate_path, commentSchema.comment.
  cbn [opt_validators doValidate validator_check].
  destruct text as [|c text]; [cbn in H; lia|]. cbn [truthy].
  compare_lengths.
Qed.

Lemma validate_comment_blank :
  validate_path (js "comment") commentSchema.comment (Some [])
  = [(js "comment", js "Comment content is required")].
Proof. reflexivity. Qed.

Lemma validate_comment_long (text : jsstring) :
  (1000 < length text)%nat ->
  validate_path (js "comment") commentSchema.comment (Some text)
  = [(js "comment", js "Comment cannot exceed 1000 characters")].
Proof.
  intros H. unfold validate_path, commentSchema.comment.
  cbn [opt_validators doValidate validator_check].
  destruct text as [|c text]; [cbn in H; lia|]. cbn [truthy].
  compare_lengths.
Qed.

(** The creation of a comment once the post is found. *)
Lemma comments_create_run (env : Env) (req : Request) (st : Store)
    (user : UserDoc.t) (pid text : jsstring) (oid : ObjectId) (p : Post.t) :
  authenticated req st user ->
  body_postID req = Some pid -> pid <> [] ->
  body_comment req = Some text -> text <> [] ->
  castObjectId pid = Some oid ->
  posts st !! oid = Some p ->
  run (comments_create env req) st =
  match validate_path (js "comment") commentSchema.comment
          (Some (trim text)) with
  | [] =>
      match comments st !! env_newId env with
      | Some _ => (st, inr (fail 500 "Error adding comment"))
      | None =>
          let st' :=
            set_comments
              (insert (env_newId env) (commented env user oid text)) st in
          (st',
           inr {| status := 201;
                  json :=
                    json_comment true (js "Comment added successfully")
                      (Some (populate_comment st' (Some [js "username"])
                               (commented env user oid text))) |})
      end
  | (_ :: _) as errors =>
      (st, inr {| status := 400;
                  json := json_errors false (js "Validation error")
                            (map snd errors) |})
  end.
Proof.
  intros Hauth Hpid Hpid' Htext Htext' Hcast Hp. unfold comments_create.
  rewrite run_route_auth, Hauth, Hpid, Htext.
  destruct pid as [|c0 pid]; [done|]. destruct text as [|t0 text]; [done|].
  cbn [truthy_opt truthy negb orb default from_option id].
  run_cbn. unfold with_id. rewrite Hcast.
  cbn [fmap option_fmap option_map]. rewrite Hp.
  cbn [fmap option_fmap option_map]. run_cbn.
  cbn [cdraft_postID new_Comment]. rewrite Hcast.
  unfold validate_comment. cbn [cdraft_comment new_Comment].
  unfold applySetters. cbn [opt_trim commentSchema.comment].
  rewrite trim_twice.
  destruct (validate_path _ _ _) as [|e errors]; [|reflexivity].
  cbn [cdraft_id new_Comment].
  destruct (comments st !! env_newId env); [reflexivity|].
  cbn [cdraft_comment cdraft_userID new_Comment default from_option id].
  run_cbn. reflexivity.
Qed.

(** X14.  Any authenticated user, whatever the role, can comment on a
    stored post: a text of 1 to 1000 characters after trimming is
    answered 201 and stored under a fresh identifier with the post, the
    user and the trimmed text; the answer carries the stored comment and
    the user's name; the posts are left as they were. *)
Theorem comment_create_stores_comment (env : Env) (req : Request)
    (st : Store) (user : UserDoc.t) (pid text : jsstring) (oid : ObjectId)
    (p : Post.t) :
  authenticated req st user ->
  body_postID req = Some pid -> pid <> [] ->
  castObjectId pid = Some oid ->
  posts st !! oid = Some p ->
  body_comment req = Some text ->
  (0 < length (trim text) <= 1000)%nat ->
  comments st !! env_newId env = None ->
  exists st' doc,
    run (comments_create env req) st
    = (st', inr {| status := 201;
                   json := json_comment true
                             (js "Comment added successfully") (Some doc) |})
    /\ comments st'
       = <[env_newId env := commented env user oid text]> (comments st)
    /\ comments st' !! env_newId env = Some (comment_doc doc)
    /\ comment_user doc
       = Some (select_include [js "username"]
                 <$> users st !! UserDoc._id user)
    /\ posts st' = posts st.
Proof.
  intros Hauth Hpid Hpid' Hcast Hp Htext Hlen Hfresh.
  assert (Htext' : text <> []) by (intros ->; cbn in Hlen; lia).
  rewrite (comments_create_run _ _ _ _ _ _ _ _
             Hauth Hpid Hpid' Htext Htext' Hcast Hp).
  rewrite (validate_comment_fits _ Hlen), Hfresh.
  do 2 eexists. split; [reflexivity|]. cbn.
  by rewrite lookup_insert_eq.
Qed.

(** X15.  A comment on a stored post whose text is only white space, or
    longer than 1000 characters after trimming, is answered 400 with the
    message of the violated rule, and nothing is stored. *)
Theorem comment_create_lists_violation (env : Env) (req : Request)
    (st : Store) (user : UserDoc.t) (pid text : jsstring) (oid : ObjectId)
    (p : Post.t) :
  authenticated req st user ->
  body_postID req = Some pid -> pid <> [] ->
  castObjectId pid = Some oid ->
  posts st !! oid = Some p ->
  body_comment req = Some text -> text <> [] ->
  (trim text = [] ->
   run (comments_create env req) st
   = (st, inr {| status := 400;
                 json := json_errors false (js "Validation error")
                           [js "Comment content is required"] |}))
  /\ ((1000 < length (trim text))%nat ->
      run (comments_create env req) st
      = (st, inr {| status := 400;
                    json := json_errors false (js "Validation error")
                              [js "Comment cannot exceed 1000 characters"] |})).
Proof.
  intros Hauth Hpid Hpid' Hcast Hp Htext Htext'.
  rewrite (comments_create_run _ _ _ _ _ _ _ _
             Hauth Hpid Hpid' Htext Htext' Hcast Hp).
  split.
  - intros ->. by rewrite validate_comment_blank.
  - intros Hlen. by rewrite (validate_comment_long _ Hlen).
Qed.

(** The update of a comment for an authenticated user. *)
Lemma comments_update_run (env : Env) (req : Request) (st : Store)
    (user : UserDoc.t) :
  authenticated req st user ->
  run (comments_update env req) st =
  match body_comment req with
  | Some text =>
      if truthy (trim text)
      then
        match castObjectId (params_id req) with
        | None => (st, inr (fail 500 "Error updating comment"))
        | Some oid =>
            match comments st !! oid with
            | None => (st, inr (fail 404 "Comment not found"))
            | Some c =>
                if not_authorized (Comment.userID c) user
                then (st, inr (fail 403
                                 "Not authorized to update this comment"))
                else
                  match validate_path (js "comment") commentSchema.comment
                          (Some (trim text)) with
                  | [] =>
                      let c' := set_comment (trim text) (env_now env) c in
                      let st' := set_comments (insert oid c') st in
                      (st',
                       inr {| status := 200;
                              json :=
                                json_comment true
                                  (js "Comment updated successfully")
                                  (Some (populate_comment st'
                                           (Some [js "username"]) c')) |})
                  | _ :: _ =>
                      (st, inr (fail 500 "Error updating comment"))
                  end
            end
        end
      else (st, inr (fail 400 "Comment content is required"))
  | None => (st, inr (fail 400 "Comment content is required"))
  end.
Proof.
  intros Hauth. unfold comments_update.
  rewrite run_route_auth, Hauth.
  destruct (body_comment req) as [text|]; [|reflexivity].
  cbn [default from_option id].
  destruct (truthy (trim text)) eqn:Htrim.
  2:{ by destruct text. }
  assert (Htext : truthy_opt (Some text) = true).
  { destruct text; [discriminate Htrim|reflexivity]. }
  rewrite Htext. cbn [negb orb]. run_cbn. unfold with_id.
  destruct (castObjectId (params_id req)) as [oid|] eqn:Hcast;
    [|reflexivity].
  cbn [fmap option_fmap option_map].
  destruct (comments st !! oid) as [c|] eqn:Hc; [|reflexivity].
  run_cbn.
  destruct (not_authorized (Comment.userID c) user); [reflexivity|].
  run_cbn. unfold with_id. rewrite Hcast.
  cbn [opt_runValidators opt_new].
  unfold applySetters. cbn [opt_trim commentSchema.comment].
  rewrite trim_twice.
  destruct (validate_path _ _ _) as [|e errors]; [|reflexivity].
  rewrite Hc. reflexivity.
Qed.

(** X16.  The author of a stored comment, or an administrator, replaces
    its text: a text of 1 to 1000 characters after trimming is answered
    200, the comment keeps its identifier, post, user and creation time,
    and every other comment and every post stays as it was. *)
Theorem comment_update_stores_text (env : Env) (req : Request) (st : Store)
    (user : UserDoc.t) (oid : ObjectId) (c : Comment.t) (text : jsstring) :
  authenticated req st user ->
  castObjectId (params_id req) = Some oid ->
  comments st !! oid = Some c ->
  canModify (UserDoc._id user) (UserDoc.role user) (Comment.userID c)
  = true ->
  body_comment req = Some text ->
  (0 < length (trim text) <= 1000)%nat ->
  exists st' doc,
    run (comments_update env req) st
    = (st', inr {| status := 200;
                   json := json_comment true
                             (js "Comment updated successfully")
                             (Some doc) |})
    /\ comments st'
       = <[oid := set_comment (trim text) (env_now env) c]> (comments st)
    /\ comments st' !! oid = Some (comment_doc doc)
    /\ Comment.comment (comment_doc doc) = trim text
    /\ comment_kept c (comment_doc doc)
    /\ posts st' = posts st.
Proof.
  intros Hauth Hcast Hc Hmay%canModify_not_authorized Htext Hlen.
  rewrite (comments_update_run _ _ _ _ Hauth), Htext, Hcast, Hc, Hmay.
  rewrite (validate_comment_fits _ Hlen).
  destruct (trim text) eqn:Htrim; [cbn in Hlen; lia|]. cbn [truthy].
  do 2 eexists. split; [reflexivity|]. cbn.
  by rewrite lookup_insert_eq.
Qed.

(** X17.  The refusals of a comment update.  A text that is missing or
    only white space is answered 400 before the comment is looked up,
    whoever asks and whether or not the comment exists; a text longer
    than 1000 characters after trimming, sent by a user who may modify
    the comment, is answered 500, not 400; an unknown comment is answered
    404, a malformed identifier 500.  Nothing is stored in any of
    these. *)
Theorem comment_update_refusals (env : Env) (req : Request) (st : Store)
    (user : UserDoc.t) :
  authenticated req st user ->
  (truthy (trim (default [] (body_comment req))) = false ->
   run (comments_update env req) st
   = (st, inr (fail 400 "Comment content is required")))
  /\ (truthy (trim (default [] (body_comment req))) = true ->
      castObjectId (params_id req) ≫= (comments st !!.) = None ->
      run (comments_update env req) st
      = (st, inr match castObjectId (params_id req) with
                 | Some _ => fail 404 "Comment not found"
                 | None => fail 500 "Error updating comment"
                 end))
  /\ (forall oid c,
        castObjectId (params_id req) = Some oid ->
        comments st !! oid = Some c ->
        canModify (UserDoc._id user) (UserDoc.role user) (Comment.userID c)
        = true ->
        (1000 < length (trim (default [] (body_comment req))))%nat ->
        run (comments_update env req) st
        = (st, inr (fail 500 "Error updating comment"))).
Proof.
  intros Hauth. rewrite (comments_update_run _ _ _ _ Hauth).
  destruct (body_comment req) as [text|]; cbn [default from_option id].
  2:{ split; [done|]. split; [done|]. intros ???? _ H. cbn in H. lia. }
  split; [by intros ->|]. split.
  - intros -> Hnone.
    destruct (castObjectId (params_id req)) as [oid|]; [|done].
    cbn in Hnone. by rewrite Hnone.
  - intros oid c -> -> Hmay%canModify_not_authorized Hlen. rewrite Hmay.
    rewrite (validate_comment_long _ Hlen).
    destruct (trim text); [cbn in Hlen; lia|done].
Qed.

(** The credential verifier reads the users only. *)
Lemma authenticated_users (req : Request) (st st' : Store)
    (user : UserDoc.t) :
  users st' = users st ->
  authenticated req st user -> authenticated req st' user.
Proof.
  intros Husers. unfold authenticated, auth. rewrite !run_try_catch.
  destruct (negb (truthy_opt _)); [done|].
  rewrite !run_bind.
  destruct (jwt_verify _) as [id|]; cbn; [|done].
  unfold with_id. destruct (castObjectId id) as [oid|]; cbn; [|done].
  rewrite Husers. destruct (users st !! oid); cbn; [|done].
  by intros [= ->].
Qed.

(** The deletion of a comment for an authenticated user. *)
Lemma comments_delete_run (req : Request) (st : Store) (user : UserDoc.t) :
  authenticated req st user ->
  run (comments_delete req) st =
  match castObjectId (params_id req) with
  | None => (st, inr (fail 500 "Error deleting comment"))
  | Some oid =>
      match comments st !! oid with
      | None => (st, inr (fail 404 "Comment not found"))
      | Some c =>
          if not_authorized (Comment.userID c) user
          then (st, inr (fail 403 "Not authorized to delete this comment"))
          else (set_comments (delete oid) st,
                inr {| status := 200;
                       json := json_message true
                                 (js "Comment deleted successfully") |})
      end
  end.
Proof.
  intros Hauth. unfold comments_delete.
  rewrite run_route_auth, Hauth. run_cbn. unfold with_id.
  destruct (castObjectId (params_id req)) as [oid|] eqn:Hcast;
    [|reflexivity].
  cbn [fmap option_fmap option_map].
  destruct (comments st !! oid) as [c|]; [|reflexivity].
  run_cbn.
  destruct (not_authorized (Comment.userID c) user); [reflexivity|].
  run_cbn. unfold with_id. rewrite Hcast. reflexivity.
Qed.

(** X18.  The author of a stored comment, or an administrator, deletes
    it: the request is answered 200 and removes that comment and nothing
    else.  Repeating the request is answered 404.  An unknown comment is
    answered 404 and a malformed identifier 500, and neither changes the
    store. *)
Theorem comment_delete_removes_comment (req : Request) (st : Store)
    (user : UserDoc.t) :
  authenticated req st user ->
  (forall oid c,
     castObjectId (params_id req) = Some oid ->
     comments st !! oid = Some c ->
     canModify (UserDoc._id user) (UserDoc.role user) (Comment.userID c)
     = true ->
     exists st',
       run (comments_delete req) st
       = (st', inr {| status := 200;
                      json := json_message true
                                (js "Comment deleted successfully") |})
       /\ comments st' = delete oid (comments st)
       /\ posts st' = posts st
       /\ users st' = users st
       /\ run (comments_delete req) st'
          = (st', inr (fail 404 "Comment not found")))
  /\ (castObjectId (params_id req) ≫= (comments st !!.) = None ->
      run (comments_delete req) st
      = (st, inr match castObjectId (params_id req) with
                 | Some _ => fail 404 "Comment not found"
                 | None => fail 500 "Error deleting comment"
                 end)).
Proof.
  intros Hauth. split.
  - intros oid c Hcast Hc Hmay%canModify_not_authorized.
    rewrite (comments_delete_run _ _ _ Hauth), Hcast, Hc, Hmay.
    eexists. split; [reflexivity|]. repeat split.
    assert (Hauth' : authenticated req (set_comments (delete oid) st) user).
    { by apply (authenticated_users req st). }
    rewrite (comments_delete_run _ _ _ Hauth'), Hcast.
    cbn [comments set_comments]. by rewrite lookup_delete_eq.
  - intros Hnone. rewrite (comments_delete_run _ _ _ Hauth).
    destruct (castObjectId (params_id req)) as [oid|]; [|done].
    cbn in Hnone. by rewrite Hnone.
Qed.

(** ** The pages of the post list *)


Lemma apply_limit_sublist {A : Type} (limit : jsnum) (l : list A) :
  apply_limit limit l `sublist_of` l.
Proof.
  rewrite apply_limit_take. destruct (_ =? 0); [done|]. apply sublist_take.
Qed.

Lemma apply_limit_length {A : Type} (req : Request) (l : list A) :
  page_size req <> 0 ->
  Z.of_nat (length (apply_limit (parseInt (requested_size req)) l))
  <= Z.abs (page_size req).
Proof.
  intros Hsize. rewrite apply_limit_take.
  destruct (sent_limit_page_size req) as [Hsent Hzero].
  destruct (Z.eqb_spec (sent_limit (parseInt (requested_size req))) 0);
    [tauto|].
  rewrite length_take. lia.
Qed.



(** X20.  A list request whose offset [(page - 1) * limit] is negative,
    as for page 0 with the page size 10 that is taken when none is asked
    for, is answered 500, not 400 and not an empty page. *)
Theorem list_rejects_negative_offset (req : Request) (st : Store) :
  (requested_page req - 1) * page_size req < 0 ->
  run (posts_list req) st = (st, inr (fail 500 "Error fetching posts"))
  /\ (query_limit req = None -> requested_page req <= 0)
  /\ listed req st = []
  /\ (requested_page req - 1) * requested_size req < 0.
Proof.
  intros Hskip. unfold listed. rewrite posts_list_run. cbv zeta.
  destruct (Z.ltb_spec ((requested_page req - 1) * page_size req) 0);
    [|lia].
  split; [done|].
  split; [|split; [done|pose proof (page_size_sgn req); nia]].
  intros Hnone. rewrite page_size_safe in Hskip;
    unfold requested_size in *; rewrite Hnone in *;
    cbn [default from_option id] in *; lia.
Qed.

(** The offset of a page whose number, and whose product with the page
    size, are at most 2^53. *)
Lemma offset_safe (p l : Z) :
  Z.abs p <= 2 ^ 53 -> Z.abs l <= 2 ^ 53 ->
  Z.abs (p - 1) <= 2 ^ 53 -> Z.abs ((p - 1) * l) <= 2 ^ 53 ->
  js_mul (js_sub (parseInt p) (num_of_Z 1)) (parseInt l)
  = num_of_Z ((p - 1) * l).
Proof.
  intros Hp Hl Hp1 Hpl. rewrite !parseInt_Z by done.
  cbn [js_sub num_of_Z].
  rewrite (double_comp (inject_Z p - inject_Z 1) (inject_Z (p - 1))).
  2:{ unfold Z.sub. rewrite inject_Z_plus, inject_Z_opp. reflexivity. }
  rewrite double_Z by done. cbn [js_mul num_of_Z].
  rewrite <- inject_Z_mult. by apply double_Z.
Qed.

Lemma sent_limit_Z (z : Z) :
  0 <= z <= 2 ^ 53 -> sent_limit (num_of_Z z) = z.
Proof.
  intros Hz. unfold sent_limit. cbn [js_lt num_of_Z]. rewrite Qle_bool_0.
  cbn [Qnum inject_Z]. rewrite bool_decide_true by lia. cbn [negb].
  fold (num_of_Z z). rewrite safeNumberLong_Z.
  unfold LLONG_MIN, LLONG_MAX. lia.
Qed.

Lemma listed_on_page (req : Request) (st : Store) (i : nat) :
  0 < requested_size req <= 2 ^ 53 ->
  Z.of_nat (S i) <= 2 ^ 53 ->
  Z.of_nat i * requested_size req <= 2 ^ 53 ->
  listed (on_page (Z.of_nat (S i)) req) st
  = populate_post st (Some [js "username"]) <$>
      take (Z.to_nat (requested_size req))
        (drop (i * Z.to_nat (requested_size req)) (sorted_selection req st)).
Proof.
  intros Hsize Hpage Hoffset. unfold listed. rewrite posts_list_run.
  cbv zeta.
  change (requested_size (on_page (Z.of_nat (S i)) req))
    with (requested_size req).
  change (sorted_selection (on_page (Z.of_nat (S i)) req) st)
    with (sorted_selection req st).
  change (requested_page (on_page (Z.of_nat (S i)) req))
    with (Z.of_nat (S i)).
  assert (Hps : page_size (on_page (Z.of_nat (S i)) req)
                = requested_size req).
  { apply (page_size_safe (on_page (Z.of_nat (S i)) req)).
    change (requested_size (on_page (Z.of_nat (S i)) req))
      with (requested_size req).
    lia. }
  rewrite Hps.
  destruct (Z.ltb_spec ((Z.of_nat (S i) - 1) * requested_size req) 0);
    [nia|].
  unfold offset.
  change (requested_size (on_page (Z.of_nat (S i)) req))
    with (requested_size req).
  change (requested_page (on_page (Z.of_nat (S i)) req))
    with (Z.of_nat (S i)).
  rewrite offset_safe by nia.
  rewrite safeNumberLong_Z, apply_limit_take.
  rewrite parseInt_Z, sent_limit_Z by lia.
  destruct (Z.eqb_spec (requested_size req) 0); [lia|].
  do 3 f_equal. unfold LLONG_MIN, LLONG_MAX. nia.
Qed.

Lemma concat_pages {A : Type} (size k : nat) (l : list A) :
  concat (map (fun i => take size (drop (i * size) l)) (seq 0 k))
  = take (k * size) l.
Proof.
  induction k as [|k IH]; [done|].
  rewrite seq_S, map_app, concat_app, IH. cbn [map concat Nat.add].
  rewrite app_nil_r, take_take_drop. f_equal. lia.
Qed.

(** The number of pages that a response gives, for fewer than 2^53
    selected posts and a positive page size up to 2^53, is a page number
    up to 2^53 whose pages hold all selected posts. *)
Lemma totalPages_enough (req : Request) (st st' : Store) (res : Response)
    (ok : bool) (docs : list PostDoc) (pg : Pagination) (pages : nat) :
  0 < requested_size req <= 2 ^ 53 ->
  Z.of_nat (length (matching (query_of req) st)) < 2 ^ 53 ->
  run (posts_list req) st = (st', inr res) ->
  json res = json_posts ok docs pg ->
  totalPages pg = num_of_Z (Z.of_nat pages) ->
  (Z.of_nat pages - 1) * requested_size req
  < Z.of_nat (length (matching (query_of req) st))
  <= Z.of_nat pages * requested_size req.
Proof.
  intros Hsize Htotal Hrun Hjson Hpages.
  rewrite posts_list_run in Hrun. cbv zeta in Hrun.
  destruct (Math_ceil_div
              (Z.of_nat (length (matching (query_of req) st)))
              (requested_size req)) as (k & Hk & Hpos & _); [lia..|].
  set (current := parseInt _) in Hrun.
  set (page := ToNumber (requested_page req)) in Hrun.
  rewrite Hk in Hrun.
  destruct (_ <? 0); injection Hrun as <- <-; [discriminate|].
  injection Hjson as <- <- <-. cbn [totalPages] in Hpages.
  injection Hpages as ->. apply Hpos. lia.
Qed.

(** ** The comments of a post *)

Lemma comments_list_run (req : Request) (st : Store) :
  comments_list req st =
  match castObjectId (params_id req) with
  | None => comments_fail 400 "Invalid post ID"
  | Some oid =>
      match posts st !! oid with
      | None => comments_fail 404 "Post not found"
      | Some _ =>
          if (requested_page req - 1) * page_size req <? 0
          then comments_fail 500 "Error fetching comments"
          else
            let total := Z.of_nat (length (comments_on oid st)) in
            {| comments_status := 200;
               comments_json :=
                 comments_page true
                   (populate_comment st (Some [js "username"]) <$>
                      apply_limit (parseInt (requested_size req))
                        (drop (Z.to_nat (safeNumberLong (offset req)))
                           (sort_comments (comments_on oid st))))
                   {| comments_currentPage := parseInt (requested_page req);
                      comments_totalPages :=
                        Math_ceil (js_div (num_of_Z total)
                                     (ToNumber (requested_size req)));
                      totalComments := total |} |}
      end
  end.
Proof.
  rewrite <- offset_negative.
  unfold comments_list, Comment_find, Comment_countDocuments, offset,
    requested_page, requested_size.
  cbn [exec]. unfold with_id.
  destruct (castObjectId (params_id req)) as [oid|]; [|reflexivity].
  cbn [snd fmap option_fmap option_map].
  destruct (posts st !! oid); [|reflexivity].
  cbn [option_map]. rewrite skip_first_drop. by destruct (_ <? 0).
Qed.

(** X22.  The failures of the comment list of a post: a malformed post
    identifier is answered 400 "Invalid post ID", a well-formed one that
    names no stored post 404 "Post not found", whatever comments refer to
    it; and for a stored post a negative offset [(page - 1) * limit] is
    answered 500. *)
Theorem comments_list_failures (req : Request) (st : Store) :
  (castObjectId (params_id req) = None ->
   comments_list req st = comments_fail 400 "Invalid post ID")
  /\ (forall oid,
        castObjectId (params_id req) = Some oid ->
        posts st !! oid = None ->
        comments_list req st = comments_fail 404 "Post not found")
  /\ (forall oid p,
        castObjectId (params_id req) = Some oid ->
        posts st !! oid = Some p ->
        (requested_page req - 1) * page_size req < 0 ->
        comments_list req st = comments_fail 500 "Error fetching comments").
Proof.
  rewrite comments_list_run. split; [by intros ->|]. split.
  - by intros oid -> ->.
  - intros oid p -> -> Hskip.
    by destruct (Z.ltb_spec ((requested_page req - 1) * page_size req) 0);
      [|lia].
Qed.

Lemma comments_on_stored (post : ObjectId) (st : Store) (c : Comment.t) :
  c ∈ comments_on post st <->
  Comment.postID c = post /\ exists oid, comments st !! oid = Some c.
Proof.
  unfold comments_on. rewrite list_elem_of_filter, list_elem_of_fmap.
  split.
  - intros [Hm ([oid c'] & -> & Hin)]. split; [done|].
    exists oid. by apply elem_of_map_to_list in Hin.
  - intros [Hm [oid Hc]]. split; [done|].
    exists (oid, c). split; [done|]. by apply elem_of_map_to_list.
Qed.

(** X23.  The comment list of a stored post, for an offset that is not
    negative, is answered 200.  Every comment of the answer is a stored
    comment on that post, with the name of its user joined;
    [totalComments] is the number of stored comments on the post;
    the answer holds at most that many comments and, unless the page size
    is 0, at most as many as the absolute value of the page size.
    [currentPage] is the double nearest to the page asked for, hence that
    page when it is at most 2^53 in magnitude.  For a positive page size
    up to 2^53 and fewer than 2^53 comments on the post, [totalPages] is
    the least number of pages that hold [totalComments] comments.  The
    page size of the offset and of the bound is read as the database reads
    it; it has the sign of the requested size and is that size up to
    2^53. *)
Theorem comments_list_content (req : Request) (st : Store) (oid : ObjectId)
    (p : Post.t) :
  sort_comments_permutes ->
  castObjectId (params_id req) = Some oid ->
  posts st !! oid = Some p ->
  0 <= (requested_page req - 1) * page_size req ->
  exists docs pg,
    comments_list req st
    = {| comments_status := 200;
         comments_json := comments_page true docs pg |}
    /\ Forall (fun doc =>
                 Comment.postID (comment_doc doc) = oid
                 /\ (exists id, comments st !! id = Some (comment_doc doc))
                 /\ comment_user doc
                    = Some (select_include [js "username"]
                              <$> users st
                                    !! Comment.userID (comment_doc doc)))
         docs
    /\ totalComments pg = Z.of_nat (length (comments_on oid st))
    /\ (forall c, c ∈ comments_on oid st <->
                  Comment.postID c = oid
                  /\ exists id, comments st !! id = Some c)
    /\ Z.of_nat (length docs) <= totalComments pg
    /\ (page_size req <> 0 ->
        Z.of_nat (length docs) <= Z.abs (page_size req))
    /\ comments_currentPage pg = double (inject_Z (requested_page req))
    /\ (Z.abs (requested_page req) <= 2 ^ 53 ->
        comments_currentPage pg = num_of_Z (requested_page req))
    /\ (0 < requested_size req <= 2 ^ 53 ->
        totalComments pg < 2 ^ 53 ->
        exists k,
          comments_totalPages pg = num_of_Z k
          /\ (k - 1) * requested_size req < totalComments pg
             <= k * requested_size req)
    /\ Z.sgn (page_size req) = Z.sgn (requested_size req)
    /\ (Z.abs (requested_size req) <= 2 ^ 53 ->
        page_size req = requested_size req).
Proof.
  intros Hsort Hcast Hp Hskip. unfold sort_comments_permutes in Hsort.
  rewrite comments_list_run, Hcast, Hp. cbv zeta.
  destruct (Z.ltb_spec ((requested_page req - 1) * page_size req) 0);
    [lia|].
  do 2 eexists. split; [reflexivity|].
  cbn [totalComments comments_currentPage comments_totalPages].
  assert (Hsub :
    apply_limit (parseInt (requested_size req))
      (drop (Z.to_nat (safeNumberLong (offset req)))
         (sort_comments (comments_on oid st)))
    `sublist_of` sort_comments (comments_on oid st)).
  { etrans; [apply apply_limit_sublist|apply sublist_drop]. }
  split; [|split; [reflexivity|split; [|split; [|split; [|split;
    [reflexivity|split; [|split;
       [|split; [apply page_size_sgn|apply page_size_safe]]]]]]]]].
  - apply Forall_fmap, Forall_forall. intros c Hc. cbn.
    apply (elem_of_sublist _ _ _ Hc) in Hsub as Hin.
    rewrite Hsort in Hin. apply comments_on_stored in Hin as [Hpost Hin].
    done.
  - intros c. apply comments_on_stored.
  - rewrite length_fmap. apply sublist_length in Hsub.
    pose proof (Permutation_length (Hsort (comments_on oid st))). lia.
  - intros Hsize. rewrite length_fmap. by apply apply_limit_length.
  - intros Hpage. by apply parseInt_Z.
  - intros Hsize Htotal.
    destruct (Math_ceil_div (Z.of_nat (length (comments_on oid st)))
                (requested_size req)) as (k & Hk & Hpos & _); [lia..|].
    exists k. split; [exact Hk|]. apply Hpos. lia.
Qed.

(** ** The tags field of the editor *)

Lemma split_cons (sep c : N) (s : jsstring) :
  c <> sep ->
  exists w ws, split sep s = w :: ws /\ split sep (c :: s) = (c :: w) :: ws.
Proof.
  intros Hc. cbn [split]. destruct (N.eqb_spec c sep); [done|].
  assert (Hne : split sep s <> []).
  { destruct s as [|c' s]; [done|]. cbn [split].
    destruct (c' =? sep)%N; [done|]. by destruct (split sep s). }
  destruct (split sep s) as [|w ws]; [done|]. by exists w, ws.
Qed.

Lemma split_app (sep : N) (x r : jsstring) :
  sep ∉ x -> split sep (x ++ sep :: r) = x :: split sep r.
Proof.
  induction x as [|c x IH]; intros Hx.
  - cbn [app split]. by rewrite N.eqb_refl.
  - apply not_elem_of_cons in Hx as [Hc Hx]. cbn [app].
    destruct (split_cons sep c (x ++ sep :: r)) as (w & ws & Hs & ->);
      [done|].
    rewrite (IH Hx) in Hs. by injection Hs as <- <-.
Qed.

Lemma split_absent (sep : N) (x : jsstring) :
  sep ∉ x -> split sep x = [x].
Proof.
  induction x as [|c x IH]; intros Hx; [done|].
  apply not_elem_of_cons in Hx as [Hc Hx].
  destruct (split_cons sep c x) as (w & ws & Hs & ->); [done|].
  rewrite (IH Hx) in Hs. by injection Hs as <- <-.
Qed.

Lemma split_pieces (sep : N) (s : jsstring) :
  Forall (fun w => sep ∉ w) (split sep s).
Proof.
  induction s as [|c s IH]; [repeat constructor; apply not_elem_of_nil|].
  cbn [split]. destruct (N.eqb_spec c sep) as [->|Hc].
  - constructor; [apply not_elem_of_nil|done].
  - destruct (split sep s) as [|w ws].
    + repeat constructor. apply not_elem_of_cons.
      split; [done|apply not_elem_of_nil].
    + apply Forall_cons in IH as [Hw Hws]. constructor; [|done].
      by apply not_elem_of_cons.
Qed.

Lemma split_join (tags : list jsstring) (x : jsstring) :
  Forall (fun tag => comma ∉ tag) (x :: tags) ->
  split comma (join (js ", ") (x :: tags)) = x :: map (cons 32%N) tags.
Proof.
  revert x. induction tags as [|y tags IH]; intros x Hall.
  - apply Forall_cons in Hall as [Hx _]. by apply split_absent.
  - apply Forall_cons in Hall as [Hx Hall].
    change (join (js ", ") (x :: y :: tags))
      with (x ++ comma :: 32%N :: join (js ", ") (y :: tags)).
    rewrite split_app by done. f_equal.
    destruct (split_cons comma 32%N (join (js ", ") (y :: tags)))
      as (w & ws & Hs & ->); [done|].
    rewrite (IH y Hall) in Hs. by injection Hs as <- <-.
Qed.

Lemma trim_sub (s : jsstring) (c : N) : c ∈ trim s -> c ∈ s.
Proof.
  destruct (trim_trimmed_of s) as (l & r & Hs & _). intros Hc.
  rewrite Hs, !elem_of_app. auto.
Qed.

Lemma filter_plain (tags : list jsstring) :
  Forall (fun tag => tag <> []) tags ->
  filter (fun tag => truthy tag = true) tags = tags.
Proof.
  induction 1 as [|tag tags Htag _ IH]; [done|].
  rewrite filter_cons_True, IH; [done|]. by destruct tag.
Qed.

(** X24.  The tags field of the post editor.  The tags the editor
    submits are never empty, carry no surrounding white space and no
    comma, so the trimming of the server stores them as they are sent;
    and for a post whose tags are of that kind, opening the editor and
    saving without touching the field submits the tags of the post, in
    their order and with their repetitions. *)
Theorem tags_field_round_trip (field : jsstring) (tags : list jsstring) :
  Forall plain_tag (submitted_tags field)
  /\ map (applySetters postSchema.tags) (submitted_tags field)
     = submitted_tags field
  /\ (Forall plain_tag tags ->
      submitted_tags (tags_field (Some tags)) = tags)
  /\ submitted_tags (tags_field None) = [].
Proof.
  assert (Hplain : Forall plain_tag (submitted_tags field)).
  { unfold submitted_tags. apply Forall_forall. intros tag.
    rewrite list_elem_of_filter. intros [Htag Hin].
    apply list_elem_of_In, in_map_iff in Hin as (w & <- & Hw).
    apply list_elem_of_In in Hw.
    split; [by destruct (trim w)|]. split; [apply trim_twice|].
    intros Hc%trim_sub.
    pose proof (split_pieces comma field) as Hall.
    rewrite Forall_forall in Hall. by apply (Hall w). }
  split; [exact Hplain|]. split; [|split; [|reflexivity]].
  - unfold applySetters. cbn [opt_trim postSchema.tags].
    induction Hplain as [|tag l (_ & Htrim & _) _ IH]; [done|].
    cbn [map]. by rewrite Htrim, IH.
  - intros Hall. unfold tags_field, submitted_tags.
    destruct tags as [|x tags]; [reflexivity|].
    assert (Hjoin : truthy (join (js ", ") (x :: tags)) = true).
    { apply Forall_cons in Hall as [(Hx & _) _].
      destruct x as [|c x]; [done|].
      cbn [join]. by destruct tags. }
    rewrite Hjoin, split_join
      by (eapply Forall_impl; [exact Hall|by intros ? (_ & _ & ?)]).
    cbn [map]. rewrite map_map.
    assert (Htrim : map trim (x :: tags) = x :: tags).
    { clear Hjoin. induction Hall as [|tag l (_ & Htrim & _) _ IH]; [done|].
      cbn [map]. by rewrite Htrim, IH. }
    cbn [map] in Htrim.
    rewrite (map_ext (fun tag => trim (32%N :: tag)) trim)
      by reflexivity.
    injection Htrim as -> ->. apply filter_plain.
    eapply Forall_impl; [exact Hall|by intros ? (? & _)].
Qed.

End Server.

(** * Walking the pages of the post list

    Each page is a query of its own, and the database may order the
    selected posts anew at each: [sorts i] is the order at the query for
    page [i + 1]. *)

Section Pages.

Variable castObjectId : jsstring -> option ObjectId.
Variable text_search : jsstring -> Post.t -> bool.
Variable sorts : nat -> jsstring -> Z -> list Post.t -> list Post.t.

Lemma concat_map_fmap {A B C : Type} (f : B -> C) (g : A -> list B)
    (l : list A) :
  concat (map (fun i => f <$> g i) l) = f <$> concat (map g l).
Proof.
  induction l as [|x l IH]; [done|]. cbn [map concat].
  by rewrite fmap_app, IH.
Qed.

(** X21.  Walking the pages.  Provided the database returns the selected
    posts in one and the same order at each of the page queries, with a
    positive page size up to 2^53 and fewer than 2^53 selected posts, the
    pages 1 to [totalPages] of a list request, one after the other on an
    unchanged store, hold every selected post exactly once, in that
    order. *)
Theorem pages_partition_selection (req : Request) (st st' : Store)
    (res : Response) (ok : bool) (docs : list PostDoc) (pg : Pagination)
    (pages : nat) (order : list Post.t) :
  (forall i, (i < pages)%nat ->
     sorted_selection text_search (sorts i) req st = order) ->
  order ≡ₚ matching text_search (query_of req) st ->
  0 < requested_size req <= 2 ^ 53 ->
  Z.of_nat (length order) < 2 ^ 53 ->
  run castObjectId text_search (sorts 0%nat) (posts_list req) st
  = (st', inr res) ->
  json res = json_posts ok docs pg ->
  totalPages pg = num_of_Z (Z.of_nat pages) ->
  concat (map (fun i =>
                 listed castObjectId text_search (sorts i)
                   (on_page (Z.of_nat (S i)) req) st)
            (seq 0 pages))
  = populate_post st (Some [js "username"]) <$> order
  /\ post_doc <$>
       concat (map (fun i =>
                      listed castObjectId text_search (sorts i)
                        (on_page (Z.of_nat (S i)) req) st)
                 (seq 0 pages))
     ≡ₚ matching text_search (query_of req) st.
Proof.
  intros Hsame Hperm Hsize Htotal Hrun Hjson Hpages.
  pose proof (Permutation_length Hperm) as Hlength.
  destruct (totalPages_enough castObjectId text_search (sorts 0%nat) req st
              st' res ok docs pg pages Hsize ltac:(lia) Hrun Hjson Hpages)
    as [Hlow Hup].
  assert (Hall :
    concat (map (fun i =>
                   listed castObjectId text_search (sorts i)
                     (on_page (Z.of_nat (S i)) req) st)
              (seq 0 pages))
    = populate_post st (Some [js "username"]) <$> order).
  { transitivity
      (concat (map (fun i =>
                      populate_post st (Some [js "username"]) <$>
                        take (Z.to_nat (requested_size req))
                          (drop (i * Z.to_nat (requested_size req)) order))
                 (seq 0 pages))).
    - f_equal. apply map_ext_in. intros i Hi. apply in_seq in Hi.
      rewrite listed_on_page by nia. by rewrite Hsame by lia.
    - rewrite concat_map_fmap, concat_pages. f_equal. apply take_ge. nia. }
  split; [exact Hall|]. rewrite Hall, <- list_fmap_compose.
  by rewrite (list_fmap_ext _ id _ (fun _ _ _ => eq_refl)), list_fmap_id.
Qed.

End Pages.

(** * The properties on the example blog *)

Section Examples.

Import Example.

Local Abbreviation run := (run castObjectId text_search sort_posts).
Local Abbreviation comments_update := (comments_update jwt_verify).
Local Abbreviation comments_create := (comments_create jwt_verify).
Local Abbreviation posts_create := (posts_create jwt_verify).
Local Abbreviation posts_update := (posts_update jwt_verify).
Local Abbreviation posts_delete := (posts_delete jwt_verify).
Local Abbreviation auth := (auth jwt_verify).


(** Two requests that fail for two different reasons, a token with a bad
    signature and the token of a user that is not stored, get the same
    response. *)
Lemma bad_token_and_unknown_user_alike :
  ~ three_failures_told_apart castObjectId jwt_verify text_search sort_posts.
Proof.
  intros H.
  destruct (H empty_request
              {| header_Authorization := Some (js "Bearer forged");
                 params_id := []; query_page := None; query_limit := None;
                 query_category_param := None; query_tag := None;
                 query_search := None; query_sortBy := None;
                 query_sortOrder := None; body_title := None;
                 body_body := None; body_tags := None;
                 body_category := None; body_postID := None;
                 body_comment := None |}
              (request_of "e" []) blog (js "forged")
              (js "valid." ++ oid "e") (oid "e")
              (fail 401 "No token provided, authorization denied")
              (fail 401 "Token is not valid")
              (fail 401 "Token is not valid"))
    as (_ & Hdiffer & _); [vm_compute; congruence ..|].
  by apply Hdiffer.
Qed.

(** Carol comments on a post that does not exist and sends no text: the
    answer is 400, not 404. *)
Lemma textless_comment_is_400 :
  ~ missing_post_always_not_found castObjectId jwt_verify text_search
      sort_posts.
Proof.
  intros H.
  destruct (H env (with_comment None (Some (oid "5")) (request_of "c" []))
              blog (doc_of carol))
    as (res & Hrun & Hstatus).
  - vm_compute; congruence.
  - intros (pid & o & p & [= <-] & Hcast & Hp).
    vm_compute in Hcast. injection Hcast as <-.
    vm_compute in Hp. discriminate Hp.
  - vm_compute in Hrun. injection Hrun as <-. discriminate Hstatus.
Qed.


(** A list request for the page 2^53 + 1, which is no double, is answered
    200 with the page 2^53 as [currentPage]. *)
Lemma rounded_page_is_not_the_requested :
  ~ every_list_response_paged castObjectId text_search sort_posts.
Proof.
  intros H.
  destruct (H (with_page (Some 9007199254740993) None empty_request)
              blog blog
              {| status := 200;
                 json :=
                   json_posts true []
                     {| currentPage := num_of_Z 9007199254740992;
                        totalPages := num_of_Z 1;
                        totalPosts := 1; hasNextPage := false;
                        hasPrevPage := true |} |}
              true []
              {| currentPage := num_of_Z 9007199254740992;
                 totalPages := num_of_Z 1;
                 totalPosts := 1; hasNextPage := false;
                 hasPrevPage := true |})
    as (Hcurrent & _); [vm_compute; reflexivity ..|].
  vm_compute in Hcurrent. discriminate Hcurrent.
Qed.

Ltac evaluate := vm_compute; first [reflexivity | congruence | lia].


Lemma authors_only_witness :
  run (posts_create env (request_of "c" [])) blog
  = (blog, inr (fail 403 "Editor or Admin access required")).
Proof.
  refine (proj1 (authors_only castObjectId jwt_verify text_search
                   sort_posts env (request_of "c" []) blog (doc_of carol)
                   _ _ _));
    evaluate.
Defined.

Lemma fetch_counts_one_view_witness :
  Post.views <$>
    posts (run (posts_get env (request_of "a" (oid "1"))) blog).1
      !! oid "1"
  = Some 8.
Proof.
  destruct (fetch_counts_one_view castObjectId text_search sort_posts env
              (request_of "a" (oid "1")) blog
              (run (posts_get env (request_of "a" (oid "1"))) blog).1
              {| status := 200;
                 json :=
                   json_post true None
                     (Some (populate_post blog
                              (Some [js "username"; js "email"; js "role"])
                              hello)) |})
    as (o & p & Hcast & Hp & Hviews & _); [evaluate ..|].
  vm_compute in Hcast. injection Hcast as <-.
  vm_compute in Hp. injection Hp as <-.
  exact Hviews.
Defined.

Lemma fetch_returns_old_count_witness :
  exists doc,
    (run (posts_get env (request_of "a" (oid "1"))) blog).2
    = inr {| status := 200; json := json_post true None (Some doc) |}
    /\ Post.views (post_doc doc) = 7.
Proof.
  destruct (fetch_returns_old_count castObjectId text_search sort_posts env
              (request_of "a" (oid "1")) blog
              (run (posts_get env (request_of "a" (oid "1"))) blog).1
              {| status := 200;
                 json :=
                   json_post true None
                     (Some (populate_post blog
                              (Some [js "username"; js "email"; js "role"])
                              hello)) |})
    as (o & p & doc & Hcast & Hp & Hjson & Hviews & _); [evaluate ..|].
  vm_compute in Hcast. injection Hcast as <-.
  vm_compute in Hp. injection Hp as <-.
  cbn [json] in Hjson. injection Hjson as <-.
  eexists. split; [vm_compute; reflexivity|exact Hviews].
Defined.

Lemma comment_on_missing_post_witness :
  run (comments_create env
         (with_comment (Some (js "hi")) (Some (oid "5")) (request_of "c" [])))
    blog
  = (blog, inr (fail 404 "Post not found")).
Proof.
  destruct (comment_on_missing_post castObjectId jwt_verify text_search
              sort_posts env
              (with_comment (Some (js "hi")) (Some (oid "5"))
                 (request_of "c" []))
              blog (doc_of carol))
    as (res & Hrun & _ & Hnotfound & _).
  - evaluate.
  - intros (pid & o & p & [= <-] & Hcast & Hp).
    vm_compute in Hcast. injection Hcast as <-.
    vm_compute in Hp. discriminate Hp.
  - rewrite Hrun. rewrite (Hnotfound (oid "5") (oid "5")); evaluate.
Defined.

Lemma update_lists_every_violation_witness :
  exists errors,
    run (posts_update env
           (with_post (Some (replicate 201 120%N)) (Some (js "short"))
              None None (request_of "b" (oid "1"))))
      blog
    = (blog, inr {| status := 400;
                    json := json_errors false (js "Validation error")
                              errors |})
    /\ length errors = 2%nat
    /\ In (js "Title cannot exceed 200 characters") errors
    /\ In (js "Body must be at least 10 characters long") errors.
Proof.
  destruct (update_lists_every_violation castObjectId jwt_verify
              text_search sort_posts env
              (with_post (Some (replicate 201 120%N)) (Some (js "short"))
                 None None (request_of "b" (oid "1")))
              blog (doc_of bob) (oid "1") hello)
    as (errors & Hrun & Hlength & Htitle & _ & Hbody & _);
    [evaluate ..|].
  exists errors. split; [exact Hrun|]. split; [exact Hlength|]. split.
  - apply (Htitle (replicate 201 120%N)); evaluate.
  - apply (Hbody (js "short")); evaluate.
Defined.

Lemma update_frame_witness :
  exists p',
    posts (run (posts_update env
                  (with_post (Some (js "  New  ")) None None None
                     (request_of "b" (oid "1"))))
             blog).1 !! oid "1" = Some p'
    /\ Post.title p' = js "New"
    /\ Post.body p' = Post.body hello
    /\ Post.tags p' = Post.tags hello
    /\ Post.category p' = Post.category hello
    /\ Post.author p' = Post.author hello
    /\ Post.views p' = Post.views hello
    /\ Post.createdAt p' = Post.createdAt hello.
Proof.
  destruct (update_frame castObjectId jwt_verify text_search sort_posts env
              (with_post (Some (js "  New  ")) None None None
                 (request_of "b" (oid "1")))
              blog
              (run (posts_update env
                      (with_post (Some (js "  New  ")) None None None
                         (request_of "b" (oid "1"))))
                 blog).1
              {| status := 200;
                 json :=
                   json_post true (Some (js "Post updated successfully"))
                     (populate_post blog (Some [js "username"])
                      <$> posts (run (posts_update env
                                        (with_post (Some (js "  New  "))
                                           None None None
                                           (request_of "b" (oid "1"))))
                                   blog).1 !! oid "1") |})
    as (o & p & p' & Hcast & Hp & Hposts & _ & _ & Htitle & Hbody & Htags
        & Hcategory & _ & Hauthor & Hviews & Hcreated & _);
    [evaluate ..|].
  vm_compute in Hcast. injection Hcast as <-.
  vm_compute in Hp. injection Hp as <-.
  exists p'. rewrite Hposts. split; [apply lookup_insert_eq|].
  repeat split; assumption.
Defined.


Lemma tags_round_trip_witness :
  exists st2 doc,
    run (posts_get env (request_of "c" (oid "2")))
      (run (posts_create env
              (with_post (Some (js " T ")) (Some (js "0123456789"))
                 (Some [js " a"; js "b "; js "b"]) None
                 (request_of "b" [])))
         blog).1
    = (st2, inr {| status := 200; json := json_post true None (Some doc) |})
    /\ Post.tags (post_doc doc) = [js "a"; js "b"; js "b"].
Proof.
  destruct (tags_round_trip castObjectId jwt_verify text_search sort_posts
              env env
              (with_post (Some (js " T ")) (Some (js "0123456789"))
                 (Some [js " a"; js "b "; js "b"]) None (request_of "b" []))
              (request_of "c" (oid "2")) blog
              (run (posts_create env
                      (with_post (Some (js " T ")) (Some (js "0123456789"))
                         (Some [js " a"; js "b "; js "b"]) None
                         (request_of "b" [])))
                 blog).1
              {| status := 201;
                 json :=
                   json_post true (Some (js "Post created successfully"))
                     (populate_post blog (Some [js "username"])
                      <$> posts (run (posts_create env
                                        (with_post (Some (js " T "))
                                           (Some (js "0123456789"))
                                           (Some [js " a"; js "b "; js "b"])
                                           None (request_of "b" [])))
                                   blog).1 !! oid "2") |})
    as (st2 & doc & Hrun & Htags & _); [evaluate ..|].
  exists st2, doc. split; [exact Hrun|]. rewrite Htags. evaluate.
Defined.

(** ** The further properties on the example blog *)

Local Abbreviation handle := (handle jwt_verify).
Local Abbreviation comments_delete := (comments_delete jwt_verify).
Local Abbreviation listed := (listed castObjectId text_search sort_posts).
Local Abbreviation comments_list :=
  (comments_list castObjectId text_search sort_posts sort_comments).

Lemma blog_valid : valid_store blog.
Proof.
  split; intros k x Hx; unfold blog in Hx; cbn [posts comments] in Hx.
  - apply lookup_insert_Some in Hx as [[_ <-]|[_ Hx]]; [|done].
    repeat split; try (vm_compute; lia).
    + repeat constructor; vm_compute; lia.
    + vm_compute. tauto.
  - apply lookup_insert_Some in Hx as [[_ <-]|[_ Hx]]; [|done].
    split; vm_compute; lia.
Qed.

Lemma blog_keyed : keyed blog.
Proof.
  split; [|split]; intros k x Hx; unfold blog in Hx;
    cbn [users posts comments] in Hx;
    repeat (apply lookup_insert_Some in Hx as [[<- <-]|[_ Hx]];
            [reflexivity|]);
    done.
Qed.

Lemma routes_keep_store_valid_witness :
  valid_store
    (run (handle PUT_post env
            (with_post (Some (js "  New  ")) None None None
               (request_of "b" (oid "1"))))
       blog).1.
Proof.
  exact (proj1 (routes_keep_store_valid castObjectId jwt_verify text_search
                  sort_posts PUT_post env
                  (with_post (Some (js "  New  ")) None None None
                     (request_of "b" (oid "1")))
                  blog blog_valid blog_keyed)).
Defined.

Lemma bearer_prefix_optional_witness :
  run (auth (with_token (js "valid." ++ oid "a") empty_request)) blog
  = run (auth (request_of "a" [])) blog.
Proof.
  refine (proj2 (proj2 (bearer_prefix_optional castObjectId jwt_verify
                          text_search sort_posts (request_of "a" [])
                          (with_token (js "valid." ++ oid "a")
                             empty_request)
                          (js "valid." ++ oid "a") blog _ _ _)));
    evaluate.
Defined.

Lemma refused_before_handler_witness :
  run (handle DELETE_post env (request_of "e" (oid "1"))) blog
  = (blog, inr (fail 401 "Token is not valid")).
Proof.
  refine (proj1 (refused_before_handler castObjectId jwt_verify text_search
                   sort_posts DELETE_post env (request_of "e" (oid "1"))
                   blog (fail 401 "Token is not valid") _ _));
    evaluate.
Defined.

Lemma fetch_failures_witness :
  run (posts_get env (request_of "a" (js "nope"))) blog
  = (blog, inr (fail 400 "Invalid post ID")).
Proof.
  destruct (fetch_failures castObjectId text_search sort_posts env
              (request_of "a" (js "nope")) blog)
    as [Hrun _]; [evaluate|].
  rewrite Hrun. evaluate.
Defined.

Lemma create_stores_post_witness :
  posts
    (run (posts_create env
            (with_post (Some (js " T ")) (Some (js "0123456789"))
               (Some [js " a"; js "b "; js "b"]) None (request_of "b" [])))
       blog).1
    !! oid "2"
  = Some (created env
            (with_post (Some (js " T ")) (Some (js "0123456789"))
               (Some [js " a"; js "b "; js "b"]) None (request_of "b" []))
            (doc_of bob)).
Proof.
  rewrite (create_stores_post castObjectId jwt_verify text_search sort_posts
             env
             (with_post (Some (js " T ")) (Some (js "0123456789"))
                (Some [js " a"; js "b "; js "b"]) None (request_of "b" []))
             blog (doc_of bob));
    [apply lookup_insert_eq|evaluate ..].
Defined.

Lemma create_lists_every_violation_witness :
  exists errors,
    run (posts_create env
           (with_post None (Some (js "short")) None None
              (request_of "b" [])))
      blog
    = (blog, inr {| status := 400;
                    json := json_errors false (js "Validation error")
                              errors |})
    /\ length errors = 2%nat
    /\ In (js "Title is required") errors
    /\ In (js "Body must be at least 10 characters long") errors.
Proof.
  destruct (create_lists_every_violation castObjectId jwt_verify
              text_search sort_posts env
              (with_post None (Some (js "short")) None None
                 (request_of "b" []))
              blog (doc_of bob))
    as (errors & Hrun & Hlength & Htitle & _ & _ & Hbody & _);
    [evaluate ..|].
  exists errors. split; [exact Hrun|]. split; [exact Hlength|]. split.
  - apply Htitle. evaluate.
  - apply (Hbody (js "short")); evaluate.
Defined.

Lemma update_returns_stored_post_witness :
  exists st' doc,
    run (posts_update env
           (with_post (Some (js "  New  ")) None None None
              (request_of "b" (oid "1"))))
      blog
    = (st', inr {| status := 200;
                   json :=
                     json_post true (Some (js "Post updated successfully"))
                       (Some doc) |})
    /\ posts st' !! oid "1" = Some (post_doc doc).
Proof.
  destruct (update_returns_stored_post castObjectId jwt_verify text_search
              sort_posts env
              (with_post (Some (js "  New  ")) None None None
                 (request_of "b" (oid "1")))
              blog (doc_of bob) (oid "1") hello)
    as (st' & doc & Hrun & _ & Hstored & _); [evaluate ..|].
  by exists st', doc.
Defined.

Lemma delete_removes_post_witness :
  exists st',
    run (posts_delete (request_of "b" (oid "1"))) blog
    = (st', inr {| status := 200;
                   json := json_message true
                             (js "Post deleted successfully") |})
    /\ posts st' = delete (oid "1") (posts blog)
    /\ comments st' = comments blog.
Proof.
  destruct (delete_removes_post castObjectId jwt_verify text_search
              sort_posts env (request_of "b" (oid "1"))
              (request_of "c" (oid "1")) blog (doc_of bob) (oid "1") hello)
    as (st' & Hrun & Hposts & Hcomments & _); [evaluate ..|].
  by exists st'.
Defined.

Lemma update_delete_missing_post_witness :
  run (posts_delete (request_of "b" (oid "5"))) blog
  = (blog, inr (fail 404 "Post not found")).
Proof.
  destruct (update_delete_missing_post castObjectId jwt_verify text_search
              sort_posts env (request_of "b" (oid "5")) blog (doc_of bob))
    as [_ Hrun]; [evaluate ..|].
  rewrite Hrun. evaluate.
Defined.

Lemma comment_create_stores_comment_witness :
  exists st' doc,
    run (comments_create env
           (with_comment (Some (js " hi ")) (Some (oid "1"))
              (request_of "c" [])))
      blog
    = (st', inr {| status := 201;
                   json := json_comment true
                             (js "Comment added successfully") (Some doc) |})
    /\ comments st' !! oid "2" = Some (comment_doc doc).
Proof.
  destruct (comment_create_stores_comment castObjectId jwt_verify
              text_search sort_posts env
              (with_comment (Some (js " hi ")) (Some (oid "1"))
                 (request_of "c" []))
              blog (doc_of carol) (oid "1") (js " hi ") (oid "1") hello)
    as (st' & doc & Hrun & _ & Hstored & _); [evaluate ..|].
  by exists st', doc.
Defined.

Lemma comment_create_lists_violation_witness :
  run (comments_create env
         (with_comment (Some (js "  ")) (Some (oid "1"))
            (request_of "c" [])))
    blog
  = (blog, inr {| status := 400;
                  json := json_errors false (js "Validation error")
                            [js "Comment content is required"] |}).
Proof.
  refine (proj1 (comment_create_lists_violation castObjectId jwt_verify
                   text_search sort_posts env
                   (with_comment (Some (js "  ")) (Some (oid "1"))
                      (request_of "c" []))
                   blog (doc_of carol) (oid "1") (js "  ") (oid "1") hello
                   _ _ _ _ _ _ _) _);
    evaluate.
Defined.

Lemma comment_update_stores_text_witness :
  exists st' doc,
    run (comments_update env
           (with_comment (Some (js " Better ")) None
              (request_of "c" (oid "9"))))
      blog
    = (st', inr {| status := 200;
                   json := json_comment true
                             (js "Comment updated successfully")
                             (Some doc) |})
    /\ Comment.comment (comment_doc doc) = js "Better".
Proof.
  destruct (comment_update_stores_text castObjectId jwt_verify text_search
              sort_posts env
              (with_comment (Some (js " Better ")) None
                 (request_of "c" (oid "9")))
              blog (doc_of carol) (oid "9") nice (js " Better "))
    as (st' & doc & Hrun & _ & _ & Htext & _); [evaluate ..|].
  exists st', doc. split; [exact Hrun|]. rewrite Htext. evaluate.
Defined.

Lemma comment_update_refusals_witness :
  run (comments_update env
         (with_comment (Some (js " ")) None (request_of "d" (oid "9"))))
    blog
  = (blog, inr (fail 400 "Comment content is required")).
Proof.
  refine (proj1 (comment_update_refusals castObjectId jwt_verify
                   text_search sort_posts env
                   (with_comment (Some (js " ")) None
                      (request_of "d" (oid "9")))
                   blog (doc_of dave) _) _);
    evaluate.
Defined.

Lemma comment_delete_removes_comment_witness :
  exists st',
    run (comments_delete (request_of "a" (oid "9"))) blog
    = (st', inr {| status := 200;
                   json := json_message true
                             (js "Comment deleted successfully") |})
    /\ comments st' = delete (oid "9") (comments blog).
Proof.
  destruct (proj1 (comment_delete_removes_comment castObjectId jwt_verify
                     text_search sort_posts (request_of "a" (oid "9")) blog
                     (doc_of alice) ltac:(evaluate))
              (oid "9") nice)
    as (st' & Hrun & Hcomments & _); [evaluate ..|].
  by exists st'.
Defined.


Lemma list_rejects_negative_offset_witness :
  run (posts_list (with_page (Some 0) None empty_request)) blog
  = (blog, inr (fail 500 "Error fetching posts")).
Proof.
  refine (proj1 (list_rejects_negative_offset castObjectId text_search
                   sort_posts (with_page (Some 0) None empty_request)
                   blog _)).
  evaluate.
Defined.

Lemma pages_partition_selection_witness :
  length
    (listed (on_page 1 (with_page None (Some 2) empty_request)) shelf
     ++ listed (on_page 2 (with_page None (Some 2) empty_request)) shelf
     ++ [])
  = 3%nat.
Proof.
  destruct (pages_partition_selection castObjectId text_search
              (fun _ => sort_posts)
              (with_page None (Some 2) empty_request) shelf shelf
              {| status := 200;
                 json :=
                   json_posts true
                     (listed (with_page None (Some 2) empty_request) shelf)
                     {| currentPage := num_of_Z 1; totalPages := num_of_Z 2;
                        totalPosts := 3; hasNextPage := true;
                        hasPrevPage := false |} |}
              true (listed (with_page None (Some 2) empty_request) shelf)
              {| currentPage := num_of_Z 1; totalPages := num_of_Z 2;
                 totalPosts := 3; hasNextPage := true;
                 hasPrevPage := false |}
              2%nat
              (matching text_search
                 (query_of (with_page None (Some 2) empty_request)) shelf))
    as [Hall _].
  - by intros i _.
  - reflexivity.
  - split; evaluate.
  - evaluate.
  - evaluate.
  - reflexivity.
  - reflexivity.
  - cbn [seq map concat] in Hall. change (Z.of_nat 1) with 1 in Hall.
    change (Z.of_nat 2) with 2 in Hall.
    rewrite Hall. evaluate.
Defined.

Lemma comments_list_content_witness :
  exists docs pg,
    comments_list (request_of "a" (oid "1")) blog
    = {| comments_status := 200;
         comments_json := comments_page true docs pg |}
    /\ totalComments pg = 1.
Proof.
  destruct (comments_list_content castObjectId text_search sort_posts
              sort_comments (request_of "a" (oid "1")) blog (oid "1") hello)
    as (docs & pg & Hrun & _ & Htotal & _).
  - by intros l.
  - evaluate.
  - evaluate.
  - evaluate.
  - exists docs, pg. split; [exact Hrun|]. rewrite Htotal. evaluate.
Defined.

End Examples.
